(** * projen: the npm package component (src/npm-package.ts, src/node-project.ts)

    A shallow embedding of the dependency rendering, the post-install
    resolution, the keyword set and the task command rendering of
    [NpmPackage] and [NodeProject], with the properties of the
    specification stated over it; then of the options of the
    constructor, the scripts, engines, binaries and author of the
    manifest and the build workflows, with the properties the code shows
    for them.

    JavaScript values are modelled as the code uses them:
    - a [string] is a sequence of code units (Rocq [string]);
    - a [Record<string, string>] is an association list in property
      creation order ([JsObject]); enumeration ([Object.entries],
      [Object.keys], [JSON.stringify]) lists canonical array-index keys
      first, in ascending numeric order, then the other keys in creation
      order, as ECMAScript's OrdinaryOwnPropertyKeys does; the own
      properties hold strings, and the tests [!o[k]] and [k in o] also
      see the properties every object inherits from Object.prototype
      ([JsObject.inherited]);
    - a [Record<string, string[]>] is such a list with values of another
      type ([JsDict]);
    - a [Set<string>] is a duplicate-free list in insertion order;
    - a thrown [Error] is the [Throw] case of [Result];
    - [logging.warn] / [logging.verbose] append to a log. *)

From Stdlib Require Import List String Ascii Bool Arith NArith DecimalString.
From Stdlib Require Import Sorting.Sorted Sorting.Permutation.
Import ListNotations.
Local Open Scope list_scope.
Local Open Scope string_scope.

(* ------------------------------------------------------------------ *)
(** ** Exceptions and logging *)

(** Every [throw new Error(msg)] of the sources carries its message; the
    constructor records which error of the specification's taxonomy the
    throwing statement stands for. *)
Inductive Error : Type :=
| ResolutionError (msg : string)
    (* "unable to determine minimum semver for peer dependency ..." *)
| ConflictError (msg : string)
    (* "unable to bundle ... it cannot appear as a peer dependency" *)
| ConfigurationError (msg : string)
    (* "invalid npmTaskExecution mode: ..." *)
| LibraryDependencyError (msg : string)
    (* "cannot add peer/bundled dependencies to an APP project: ..." *)
| AssertionError (msg : string)
    (* "assertion failed" *)
| TypeError (msg : string)
    (* raised by the runtime, e.g. Object.keys(undefined) *)
| IoError (msg : string).
    (* raised by readJsonSync on a missing file *)

Inductive Result (A : Type) : Type :=
| Ok (a : A)
| Throw (e : Error).

Arguments Ok {A} a.
Arguments Throw {A} e.

Definition bind {A B : Type} (r : Result A) (k : A -> Result B) : Result B :=
  match r with
  | Ok a => k a
  | Throw e => Throw e
  end.

Notation "'let*' x ':=' r 'in' k" := (bind r (fun x => k))
  (at level 10, x pattern, r at level 100, k at level 200).

Inductive LogEntry : Type :=
| Warn (msg : string)
| Verbose (msg : string).

Definition isWarn (e : LogEntry) : bool :=
  match e with Warn _ => true | Verbose _ => false end.

(** [sep.join(xs)] *)
Fixpoint join (sep : string) (xs : list string) : string :=
  match xs with
  | [] => EmptyString
  | [x] => x
  | x :: rest => x ++ sep ++ join sep rest
  end.

(** JavaScript truthiness of a string: only the empty string is falsy. *)
Definition truthy (s : string) : bool :=
  match s with
  | EmptyString => false
  | String _ _ => true
  end.

(* ------------------------------------------------------------------ *)
(** ** Array.prototype.sort *)

Module JsArray.
Section Sort.
Variable A : Type.
(** The comparator: [Lt] for a negative number, [Eq] for zero, [Gt] for
    a positive one. *)
Variable cmp : A -> A -> comparison.

(** [x] goes before the first element it does not compare greater than,
    which keeps elements that compare equal in their original order
    (the sort is stable). *)
Fixpoint insert (x : A) (l : list A) : list A :=
  match l with
  | [] => [x]
  | y :: t =>
      match cmp x y with
      | Gt => y :: insert x t
      | _ => x :: y :: t
      end
  end.

Definition sort (l : list A) : list A := fold_right insert [] l.

(** [x] may stand before [y]. *)
Definition le (x y : A) : Prop := cmp x y <> Gt.
End Sort.
Arguments insert {A} cmp x l.
Arguments sort {A} cmp l.
Arguments le {A} cmp x y.
End JsArray.

(* ------------------------------------------------------------------ *)
(** ** Record<string, string> *)

Module JsObject.

(** The properties in creation order; keys are unique. *)
Definition t : Type := list (string * string).

Definition empty : t := [].

(** The own property [k] of [o], [None] when [o] has none. *)
Fixpoint get (o : t) (k : string) : option string :=
  match o with
  | [] => None
  | (k', v) :: rest => if String.eqb k' k then Some v else get rest k
  end.

(** The names of the properties of Object.prototype, which every object
    made by a literal or by [JSON.parse] inherits: functions, and for
    [__proto__] the prototype itself, so every one of them is truthy and
    none is a string. *)
Definition prototypeKeys : list string :=
  [ "constructor"; "__defineGetter__"; "__defineSetter__"; "hasOwnProperty";
    "__lookupGetter__"; "__lookupSetter__"; "isPrototypeOf";
    "propertyIsEnumerable"; "toString"; "valueOf"; "__proto__";
    "toLocaleString" ].

Definition inherited (k : string) : bool := existsb (String.eqb k) prototypeKeys.
Arguments inherited k : simpl never.

(** [o[k] = v]: an existing property keeps its place, a new one is
    created last (the name [__proto__] apart: it is an accessor of
    Object.prototype, under which the assignment of a string creates no
    property; the statements about that name say so). *)
Fixpoint set (o : t) (k v : string) : t :=
  match o with
  | [] => [(k, v)]
  | (k', v') :: rest =>
      if String.eqb k' k then (k', v) :: rest else (k', v') :: set rest k v
  end.

(** [!o[k]]: the own property holds the empty string, or there is no
    own property and none is inherited. *)
Definition falsyAt (o : t) (k : string) : bool :=
  match get o k with
  | Some v => negb (truthy v)
  | None => negb (inherited k)
  end.

Definition digit (c : ascii) : option N :=
  let n := N_of_ascii c in
  if ((48 <=? n) && (n <=? 57))%N then Some (n - 48)%N else None.

Fixpoint digits (s : string) (acc : N) : option N :=
  match s with
  | EmptyString => Some acc
  | String c rest =>
      match digit c with
      | Some d => digits rest (10 * acc + d)%N
      | None => None
      end
  end.

(** A key is an array index when it is the canonical decimal numeral of
    an integer in [0, 2^32 - 2]: no sign, no leading zero. *)
Definition arrayIndex (k : string) : option N :=
  match k with
  | EmptyString => None
  | String c rest =>
      match digit c, rest with
      | Some 0%N, EmptyString => Some 0%N
      | Some 0%N, String _ _ => None
      | Some _, _ =>
          match digits k 0 with
          | Some n => if (n <? 4294967295)%N then Some n else None
          | None => None
          end
      | None, _ => None
      end
  end.

Definition isArrayIndex (k : string) : bool :=
  match arrayIndex k with
  | Some _ => true
  | None => false
  end.

Definition indexOf (e : string * string) : N :=
  match arrayIndex (fst e) with
  | Some n => n
  | None => 0%N
  end.

Definition indexed (o : t) : t := filter (fun e => isArrayIndex (fst e)) o.
Definition named (o : t) : t := filter (fun e => negb (isArrayIndex (fst e))) o.

(** [Object.entries(o)]: own enumerable properties, array indices first
    in ascending numeric order, then the rest in creation order. *)
Definition entries (o : t) : list (string * string) :=
  (JsArray.sort (fun a b => N.compare (indexOf a) (indexOf b)) (indexed o)
   ++ named o)%list.

(** [Object.keys(o)] *)
Definition keys (o : t) : list string := map fst (entries o).

(** The object built by assigning the pairs of [l] in turn. *)
Definition ofList (l : list (string * string)) : t :=
  fold_left (fun o e => set o (fst e) (snd e)) l empty.

End JsObject.

(* ------------------------------------------------------------------ *)
(** ** The dependency ledger ([project.deps]) *)

Module Deps.

Inductive DependencyType : Type :=
| RUNTIME | PEER | BUNDLED | BUILD | TEST | DEVENV.

Definition DependencyType_eqb (a b : DependencyType) : bool :=
  match a, b with
  | RUNTIME, RUNTIME | PEER, PEER | BUNDLED, BUNDLED
  | BUILD, BUILD | TEST, TEST | DEVENV, DEVENV => true
  | _, _ => false
  end.

Record Dependency : Type := {
  name : string;
  version : option string;   (* [None] for [undefined] *)
  type : DependencyType
}.

Definition Ledger : Type := list Dependency.

(** [splitLast s] cuts [s] at its last ['@']. *)
Fixpoint splitLast (s : string) : option (string * string) :=
  match s with
  | EmptyString => None
  | String c rest =>
      match splitLast rest with
      | Some (a, b) => Some (String c a, b)
      | None => if Ascii.eqb c "@" then Some (EmptyString, rest) else None
      end
  end.

(** Modelled from the spec: [Dependencies.parseDependency] (src/deps.ts is
    not among the sources). The requirement has the form
    [<package>@<range>]; only the last ['@'] that is not the first
    character separates the name from the range. *)
Definition parseDependency (spec : string) : string * option string :=
  match spec with
  | EmptyString => (spec, None)
  | String c rest =>
      match splitLast rest with
      | Some (a, b) => (String c a, Some b)
      | None => (spec, None)
      end
  end.

Definition sameKey (a b : Dependency) : bool :=
  String.eqb (name a) (name b) && DependencyType_eqb (type a) (type b).

(** Store [dep] under its key [(name, type)]: an entry with that key is
    overwritten where it stands, a new one is appended. *)
Fixpoint store (dep : Dependency) (l : Ledger) : Ledger :=
  match l with
  | [] => [dep]
  | d :: rest => if sameKey d dep then dep :: rest else d :: store dep rest
  end.

(** Modelled from the spec: [Dependencies.addDependency] (src/deps.ts is
    not among the sources). Parses the inline range out of [spec] and
    stores or overwrites the [(name, type)] entry; never fails. *)
Definition addDependency (spec : string) (ty : DependencyType) (l : Ledger) : Ledger :=
  let (n, v) := parseDependency spec in
  store {| name := n; version := v; type := ty |} l.

(** Modelled from the spec: the getter [Dependencies.all] (src/deps.ts is
    not among the sources): the current entries in insertion order. *)
Definition all (l : Ledger) : list Dependency := l.

End Deps.

(* ------------------------------------------------------------------ *)
(** ** Tasks *)

Inductive Step : Type :=
| Exec (command : string)
| Spawn (task : string).

Record Task : Type := {
  taskName : string;          (* [task.name] *)
  steps : list Step
}.

(* ------------------------------------------------------------------ *)
(** ** NpmPackage *)

(** [NpmTaskExecution] and [NodePackageManager] are string enums; a value
    outside the enum reaches the [default] branch of the switches. *)
Definition PROJEN : string := "projen".
Definition SHELL : string := "shell".
Definition YARN : string := "yarn".
Definition NPM : string := "npm".

Record PeerDependencyOptions : Type := {
  pinnedDevDependency : option bool
}.

(** The read-only fields of the component. *)
Record NpmPackage : Type := {
  npmTaskExecution : string;
  projenCommand : string;
  allowLibraryDependencies : bool;
  packageManager : string;
  peerDependencyOptions : PeerDependencyOptions
}.

Record NpmDependencies : Type := {
  dependencies : JsObject.t;
  devDependencies : JsObject.t;
  peerDependencies : JsObject.t
}.

(** The fields of [<outdir>/package.json] this component computes; [None]
    for a field the file does not have. *)
Record PackageJson : Type := {
  pkg_scripts : option JsObject.t;
  pkg_dependencies : option JsObject.t;
  pkg_devDependencies : option JsObject.t;
  pkg_peerDependencies : option JsObject.t
}.

(** What [renderDependencies] leaves behind: the ledger after the
    synthetic dependencies were added, the three maps it returns (the
    same objects it stored in [this.manifest], so the manifest sees the
    reconciled versions too), the bundled list it stored in
    [this.manifest.bundledDependencies], and what it logged. *)
Record Rendered : Type := {
  ledger : Deps.Ledger;
  rendered : NpmDependencies;
  bundledDependencies : list string;
  renderLog : list LogEntry
}.

Import Deps.

Definition addDeps (deps : list string) (l : Ledger) : Ledger :=
  fold_left (fun l dep => addDependency dep RUNTIME l) deps l.

Definition addDevDeps (deps : list string) (l : Ledger) : Ledger :=
  fold_left (fun l dep => addDependency dep BUILD l) deps l.

Definition decimal (n : nat) : string :=
  DecimalString.NilEmpty.string_of_uint (Nat.to_uint n).

(** [Object.keys(deps)] of an array: its indices. *)
Definition arrayKeys (deps : list string) : list string :=
  map decimal (seq 0 (List.length deps)).

Definition addPeerDeps (this : NpmPackage) (deps : list string) (l : Ledger)
  : Result Ledger :=
  if negb (Nat.eqb (List.length (arrayKeys deps)) 0) && negb (allowLibraryDependencies this)
  then Throw (LibraryDependencyError
                ("cannot add peer dependencies to an APP project: "
                 ++ join "," (arrayKeys deps)))
  else Ok (fold_left (fun l dep => addDependency dep PEER l) deps l).

Definition addBundledDeps (this : NpmPackage) (deps : list string) (l : Ledger)
  : Result Ledger :=
  if negb (Nat.eqb (List.length deps) 0) && negb (allowLibraryDependencies this)
  then Throw (LibraryDependencyError
                ("cannot add bundled dependencies to an APP project: "
                 ++ join "," deps))
  else Ok (fold_left (fun l dep => addDependency dep BUNDLED l) deps l).

(** [this.keywords.add(k)] on a [Set]. *)
Definition setAdd (s : list string) (k : string) : list string :=
  if existsb (String.eqb k) s then s else (s ++ [k])%list.

Definition addKeywords (keywords : list string) (s : list string) : list string :=
  fold_left setAdd keywords s.

(** [Array.from(this.keywords).sort()]: the default order compares the
    strings code unit by code unit. *)
Definition renderKeywords (s : list string) : list string :=
  JsArray.sort String.compare s.

Definition renderInstallCommand (this : NpmPackage) (frozen : bool) : Result string :=
  if String.eqb (packageManager this) YARN then
    Ok (join " " (["yarn install"; "--check-files"]
                  ++ (if frozen then ["--frozen-lockfile"] else []))%list)
  else if String.eqb (packageManager this) NPM then
    Ok (if frozen then "npm ci" else "npm install")
  else Throw (ConfigurationError
                ("unexpected package manager " ++ packageManager this)).

Definition quote : string := String (Ascii.ascii_of_nat 34) EmptyString.

Definition emptyDependencies : NpmDependencies :=
  {| dependencies := JsObject.empty;
     devDependencies := JsObject.empty;
     peerDependencies := JsObject.empty |}.

Section RenderDependencies.

(** [semver.minVersion(range)?.version] of the semver package: the lowest
    version satisfying [range], [Ok None] when the library finds none
    (it returns [null]), [Throw] when it rejects [range] as malformed
    (it raises a [TypeError]). *)
Variable minVersion : string -> Result (option string).

(** [this.peerDependencyOptions.pinnedDevDependency ?? true] *)
Definition pinned (this : NpmPackage) : bool :=
  match pinnedDevDependency (peerDependencyOptions this) with
  | Some b => b
  | None => true
  end.

Definition isPeer (d : Dependency) : bool := DependencyType_eqb (type d) PEER.

(** The body of the first loop of [renderDependencies] up to the call of
    [addDevDeps]: the requirement [req] for the peer [dep]. *)
Definition pinRequirement (dep : Dependency) : Result string :=
  match version dep with
  | Some range =>
      if truthy range then
        let* found := minVersion range in
        match found with
        | Some ver =>
            if truthy ver then Ok (name dep ++ "@" ++ ver)
            else Throw (ResolutionError
                   ("unable to determine minimum semver for peer dependency "
                    ++ name dep ++ "@" ++ range))
        | None =>
            Throw (ResolutionError
                   ("unable to determine minimum semver for peer dependency "
                    ++ name dep ++ "@" ++ range))
        end
      else Ok (name dep)
  | None => Ok (name dep)
  end.

(** The first loop: one synthetic build dependency per peer. *)
Fixpoint pinPeers (peers : list Dependency) (l : Ledger) : Result Ledger :=
  match peers with
  | [] => Ok l
  | dep :: rest =>
      let* req := pinRequirement dep in
      pinPeers rest (addDevDeps [req] l)
  end.

(** [dep.version ?? '*'] *)
Definition versionOrWildcard (dep : Dependency) : string :=
  match version dep with
  | Some v => v
  | None => "*"
  end.

(** [this.project.deps.all.find(d => d.name === n && d.type === PEER)] *)
Definition findPeer (l : Ledger) (n : string) : option Dependency :=
  find (fun d => String.eqb (name d) n && DependencyType_eqb (type d) PEER) (all l).

(** The second loop: every entry goes to the bucket of its type. *)
Fixpoint fillBuckets (l : Ledger) (todo : list Dependency)
  (acc : NpmDependencies * list string) : Result (NpmDependencies * list string) :=
  match todo with
  | [] => Ok acc
  | dep :: rest =>
      let version := versionOrWildcard dep in
      let (maps, bundled) := acc in
      match type dep with
      | BUNDLED =>
          match findPeer l (name dep) with
          | Some _ =>
              Throw (ConflictError
                       ("unable to bundle " ++ quote ++ name dep ++ quote
                        ++ ". it cannot appear as a peer dependency"))
          | None =>
              fillBuckets l rest
                ({| dependencies := JsObject.set (dependencies maps) (name dep) version;
                    devDependencies := devDependencies maps;
                    peerDependencies := peerDependencies maps |},
                 (bundled ++ [name dep])%list)
          end
      | PEER =>
          fillBuckets l rest
            ({| dependencies := dependencies maps;
                devDependencies := devDependencies maps;
                peerDependencies := JsObject.set (peerDependencies maps) (name dep) version |},
             bundled)
      | RUNTIME =>
          fillBuckets l rest
            ({| dependencies := JsObject.set (dependencies maps) (name dep) version;
                devDependencies := devDependencies maps;
                peerDependencies := peerDependencies maps |},
             bundled)
      | TEST | DEVENV | BUILD =>
          fillBuckets l rest
            ({| dependencies := dependencies maps;
                devDependencies := JsObject.set (devDependencies maps) (name dep) version;
                peerDependencies := peerDependencies maps |},
             bundled)
      end
  end.

(** The version [readDeps] leaves under a name: the user's, unless that
    is the wildcard and the manifest on disk records a real one. *)
Definition keepCurrent (userVersion : string) (currentVersion : option string) : option string :=
  match currentVersion with
  | Some c =>
      if negb (String.eqb userVersion "*") || negb (truthy c) || String.eqb c "*"
      then None
      else Some c
  | None => None
  end.

(** The local function [readDeps(user, current = {})]: [user] is updated
    in place while a copy of its entries is walked. [current[name]] is
    read among the own properties of [current], which is what the code
    reads unless [name] is inherited and not recorded; for a wildcard
    entry of such a name the code stores the inherited function, a value
    these maps of strings do not hold, and the statements about the
    stored versions leave such names out. *)
Definition readDeps (user : JsObject.t) (current : option JsObject.t)
  : JsObject.t * list LogEntry :=
  let current := match current with Some c => c | None => JsObject.empty end in
  let user' :=
    fold_left
      (fun user e =>
         match keepCurrent (snd e) (JsObject.get current (fst e)) with
         | Some currentVersion => JsObject.set user (fst e) currentVersion
         | None => user
         end)
      (JsObject.entries user) user in
  (user',
   flat_map (fun n => if JsObject.falsyAt user' n
                      then [Verbose (n ++ ": removed")] else [])
            (JsObject.keys current)).

(** [root] is the content of [<outdir>/package.json], [None] when the
    file does not exist. *)
Definition renderDependencies (this : NpmPackage) (root : option PackageJson)
  (l : Ledger) : Result Rendered :=
  let* l1 := (if pinned this then pinPeers (filter isPeer (all l)) l else Ok l) in
  let* acc := fillBuckets l1 (all l1) (emptyDependencies, []) in
  let (maps, bundled) := acc in
  match root with
  | None =>
      Ok {| ledger := l1; rendered := maps;
            bundledDependencies := bundled; renderLog := [] |}
  | Some pkg =>
      let (dev, log1) := readDeps (devDependencies maps) (pkg_devDependencies pkg) in
      let (deps, log2) := readDeps (dependencies maps) (pkg_dependencies pkg) in
      let (peer, log3) := readDeps (peerDependencies maps) (pkg_peerDependencies pkg) in
      Ok {| ledger := l1;
            rendered := {| dependencies := deps;
                           devDependencies := dev;
                           peerDependencies := peer |};
            bundledDependencies := bundled;
            renderLog := (log1 ++ log2 ++ log3)%list |}
  end.

End RenderDependencies.

Section ResolveDeps.

(** [readJsonSync(require.resolve(name + '/package.json', { paths: [outdir] })).version]:
    [None] when the module cannot be resolved or read (the [try] block
    throws), [Some None] when its manifest has no version,
    [Some (Some v)] otherwise. *)
Variable installedVersion : string -> option (option string).

(** [l.localeCompare(r)] *)
Variable localeCompare : string -> string -> comparison.

(** The object branch of [sorted(toSort)()]. *)
Definition sorted (toSort : JsObject.t) : JsObject.t :=
  JsObject.ofList
    (JsArray.sort (fun l r => localeCompare (fst l) (fst r))
                  (JsObject.entries toSort)).

(** How a template literal prints [module.version]. *)
Definition versionText (v : option string) : string :=
  match v with
  | Some s => s
  | None => "undefined"
  end.

(** One round of the first loop of [resolveDeps]. *)
Definition resolveEntry (acc : JsObject.t * list LogEntry) (e : string * string)
  : JsObject.t * list LogEntry :=
  let (result, log) := acc in
  let (n, currentDefinition) := e in
  let desiredVersion :=
    if String.eqb currentDefinition "*" then
      match installedVersion n with
      | Some v => "^" ++ versionText v
      | None => currentDefinition
      end
    else currentDefinition in
  if String.eqb currentDefinition "*" && negb (truthy desiredVersion) then
    (result,
     (log ++ [Warn ("unable to resolve version for " ++ n
                    ++ " from installed modules")])%list)
  else
    (JsObject.set result n desiredVersion,
     (log ++ (if String.eqb currentDefinition desiredVersion then []
              else [Verbose (n ++ ": " ++ currentDefinition ++ " => "
                             ++ desiredVersion)]))%list).

(** The local function [resolveDeps(current, user)]. *)
Definition resolveDeps (current user : JsObject.t) : JsObject.t * list LogEntry :=
  let (result, log) :=
    fold_left resolveEntry (JsObject.entries user) (JsObject.empty, []) in
  (sorted result,
   (log ++ flat_map (fun n => if JsObject.falsyAt result n
                              then [Verbose (n ++ " removed")] else [])
                    (JsObject.keys current))%list).

(** [Object.keys(current)] throws on a field the file does not have. *)
Definition resolveField (current : option JsObject.t) (user : JsObject.t)
  : Result (JsObject.t * list LogEntry) :=
  match current with
  | Some c => Ok (resolveDeps c user)
  | None => Throw (TypeError "Cannot convert undefined or null to object")
  end.

(** [resolveDepsAndWritePackageJson]: [root] is the content of
    [<outdir>/package.json]; the result is the content written back. *)
Definition resolveDepsAndWritePackageJson (root : option PackageJson)
  (_renderedDeps : option NpmDependencies) : Result (PackageJson * list LogEntry) :=
  match root with
  | None => Throw (IoError "ENOENT: no such file or directory")
  | Some pkg =>
      match _renderedDeps with
      | None => Throw (AssertionError "assertion failed")
      | Some rendered =>
          let* r1 := resolveField (pkg_dependencies pkg) (dependencies rendered) in
          let* r2 := resolveField (pkg_devDependencies pkg) (devDependencies rendered) in
          let* r3 := resolveField (pkg_peerDependencies pkg) (peerDependencies rendered) in
          Ok ({| pkg_scripts := pkg_scripts pkg;
                 pkg_dependencies := Some (fst r1);
                 pkg_devDependencies := Some (fst r2);
                 pkg_peerDependencies := Some (fst r3) |},
              (snd r1 ++ snd r2 ++ snd r3)%list)
      end
  end.

End ResolveDeps.

Section TaskCommands.

(** [task.toShellCommand()] of src/tasks.ts, which is not among the
    sources: the task's steps joined into one shell command line. *)
Variable toShellCommand : Task -> Result string.

Definition npmScriptForTask (this : NpmPackage) (task : Task) : Result string :=
  if String.eqb (npmTaskExecution this) PROJEN then
    Ok (projenCommand this ++ " " ++ taskName task)
  else if String.eqb (npmTaskExecution this) SHELL then
    toShellCommand task
  else Throw (ConfigurationError
                ("invalid npmTaskExecution mode: " ++ npmTaskExecution this)).

(** The second loop of [renderScripts]: one script per task. *)
Fixpoint taskScripts (this : NpmPackage) (tasks : list Task) (result : JsObject.t)
  : Result JsObject.t :=
  match tasks with
  | [] => Ok result
  | task :: rest =>
      let* script := npmScriptForTask this task in
      taskScripts this rest (JsObject.set result (taskName task) script)
  end.

(** [renderScripts], with [scripts] the legacy [this.scripts] table. *)
Definition renderScripts (this : NpmPackage) (scripts : list (string * list string))
  (tasks : list Task) : Result JsObject.t :=
  taskScripts this tasks
    (fold_left
       (fun result e =>
          let cmds := match snd e with
                      | [] => ["echo " ++ quote ++ "n/a" ++ quote]
                      | _ :: _ => snd e
                      end in
          JsObject.set result (fst e) (join " && " cmds))
       scripts JsObject.empty).

End TaskCommands.

(* ------------------------------------------------------------------ *)
(** ** NodeProject *)

Record NodeProject : Type := {
  npmPackage : NpmPackage;
  runScriptCommand : string
}.

(** The initialiser of [runScriptCommand] in the constructor. *)
Definition initRunScriptCommand (this : NpmPackage) : Result string :=
  if String.eqb (packageManager this) NPM then Ok "npm run"
  else if String.eqb (packageManager this) YARN then Ok "yarn run"
  else Throw (ConfigurationError
                ("unexpected package manager " ++ packageManager this)).

Definition runTaskCommand (this : NodeProject) (task : Task) : Result string :=
  if String.eqb (npmTaskExecution (npmPackage this)) PROJEN then
    Ok (projenCommand (npmPackage this) ++ " " ++ taskName task)
  else if String.eqb (npmTaskExecution (npmPackage this)) SHELL then
    Ok (runScriptCommand this ++ " " ++ taskName task)
  else Throw (ConfigurationError
                ("invalid npmTaskExecution mode: "
                 ++ npmTaskExecution (npmPackage this))).

(* ------------------------------------------------------------------ *)
(** ** The synthesis phases of the component *)

(** What the component and its surroundings hold between the phases. *)
Record State : Type := {
  deps : Ledger;                          (* [this.project.deps] *)
  _renderedDeps : option NpmDependencies; (* [this._renderedDeps] *)
  manifest : NpmDependencies * list string;
      (* the dependency fields of [this.manifest] *)
  packageJson : option PackageJson        (* [<outdir>/package.json] *)
}.

(** What one run hands to its observers. *)
Record Output : Type := {
  snapshot : option NpmDependencies;  (* [this._renderedDeps] *)
  scripts : JsObject.t;              (* the value of [renderScripts()] *)
  logged : list LogEntry
}.

Section Lifecycle.

Variable minVersion : string -> Result (option string).
Variable installedVersion : string -> option (option string).
Variable localeCompare : string -> string -> comparison.
Variable toShellCommand : Task -> Result string.

(** The component, the legacy script table, the tasks of the project and
    [isTruthy(process.env.CI)]. *)
Variable this : NpmPackage.
Variable legacyScripts : list (string * list string).
Variable tasks : list Task.
Variable frozen : bool.

Definition preSynthesize (st : State) : Result (State * list LogEntry) :=
  let* r := renderDependencies minVersion this (packageJson st) (deps st) in
  Ok ({| deps := ledger r;
         _renderedDeps := Some (rendered r);
         manifest := (rendered r, bundledDependencies r);
         packageJson := packageJson st |},
      renderLog r).

(** Modelled from the spec: the [synthesize] hook of the [JsonFile] that
    the constructor registers for [package.json] (src/json.ts is not
    among the sources): in the middle phase the manifest-writing component
    emits [this.manifest], whose deferred [scripts] field is rendered at
    write time. *)
Definition synthesize (st : State) : Result (State * JsObject.t) :=
  let* s := renderScripts toShellCommand this legacyScripts tasks in
  Ok ({| deps := deps st;
         _renderedDeps := _renderedDeps st;
         manifest := manifest st;
         packageJson :=
           Some {| pkg_scripts := Some s;
                   pkg_dependencies := Some (dependencies (fst (manifest st)));
                   pkg_devDependencies := Some (devDependencies (fst (manifest st)));
                   pkg_peerDependencies := Some (peerDependencies (fst (manifest st))) |} |},
      s).

(** [exec(...)] runs the package manager, an external process; what it
    installs is what [installedVersion] finds afterwards. The removal of
    the [node_modules/projen] symlink before it touches nothing that is
    modelled here. *)
Definition postSynthesize (st : State) : Result (State * list LogEntry) :=
  let* _ := renderInstallCommand this frozen in
  let* r := resolveDepsAndWritePackageJson installedVersion localeCompare
              (packageJson st) (_renderedDeps st) in
  Ok ({| deps := deps st;
         _renderedDeps := _renderedDeps st;
         manifest := manifest st;
         packageJson := Some (fst r) |},
      snd r).

(** Modelled from the spec: [Project.synth()] (src/project.ts is not among
    the sources) drives the phases in the order PreSynthesizing,
    Synthesizing, PostSynthesizing; a failure in any phase aborts the
    run. *)
Definition synth (st : State) : Result (State * Output) :=
  let* r1 := preSynthesize st in
  let* r2 := synthesize (fst r1) in
  let* r3 := postSynthesize (fst r2) in
  Ok (fst r3,
      {| snapshot := _renderedDeps (fst r3);
         scripts := snd r2;
         logged := (snd r1 ++ snd r3)%list |}).

End Lifecycle.

(** A component as the constructor leaves it, in a directory holding
    [root]. *)
Definition initialState (l : Ledger) (root : option PackageJson) : State :=
  {| deps := l;
     _renderedDeps := None;
     manifest := (emptyDependencies, []);
     packageJson := root |}.

(* ------------------------------------------------------------------ *)
(** ** Vocabulary of the statements *)

(** The keyword set after a sequence of [addKeywords] calls on a new
    component. *)
Definition keywordsAfter (calls : list (list string)) : list string :=
  fold_left (fun s ks => addKeywords ks s) calls [].

Definition memb (k : string) (l : list string) : bool := existsb (String.eqb k) l.

(** [a] and [b] hold the same strings, whatever the order and the
    multiplicities. *)
Definition sameStrings (a b : list string) : bool :=
  forallb (fun k => memb k b) a && forallb (fun k => memb k a) b.

(** Strictly ascending code-unit order. *)
Definition strLt (a b : string) : Prop := String.compare a b = Lt.

(** The version [resolveDeps] stores for a dependency whose rendered
    requirement is [currentDefinition]. *)
Definition resolvedVersion (installedVersion : string -> option (option string))
  (n currentDefinition : string) : string :=
  if String.eqb currentDefinition "*" then
    match installedVersion n with
    | Some v => "^" ++ versionText v
    | None => "*"
    end
  else currentDefinition.

(** The object [resolveDeps] hands to [sorted]. *)
Definition resolved (installedVersion : string -> option (option string))
  (user : JsObject.t) : JsObject.t :=
  fst (fold_left (resolveEntry installedVersion) (JsObject.entries user)
                 (JsObject.empty, [])).

(** The number an array-index key stands for. *)
Definition keyIndex (k : string) : N :=
  match JsObject.arrayIndex k with
  | Some n => n
  | None => 0%N
  end.

(** Keys in ascending order of a comparator: none compares greater than
    a later one. *)
Definition ascendingKeys (cmp : string -> string -> comparison)
  (ks : list string) : Prop :=
  StronglySorted (JsArray.le cmp) ks.

(** Array-index keys in ascending numeric order. *)
Definition ascendingIndices (ks : list string) : Prop :=
  Sorted (fun a b => (keyIndex a <= keyIndex b)%N) ks.

(** The array-index keys and the other keys of an object, each in
    enumeration order. *)
Definition indexKeys (o : JsObject.t) : list string :=
  filter JsObject.isArrayIndex (JsObject.keys o).

Definition nameKeys (o : JsObject.t) : list string :=
  filter (fun k => negb (JsObject.isArrayIndex k)) (JsObject.keys o).

(** The ledger holds an entry for [n] under the role [ty]. *)
Definition hasEntry (n : string) (ty : DependencyType) (l : Ledger) : bool :=
  existsb (fun d => String.eqb (name d) n && DependencyType_eqb (type d) ty) l.

(** The call raised an error. *)
Definition throws {A : Type} (r : Result A) : Prop := exists e, r = Throw e.

Fixpoint hasAt (s : string) : bool :=
  match s with
  | EmptyString => false
  | String c rest => Ascii.eqb c "@" || hasAt rest
  end.

(** A package name: not empty, and no ['@'] after its first character
    (a leading ['@'] marks a scope). *)
Definition packageName (n : string) : bool :=
  match n with
  | EmptyString => false
  | String _ rest => negb (hasAt rest)
  end.

(** A version as semver prints one: not empty, not the wildcard, and
    without ['@']. *)
Definition plainVersion (v : string) : bool :=
  truthy v && negb (hasAt v) && negb (String.eqb v "*").

(** No two entries of the ledger share a key [(name, type)]. *)
Fixpoint distinctKeys (l : Ledger) : bool :=
  match l with
  | [] => true
  | d :: rest => negb (hasEntry (name d) (type d) rest) && distinctKeys rest
  end.

(** The invariant of a ledger of packages: one entry per key, every
    name a package name. *)
Definition ledgerOfPackages (l : Ledger) : bool :=
  distinctKeys l && forallb (fun d => packageName (name d)) l.

(** The range a peer declares, if it declares one ([dep.version] is
    truthy). *)
Definition declaredRange (d : Dependency) : option string :=
  match version d with
  | Some range => if truthy range then Some range else None
  | None => None
  end.

(** The minimum version of a range, if semver accepts the range and
    finds one. *)
Definition minimum (minVersion : string -> Result (option string))
  (range : string) : option string :=
  match minVersion range with
  | Ok found => found
  | Throw _ => None
  end.

(** The synthetic build dependency for the peer [d]. *)
Definition pinEntry (minVersion : string -> Result (option string))
  (d : Dependency) : Dependency :=
  {| name := name d;
     version := match declaredRange d with
                | Some range => minimum minVersion range
                | None => None
                end;
     type := BUILD |}.

(** The peer declares no range, or one with a minimum version. *)
Definition resolvable (minVersion : string -> Result (option string))
  (d : Dependency) : bool :=
  match declaredRange d with
  | Some range =>
      match minimum minVersion range with
      | Some ver => truthy ver
      | None => false
      end
  | None => true
  end.

(** semver rejects the range the peer [d] declares, raising [e]. *)
Definition rejected (minVersion : string -> Result (option string))
  (d : Dependency) (e : Error) : Prop :=
  exists range, declaredRange d = Some range /\ minVersion range = Throw e.

(** The ledger after the entries [es] were stored in turn. *)
Definition storeAll (es : list Dependency) (l : Ledger) : Ledger :=
  fold_left (fun l e => store e l) es l.

(** The three maps of a snapshot. *)
Inductive Bucket : Type := Runtime | Dev | Peer.

Definition bucket (b : Bucket) (maps : NpmDependencies) : JsObject.t :=
  match b with
  | Runtime => dependencies maps
  | Dev => devDependencies maps
  | Peer => peerDependencies maps
  end.

Definition priorBucket (b : Bucket) (pkg : PackageJson) : option JsObject.t :=
  match b with
  | Runtime => pkg_dependencies pkg
  | Dev => pkg_devDependencies pkg
  | Peer => pkg_peerDependencies pkg
  end.

(** The map an entry of a given type is written to. *)
Definition bucketOf (ty : DependencyType) : Bucket :=
  match ty with
  | RUNTIME | BUNDLED => Runtime
  | PEER => Peer
  | BUILD | TEST | DEVENV => Dev
  end.

Definition Bucket_eqb (a b : Bucket) : bool :=
  match a, b with
  | Runtime, Runtime | Dev, Dev | Peer, Peer => true
  | _, _ => false
  end.

Definition isBundled (d : Dependency) : bool := DependencyType_eqb (type d) BUNDLED.

(** The assignments the second loop of [renderDependencies] makes to the
    map [b], in order. *)
Definition writes (b : Bucket) (todo : list Dependency) : list (string * string) :=
  map (fun d => (name d, versionOrWildcard d))
      (filter (fun d => Bucket_eqb (bucketOf (type d)) b) todo).

(** [o[k] = v] for the pair [e = (k, v)]. *)
Definition assign (o : JsObject.t) (e : string * string) : JsObject.t :=
  JsObject.set o (fst e) (snd e).

(** The first phase of [renderDependencies]. *)
Definition pinPhase (minVersion : string -> Result (option string)) (this : NpmPackage)
  (l : Ledger) : Result Ledger :=
  if pinned this then pinPeers minVersion (filter isPeer (all l)) l else Ok l.

(** The map [b] after the last phase of [renderDependencies]: [fresh] is
    the map as the second loop filled it. *)
Definition reconcile (root : option PackageJson) (b : Bucket) (fresh : JsObject.t)
  : JsObject.t :=
  match root with
  | None => fresh
  | Some pkg => fst (readDeps fresh (priorBucket b pkg))
  end.

(** The version reconciliation leaves for a dependency rendered as
    [userVersion] when the manifest on disk records [currentVersion]. *)
Definition reconciledVersion (userVersion : string) (currentVersion : option string)
  : string :=
  match keepCurrent userVersion currentVersion with
  | Some c => c
  | None => userVersion
  end.

(** What the manifest on disk records for [n] in the map [b]. *)
Definition recorded (root : option PackageJson) (b : Bucket) (n : string)
  : option string :=
  match root with
  | Some pkg =>
      match priorBucket b pkg with
      | Some c => JsObject.get c n
      | None => None
      end
  | None => None
  end.

(** [current[k]] for the optional parameter [current = {}]. *)
Definition currentAt (current : option JsObject.t) (k : string) : option string :=
  match current with
  | Some c => JsObject.get c k
  | None => None
  end.

(** One round of the first loop of [readDeps]. *)
Definition keepStep (current : option JsObject.t) (user : JsObject.t)
  (e : string * string) : JsObject.t :=
  match keepCurrent (snd e) (currentAt current (fst e)) with
  | Some currentVersion => JsObject.set user (fst e) currentVersion
  | None => user
  end.

(** The maps the post-install step writes for the snapshot [maps]. *)
Definition resolvedField (installedVersion : string -> option (option string))
  (localeCompare : string -> string -> comparison) (b : Bucket)
  (maps : NpmDependencies) : JsObject.t :=
  fst (resolveDeps installedVersion localeCompare (bucket b maps) (bucket b maps)).

(** The manifest on disk after a run that rendered the snapshot [maps]
    and the scripts [s]. *)
Definition writtenManifest (installedVersion : string -> option (option string))
  (localeCompare : string -> string -> comparison)
  (maps : NpmDependencies) (s : JsObject.t) : PackageJson :=
  {| pkg_scripts := Some s;
     pkg_dependencies := Some (resolvedField installedVersion localeCompare Runtime maps);
     pkg_devDependencies := Some (resolvedField installedVersion localeCompare Dev maps);
     pkg_peerDependencies := Some (resolvedField installedVersion localeCompare Peer maps) |}.

(** What that run logged after the rendering. *)
Definition resolutionLog (installedVersion : string -> option (option string))
  (localeCompare : string -> string -> comparison)
  (maps : NpmDependencies) : list LogEntry :=
  (snd (resolveDeps installedVersion localeCompare
                    (dependencies maps) (dependencies maps))
   ++ snd (resolveDeps installedVersion localeCompare
                       (devDependencies maps) (devDependencies maps))
   ++ snd (resolveDeps installedVersion localeCompare
                       (peerDependencies maps) (peerDependencies maps)))%list.

(* ------------------------------------------------------------------ *)
(** ** Sample collaborators for the worked examples *)

(** A fragment of [semver.minVersion]: the caret ranges used in the
    examples with their minimum versions; [latest], which is no range
    and which semver rejects; the range [>2.0.0 <1.0.0], which no version
    satisfies, has no minimum, and here neither has any other string. *)
Definition sampleMinVersion (range : string) : Result (option string) :=
  if String.eqb range "^2.0.0" then Ok (Some "2.0.0")
  else if String.eqb range "^16" then Ok (Some "16.0.0")
  else if String.eqb range "^1" then Ok (Some "1.0.0")
  else if String.eqb range "latest"
  then Throw (TypeError "Invalid comparator: latest")
  else Ok None.

(** A [node_modules] directory holding [left-pad] 1.3.0 only. *)
Definition sampleInstalled (n : string) : option (option string) :=
  if String.eqb n "left-pad" then Some (Some "1.3.0") else None.

(** A comparator ordering strings code unit by code unit; on strings of
    decimal digits it agrees with [localeCompare]. *)
Definition codeUnitCompare (l r : string) : comparison := String.compare l r.

(** Every [Exec] step of the task joined with ["; "]; a [Spawn] step
    contributes nothing. *)
Definition sampleShellCommand (task : Task) : Result string :=
  Ok (join "; " (flat_map (fun s => match s with
                                    | Exec c => [c]
                                    | Spawn _ => []
                                    end) (steps task))).

(** An application package ([allowLibraryDependencies: false]) whose
    scripts run the tasks directly. *)
Definition appPackage : NpmPackage :=
  {| npmTaskExecution := SHELL;
     projenCommand := "npx projen";
     allowLibraryDependencies := false;
     packageManager := YARN;
     peerDependencyOptions := {| pinnedDevDependency := None |} |}.

Definition appProject : NodeProject :=
  {| npmPackage := appPackage; runScriptCommand := "yarn run" |}.

Definition compileTask : Task :=
  {| taskName := "compile"; steps := [Exec "tsc"] |}.

(** A manifest on disk recording [foo] as resolved by an earlier run. *)
Definition fooManifest : PackageJson :=
  {| pkg_scripts := None;
     pkg_dependencies := Some [("foo", "^1.2.0")];
     pkg_devDependencies := Some [];
     pkg_peerDependencies := Some [] |}.

(** A ledger in which [baz] is a peer, with a range that no version
    satisfies, and is bundled as well. *)
Definition conflictLedger : Ledger :=
  [ {| name := "baz"; version := Some ">2.0.0 <1.0.0"; type := PEER |};
    {| name := "baz"; version := None; type := BUNDLED |} ].

(** The ledger after [addPeerDeps("bar@^2.0.0")]. *)
Definition barLedger : Ledger :=
  [ {| name := "bar"; version := Some "^2.0.0"; type := PEER |} ].

(** The ledger of the end-to-end scenario: [addDeps("left-pad")],
    [addDevDeps("test-lib@^3")], [addPeerDeps("react@^16")]. *)
Definition scenarioLedger : Ledger :=
  [ {| name := "left-pad"; version := None; type := RUNTIME |};
    {| name := "test-lib"; version := Some "^3"; type := BUILD |};
    {| name := "react"; version := Some "^16"; type := PEER |} ].

Definition libraryPackage : NpmPackage :=
  {| npmTaskExecution := PROJEN;
     projenCommand := "npx projen";
     allowLibraryDependencies := true;
     packageManager := YARN;
     peerDependencyOptions := {| pinnedDevDependency := None |} |}.

(** What the scenario renders in a directory without [package.json]. *)
Definition scenarioRendered : Rendered :=
  {| ledger :=
       [ {| name := "left-pad"; version := None; type := RUNTIME |};
         {| name := "test-lib"; version := Some "^3"; type := BUILD |};
         {| name := "react"; version := Some "^16"; type := PEER |};
         {| name := "react"; version := Some "16.0.0"; type := BUILD |} ];
     rendered :=
       {| dependencies := [("left-pad", "*")];
          devDependencies := [("test-lib", "^3"); ("react", "16.0.0")];
          peerDependencies := [("react", "^16")] |};
     bundledDependencies := [];
     renderLog := [] |}.

(** A run of the scenario with the sample collaborators. *)
Definition scenarioSynth (st : State) : Result (State * Output) :=
  synth sampleMinVersion sampleInstalled codeUnitCompare sampleShellCommand
        libraryPackage [] [compileTask] false st.

(** The scenario in a directory without [package.json]. *)
Definition scenarioStart : State := initialState scenarioLedger None.

Definition stateOf (r : Result (State * Output)) : State :=
  match r with
  | Ok (st, _) => st
  | Throw _ => initialState [] None
  end.

Definition outputOf (r : Result (State * Output)) : Output :=
  match r with
  | Ok (_, o) => o
  | Throw _ => {| snapshot := None; scripts := []; logged := [] |}
  end.

(** The state and the output of the first and of the second run. *)
Definition scenarioState1 : State :=
  Eval vm_compute in stateOf (scenarioSynth scenarioStart).
Definition scenarioOutput1 : Output :=
  Eval vm_compute in outputOf (scenarioSynth scenarioStart).
Definition scenarioState2 : State :=
  Eval vm_compute in stateOf (scenarioSynth scenarioState1).
Definition scenarioOutput2 : Output :=
  Eval vm_compute in outputOf (scenarioSynth scenarioState1).

(* ------------------------------------------------------------------ *)
(** ** Objects with values of any type *)

Module JsDict.
Section Dict.
Variable V : Type.

(** The properties in creation order; keys are unique. *)
Definition t : Type := list (string * V).

(** The own property [k] of [o], [None] when [o] has none. *)
Fixpoint get (o : t) (k : string) : option V :=
  match o with
  | [] => None
  | (k', v) :: rest => if String.eqb k' k then Some v else get rest k
  end.

(** [o[k] = v] *)
Fixpoint set (o : t) (k : string) (v : V) : t :=
  match o with
  | [] => [(k, v)]
  | (k', v') :: rest =>
      if String.eqb k' k then (k', v) :: rest else (k', v') :: set rest k v
  end.

(** [delete o[k]]: always succeeds. *)
Fixpoint delete (o : t) (k : string) : t :=
  match o with
  | [] => []
  | (k', v) :: rest =>
      if String.eqb k' k then rest else (k', v) :: delete rest k
  end.

(** [k in o]: an own property, or one inherited from
    Object.prototype. *)
Definition has (o : t) (k : string) : bool :=
  match get o k with
  | Some _ => true
  | None => JsObject.inherited k
  end.

Definition indexOf (e : string * V) : N :=
  match JsObject.arrayIndex (fst e) with
  | Some n => n
  | None => 0%N
  end.

(** [Object.entries(o)], in the order of [JsObject.entries]. *)
Definition entries (o : t) : list (string * V) :=
  (JsArray.sort (fun a b => N.compare (indexOf a) (indexOf b))
                (filter (fun e => JsObject.isArrayIndex (fst e)) o)
   ++ filter (fun e => negb (JsObject.isArrayIndex (fst e))) o)%list.

End Dict.
Arguments get {V} o k.
Arguments set {V} o k v.
Arguments delete {V} o k.
Arguments has {V} o k.
Arguments indexOf {V} e.
Arguments entries {V} o.
End JsDict.

(* ------------------------------------------------------------------ *)
(** ** Scripts, engines, binaries and the author of the package *)

(** [this.scripts: Record<string, string[]>]; under the name
    [__proto__] the assignment of [setScript] replaces the prototype of
    the table instead of adding a property, which the statements leave
    out. *)
Definition setScript (n command : string) (scripts : JsDict.t (list string))
  : JsDict.t (list string) :=
  JsDict.set scripts n [command].

Definition removeScript (n : string) (scripts : JsDict.t (list string))
  : JsDict.t (list string) :=
  JsDict.delete scripts n.

Definition hasScript (n : string) (scripts : JsDict.t (list string)) : bool :=
  JsDict.has scripts n.




(** Truthiness of an optional string: [undefined] and the empty string
    are falsy. *)
Definition optTruthy (o : option string) : bool :=
  match o with
  | Some s => truthy s
  | None => false
  end.

(** How a template literal prints an optional string. *)
Definition optText (o : option string) : string :=
  match o with
  | Some s => s
  | None => "undefined"
  end.




Section Binaries.

(** [join(a, b)] of the [path] module. *)
Variable pathJoin : string -> string -> string.

(** [existsSync('bin')], [readdirSync('bin')] ([bin] is taken to be a
    directory when it exists, so that the listing succeeds), and for
    which paths [accessSync(..., X_OK)] returns instead of throwing. *)
Variable bindirExists : bool.
Variable files : list string.
Variable executable : string -> bool.



End Binaries.

(** The author options of [NpmPackageOptions]. *)
Record AuthorOptions : Type := {
  authorName : option string;
  authorEmail : option string;
  authorUrl : option string;
  authorOrganization : option bool
}.

(** The [author] object of the manifest. *)
Record Author : Type := {
  author_name : string;
  author_email : option string;
  author_url : option string;
  author_organization : bool
}.

Definition renderAuthor (options : AuthorOptions) : Result (option Author) :=
  if optTruthy (authorName options) then
    Ok (Some {| author_name := optText (authorName options);
                author_email := authorEmail options;
                author_url := authorUrl options;
                author_organization :=
                  match authorOrganization options with
                  | Some b => b
                  | None => false
                  end |})
  else if optTruthy (authorEmail options) || optTruthy (authorUrl options)
          || match authorOrganization options with
             | Some _ => true
             | None => false
             end
  then Throw (ConfigurationError
                (quote ++ "authorName" ++ quote
                 ++ " is required if specifying " ++ quote ++ "authorEmail" ++ quote
                 ++ " or " ++ quote ++ "authorUrl" ++ quote))
  else Ok None.

(* ------------------------------------------------------------------ *)
(** ** The dependency options of the constructor *)

(** The dependency options of [NpmPackageOptions]; of a value given under
    one of the four options that are no longer supported only its own
    keys matter. *)
Record DependencyOptions : Type := {
  opt_deps : option (list string);
  opt_devDeps : option (list string);
  opt_peerDeps : option (list string);
  opt_bundledDeps : option (list string);
  opt_dependencies : option (list string);      (* Object.keys(options.dependencies) *)
  opt_peerDependencies : option (list string);
  opt_devDependencies : option (list string);
  opt_bundledDependencies : option (list string)
}.

(** [xs ?? []] *)
Definition orEmpty (xs : option (list string)) : list string :=
  match xs with
  | Some l => l
  | None => []
  end.

(** The local function [deprecate(key, alt)] of [processDeps]. *)
Definition deprecate (given : option (list string)) (key alt : string)
  : Result unit :=
  if negb (Nat.eqb (List.length (orEmpty given)) 0)
  then Throw (ConfigurationError
                ("The option " ++ quote ++ key ++ quote
                 ++ " is no longer supported, use " ++ quote ++ alt ++ quote
                 ++ " instead (see API docs)"))
  else Ok tt.

Definition processDeps (this : NpmPackage) (options : DependencyOptions)
  (l : Ledger) : Result Ledger :=
  let* _ := deprecate (opt_dependencies options) "dependencies" "deps" in
  let* _ := deprecate (opt_peerDependencies options) "peerDependencies" "peerDeps" in
  let* _ := deprecate (opt_devDependencies options) "devDependencies" "devDeps" in
  let* _ := deprecate (opt_bundledDependencies options)
                      "bundledDependencies" "bundledDeps" in
  let l1 := addDeps (orEmpty (opt_deps options)) l in
  let l2 := addDevDeps (orEmpty (opt_devDeps options)) l1 in
  let* l3 := addPeerDeps this (orEmpty (opt_peerDeps options)) l2 in
  addBundledDeps this (orEmpty (opt_bundledDeps options)) l3.

(* ------------------------------------------------------------------ *)
(** ** The build workflows of NodeProject *)

(** A step of a workflow job; a value of a [with] object is carried as
    its text, [None] for [undefined]. *)
Record WorkflowStep : Type := {
  step_name : string;
  step_id : option string;
  step_uses : option string;
  step_run : option string;
  step_with : option (list (string * option string));
  step_env : option (list (string * string))
}.

(** The [job] object that [createBuildWorkflow] hands to
    [workflow.addJobs]. *)
Record Job : Type := {
  runs_on : string;
  job_env : list (string * string);
  job_if : option string;
  job_steps : list WorkflowStep;
  job_container : option string       (* [container.image] *)
}.

(** What [createBuildWorkflow] reads of the project: [github] tells
    whether [this.github] is defined, [jest] is [None] when
    [this.jest?.config] is falsy and holds [config.coverageDirectory]
    otherwise. *)
Record Workflows : Type := {
  project : NodeProject;
  github : bool;
  antitamper : bool;
  nodeVersion : option string;
  jest : option (option string);
  buildTask : Task
}.

(** [NodeBuildWorkflowOptions]; the [trigger] goes to [workflow.on] and
    takes no part in the job. *)
Record NodeBuildWorkflowOptions : Type := {
  preBuildSteps : option (list WorkflowStep);
  preCheckoutSteps : option (list WorkflowStep);
  postSteps : option (list WorkflowStep);
  checkoutWith : option (list (string * option string));
  condition : option string;
  antitamperDisabled : option bool;
  commit : option string;
  pushBranch : option string;
  image : option string;
  uploadArtifact : option bool;
  codeCov : option bool;
  codeCovTokenSecret : option string
}.

Definition newline : string := String (Ascii.ascii_of_nat 10) EmptyString.

(** Truthiness of an optional boolean. *)
Definition optTrue (o : option bool) : bool :=
  match o with
  | Some b => b
  | None => false
  end.

(** [steps ?? []] *)
Definition orNoSteps (o : option (list WorkflowStep)) : list WorkflowStep :=
  match o with
  | Some l => l
  | None => []
  end.

(** [this.npmPackage.installCommand] *)
Definition installCommand (this : NpmPackage) : Result string :=
  renderInstallCommand this true.

Definition installWorkflowSteps (this : Workflows) : Result (list WorkflowStep) :=
  let install :=
    if optTruthy (nodeVersion this)
    then [ {| step_name := "Setup Node.js";
              step_id := None;
              step_uses := Some "actions/setup-node@v1";
              step_run := None;
              step_with := Some [("node-version", nodeVersion this)];
              step_env := None |} ]
    else [] in
  let* command := installCommand (npmPackage (project this)) in
  Ok (install
      ++ [ {| step_name := "Install dependencies";
              step_id := None;
              step_uses := None;
              step_run := Some command;
              step_with := None;
              step_env := None |};
           {| step_name := "Synthesize project files";
              step_id := None;
              step_uses := None;
              step_run := Some (projenCommand (npmPackage (project this)));
              step_with := None;
              step_env := None |} ])%list.

Definition antitamperStep : WorkflowStep :=
  {| step_name := "Anti-tamper check";
     step_id := None;
     step_uses := None;
     step_run := Some "git diff --exit-code";
     step_with := None;
     step_env := None |}.

(** The literal steps of the job of [createBuildWorkflow]. *)
Definition checkoutStep (options : NodeBuildWorkflowOptions) : WorkflowStep :=
  {| step_name := "Checkout";
     step_id := None;
     step_uses := Some "actions/checkout@v2";
     step_run := None;
     step_with := checkoutWith options;
     step_env := None |}.

Definition gitIdentityStep : WorkflowStep :=
  {| step_name := "Set git identity";
     step_id := None;
     step_uses := None;
     step_run :=
       Some (join newline
               ["git config user.name " ++ quote ++ "Auto-bump" ++ quote;
                "git config user.email " ++ quote
                ++ "github-actions@github.com" ++ quote]);
     step_with := None;
     step_env := None |}.

Definition buildStep (command : string) : WorkflowStep :=
  {| step_name := "Build";
     step_id := None;
     step_uses := None;
     step_run := Some command;
     step_with := None;
     step_env := None |}.

Definition commitStep (message : string) : WorkflowStep :=
  {| step_name := "Commit changes";
     step_id := None;
     step_uses := None;
     step_run := Some ("git commit -am " ++ quote ++ message ++ quote);
     step_with := None;
     step_env := None |}.

Definition pushStep (branch : string) : WorkflowStep :=
  {| step_name := "Push changes";
     step_id := None;
     step_uses := None;
     step_run := Some "git push --follow-tags origin $BRANCH";
     step_with := None;
     step_env := Some [("BRANCH", branch)] |}.

Definition codecovStep (tokenSecret : option string)
  (coverageDirectory : option string) : WorkflowStep :=
  {| step_name := "Upload coverage to Codecov";
     step_id := None;
     step_uses := Some "codecov/codecov-action@v1";
     step_run := None;
     step_with :=
       Some (if optTruthy tokenSecret
             then [("token", Some ("${{ secrets." ++ optText tokenSecret ++ " }}"));
                   ("directory", coverageDirectory)]
             else [("directory", coverageDirectory)]);
     step_env := None |}.

Definition uploadArtifactStep : WorkflowStep :=
  {| step_name := "Upload artifact";
     step_id := None;
     step_uses := Some "actions/upload-artifact@v2.1.1";
     step_run := None;
     step_with := Some [("name", Some "dist"); ("path", Some "dist")];
     step_env := None |}.

Definition createBuildWorkflow (this : Workflows) (options : NodeBuildWorkflowOptions)
  : Result Job :=
  if negb (github this) then Throw (ConfigurationError "no github support") else
  let antitamperSteps :=
    if optTrue (antitamperDisabled options) || negb (antitamper this)
    then [] else [antitamperStep] in
  let commitChanges :=
    if negb (optTruthy (commit options)) then []
    else [commitStep (optText (commit options))] in
  let pushChanges :=
    if negb (optTruthy (pushBranch options)) then []
    else [pushStep (optText (pushBranch options))] in
  let* install := installWorkflowSteps this in
  let* build := runTaskCommand (project this) (buildTask this) in
  let codecov :=
    match jest this with
    | Some coverageDirectory =>
        if optTrue (codeCov options) || optTruthy (codeCovTokenSecret options)
        then [codecovStep (codeCovTokenSecret options) coverageDirectory]
        else []
    | None => []
    end in
  Ok {| runs_on := "ubuntu-latest";
        job_env := [("CI", "true")];
        job_if := if optTruthy (condition options) then condition options else None;
        job_steps :=
          (orNoSteps (preCheckoutSteps options)
           ++ [checkoutStep options]
           ++ install
           ++ antitamperSteps
           ++ [gitIdentityStep]
           ++ orNoSteps (preBuildSteps options)
           ++ [buildStep build]
           ++ codecov
           ++ antitamperSteps
           ++ commitChanges
           ++ pushChanges
           ++ orNoSteps (postSteps options)
           ++ (if optTrue (uploadArtifact options) then [uploadArtifactStep] else []))%list;
        job_container := if optTruthy (image options) then image options else None |}.

(** The local function [postComment(message)] of [addRebuildBot]. *)
Definition postComment (message : string) : WorkflowStep :=
  {| step_name := "Post comment to issue";
     step_id := None;
     step_uses := Some "peter-evans/create-or-update-comment@v1";
     step_run := None;
     step_with := Some [("issue-number", Some "${{ github.event.issue.number }}");
                        ("body", Some ("_projen_: " ++ message))];
     step_env := None |}.

(** The job of the workflow [rebuild-bot]. *)
Definition addRebuildBot (this : Workflows) (command : string) : Result Job :=
  createBuildWorkflow this
    {| preBuildSteps := None;
       preCheckoutSteps :=
         Some [ postComment "Rebuild started";
                {| step_name := "Get pull request branch";
                   step_id := Some "query_pull_request";
                   step_uses := None;
                   step_run :=
                     Some (join newline
                             ["rm -f /tmp/pr.json";
                              "curl --silent $PULL_REQUEST_URL > /tmp/pr.json";
                              "BRANCH_STR=$(cat /tmp/pr.json | jq " ++ quote
                              ++ ".head.ref" ++ quote ++ ")";
                              "REPO_NAME=$(cat /tmp/pr.json | jq " ++ quote
                              ++ ".head.repo.full_name" ++ quote ++ ")";
                              "echo " ++ quote
                              ++ "::set-output name=branch::$(node -p $BRANCH_STR)"
                              ++ quote;
                              "echo " ++ quote
                              ++ "::set-output name=repo::$(node -p $REPO_NAME)"
                              ++ quote]);
                   step_with := None;
                   step_env :=
                     Some [("PULL_REQUEST_URL",
                            "${{ github.event.issue.pull_request.url }}")] |} ];
       postSteps :=
         Some [ postComment "Rebuild complete. Updates pushed to pull request branch." ];
       checkoutWith :=
         Some [("ref", Some "${{ steps.query_pull_request.outputs.branch }}");
               ("repository", Some "${{ steps.query_pull_request.outputs.repo }}")];
       condition :=
         Some ("${{ github.event.issue.pull_request && contains(github.event.comment.body, '@projen "
               ++ command ++ "') }}");
       antitamperDisabled := Some true;
       commit := Some "chore: update generated files";
       pushBranch := Some "${{ steps.query_pull_request.outputs.branch }}";
       image := None;
       uploadArtifact := None;
       codeCov := None;
       codeCovTokenSecret := None |}.

(** The anti-tamper checks among the steps of a job, told by name. *)
Definition isAntitamper (s : WorkflowStep) : bool :=
  String.eqb (step_name s) "Anti-tamper check".

Definition antitamperChecks (steps : list WorkflowStep) : nat :=
  List.length (filter isAntitamper steps).

(* ------------------------------------------------------------------ *)
(** ** The workflows the constructor of NodeProject adds *)

(** [this.antitamper] as the constructor sets it; [hasParent] tells
    whether [this.parent] is defined. *)
Definition initAntitamper (buildWorkflow : option bool) (hasParent : bool)
  (antitamperOption : option bool) : bool :=
  match buildWorkflow with
  | Some b => b
  | None => if hasParent then false else true
  end
  && match antitamperOption with
     | Some b => b
     | None => true
     end.

(** The options of [NodeProjectOptions] the two workflows share. *)
Record WorkflowOptions : Type := {
  workflowContainerImage : option string;
  opt_codeCov : option bool;
  opt_codeCovTokenSecret : option string
}.

(** The job of the workflow [Build]. *)
Definition buildWorkflowJob (this : Workflows) (options : WorkflowOptions)
  : Result Job :=
  createBuildWorkflow this
    {| preBuildSteps := None;
       preCheckoutSteps := None;
       postSteps := None;
       checkoutWith := None;
       condition := None;
       antitamperDisabled := None;
       commit := None;
       pushBranch := None;
       image := workflowContainerImage options;
       uploadArtifact := None;
       codeCov := Some (match opt_codeCov options with
                        | Some b => b
                        | None => false
                        end);
       codeCovTokenSecret := opt_codeCovTokenSecret options |}.

Definition bumpStep (command : string) : WorkflowStep :=
  {| step_name := "Bump to next version";
     step_id := None;
     step_uses := None;
     step_run := Some command;
     step_with := None;
     step_env := None |}.

(** The job of the workflow [Release]; [bumpTask] is
    [this._version.bumpTask]. The options are evaluated before
    [createBuildWorkflow] is entered. *)
Definition releaseWorkflowJob (this : Workflows) (bumpTask : Task)
  (options : WorkflowOptions) : Result Job :=
  let* bump := runTaskCommand (project this) bumpTask in
  createBuildWorkflow this
    {| preBuildSteps := Some [bumpStep bump];
       preCheckoutSteps := None;
       postSteps := None;
       checkoutWith := Some [("fetch-depth", Some "0")];
       condition := None;
       antitamperDisabled := None;
       commit := None;
       pushBranch := Some "${{ github.ref }}";
       image := workflowContainerImage options;
       uploadArtifact := Some true;
       codeCov := Some (match opt_codeCov options with
                        | Some b => b
                        | None => false
                        end);
       codeCovTokenSecret := opt_codeCovTokenSecret options |}.

(** The position of the first step with the given name. *)
Fixpoint stepIndex (n : string) (steps : list WorkflowStep) : option nat :=
  match steps with
  | [] => None
  | s :: rest =>
      if String.eqb (step_name s) n then Some 0
      else option_map S (stepIndex n rest)
  end.

(* ------------------------------------------------------------------ *)
(** ** Sample projects for the worked examples *)

(** A project with github support and anti-tamper checks, whose build
    task spawns the compilation. *)
Definition sampleWorkflows : Workflows :=
  {| project := appProject;
     github := true;
     antitamper := true;
     nodeVersion := Some "12.13.0";
     jest := None;
     buildTask := {| taskName := "build"; steps := [Spawn "compile"] |} |}.

(** The options of a plain build workflow that uploads its artifact. *)
Definition sampleBuildOptions : NodeBuildWorkflowOptions :=
  {| preBuildSteps := None;
     preCheckoutSteps := None;
     postSteps := None;
     checkoutWith := None;
     condition := None;
     antitamperDisabled := None;
     commit := None;
     pushBranch := None;
     image := None;
     uploadArtifact := Some true;
     codeCov := None;
     codeCovTokenSecret := None |}.


(* ================================================================== *)
(** * Properties *)

(* ------------------------------------------------------------------ *)
(** ** Sorting *)

Section SortFacts.
Variable A : Type.
Variable cmp : A -> A -> comparison.

Lemma insert_perm x l : Permutation (x :: l) (JsArray.insert cmp x l).
Proof.
  induction l as [|y t IH]; simpl; [reflexivity|].
  destruct (cmp x y); try reflexivity.
  rewrite perm_swap. now apply perm_skip.
Qed.

Lemma sort_perm l : Permutation l (JsArray.sort cmp l).
Proof.
  induction l as [|x t IH]; simpl; [constructor|].
  rewrite <- insert_perm. now apply perm_skip.
Qed.

Lemma sort_In x l : In x (JsArray.sort cmp l) <-> In x l.
Proof.
  split; intro H.
  - eapply Permutation_in; [symmetry; apply sort_perm | exact H].
  - eapply Permutation_in; [apply sort_perm | exact H].
Qed.

Hypothesis cmp_total : forall x y, cmp x y = Gt -> cmp y x <> Gt.

Lemma insert_sorted x l :
  Sorted (JsArray.le cmp) l -> Sorted (JsArray.le cmp) (JsArray.insert cmp x l).
Proof.
  induction 1 as [|y t Hs IH Hd]; simpl.
  - repeat constructor.
  - destruct (cmp x y) eqn:E.
    + constructor; [now constructor|]. constructor. unfold JsArray.le. congruence.
    + constructor; [now constructor|]. constructor. unfold JsArray.le. congruence.
    + constructor; [exact IH|].
      destruct t as [|z t']; simpl.
      * constructor. now apply cmp_total.
      * destruct (cmp x z); constructor;
          try (now apply cmp_total); now inversion Hd.
Qed.

Lemma sort_sorted l : Sorted (JsArray.le cmp) (JsArray.sort cmp l).
Proof.
  induction l as [|x t IH]; simpl; [constructor|].
  now apply insert_sorted.
Qed.

End SortFacts.

(** Sorting looks at the sort key only: it commutes with every map that
    preserves the comparisons. *)
Lemma insert_map (A B : Type) (cmpA : A -> A -> comparison)
  (cmpB : B -> B -> comparison) (f : A -> B) :
  (forall x y, cmpB (f x) (f y) = cmpA x y) ->
  forall x l, JsArray.insert cmpB (f x) (map f l) = map f (JsArray.insert cmpA x l).
Proof.
  intros Hf x l. induction l as [|y t IH]; simpl; [reflexivity|].
  rewrite Hf. destruct (cmpA x y); simpl; try reflexivity.
  now rewrite IH.
Qed.

Lemma sort_map (A B : Type) (cmpA : A -> A -> comparison)
  (cmpB : B -> B -> comparison) (f : A -> B) :
  (forall x y, cmpB (f x) (f y) = cmpA x y) ->
  forall l, JsArray.sort cmpB (map f l) = map f (JsArray.sort cmpA l).
Proof.
  intros Hf l. induction l as [|x t IH]; simpl; [reflexivity|].
  rewrite IH. now apply insert_map.
Qed.

(** Two strictly ascending lists with the same elements are equal. *)
Lemma strictly_sorted_unique (A : Type) (lt : A -> A -> Prop) :
  (forall x, ~ lt x x) -> (forall x y z, lt x y -> lt y z -> lt x z) ->
  forall l1 l2, StronglySorted lt l1 -> StronglySorted lt l2 ->
  (forall x, In x l1 <-> In x l2) -> l1 = l2.
Proof.
  intros Hirr Htr l1. induction l1 as [|a t1 IH]; intros l2 S1 S2 Hin.
  - destruct l2 as [|b t2]; [reflexivity|].
    exfalso. apply (proj2 (Hin b)). now left.
  - destruct l2 as [|b t2].
    + exfalso. apply (proj1 (Hin a)). now left.
    + apply StronglySorted_inv in S1 as [S1 F1].
      apply StronglySorted_inv in S2 as [S2 F2].
      rewrite Forall_forall in F1, F2.
      assert (a = b) as ->.
      { destruct (proj1 (Hin a) (or_introl eq_refl)) as [E|Ha]; [now symmetry|].
        destruct (proj2 (Hin b) (or_introl eq_refl)) as [E|Hb]; [exact E|].
        exfalso. apply (Hirr a). eapply Htr; [apply F1, Hb | apply F2, Ha]. }
      f_equal. apply IH; trivial.
      intro x. split; intro Hx.
      * destruct (proj1 (Hin x) (or_intror Hx)) as [E|H]; [|exact H].
        subst x. exfalso. apply (Hirr b). now apply F1.
      * destruct (proj2 (Hin x) (or_intror Hx)) as [E|H]; [|exact H].
        subst x. exfalso. apply (Hirr b). now apply F2.
Qed.

(* ------------------------------------------------------------------ *)
(** ** The code-unit order on strings *)

Lemma ascii_compare_refl a : Ascii.compare a a = Eq.
Proof. unfold Ascii.compare. apply N.compare_refl. Qed.

Lemma ascii_compare_lt_trans a b c :
  Ascii.compare a b = Lt -> Ascii.compare b c = Lt -> Ascii.compare a c = Lt.
Proof.
  unfold Ascii.compare. rewrite !N.compare_lt_iff. apply N.lt_trans.
Qed.

Lemma string_compare_refl s : String.compare s s = Eq.
Proof.
  induction s as [|a s IH]; simpl; [reflexivity|].
  now rewrite ascii_compare_refl.
Qed.

Lemma strLt_irrefl s : ~ strLt s s.
Proof. unfold strLt. rewrite string_compare_refl. discriminate. Qed.

Lemma strLt_trans x y z : strLt x y -> strLt y z -> strLt x z.
Proof.
  unfold strLt. revert y z.
  induction x as [|a x IH]; intros [|b y] [|c z]; simpl; try discriminate; trivial.
  destruct (Ascii.compare a b) eqn:Eab; try discriminate;
    destruct (Ascii.compare b c) eqn:Ebc; try discriminate; intros H1 H2.
  - apply Ascii.compare_eq_iff in Eab, Ebc. subst.
    rewrite ascii_compare_refl. eauto.
  - apply Ascii.compare_eq_iff in Eab. subst. now rewrite Ebc.
  - apply Ascii.compare_eq_iff in Ebc. subst. now rewrite Eab.
  - now rewrite (ascii_compare_lt_trans _ _ _ Eab Ebc).
Qed.

Lemma string_compare_total x y :
  String.compare x y = Gt -> String.compare y x <> Gt.
Proof.
  intros H. rewrite String.compare_antisym, H. discriminate.
Qed.

(** A duplicate-free list in non-strict order is in strict order. *)
Lemma sorted_nodup_strict l :
  Sorted (JsArray.le String.compare) l -> NoDup l -> StronglySorted strLt l.
Proof.
  intros Hs Hn. apply Sorted_StronglySorted.
  - intros x y z. apply strLt_trans.
  - induction Hs as [|a t Hs IH Hd]; constructor.
    + apply IH. now inversion Hn.
    + destruct Hd as [|b t' Hab]; constructor.
      unfold strLt, JsArray.le in *.
      destruct (String.compare a b) eqn:E; trivial; [|congruence].
      apply String.compare_eq_iff in E. subst b.
      inversion Hn as [|? ? Hnotin _]. exfalso. apply Hnotin. now left.
Qed.

(* ------------------------------------------------------------------ *)
(** ** Keywords *)

Lemma memb_In k l : memb k l = true <-> In k l.
Proof.
  unfold memb. rewrite existsb_exists. split.
  - intros [x [Hx E]]. apply String.eqb_eq in E. now subst.
  - intro H. exists k. split; [exact H | apply String.eqb_refl].
Qed.

Lemma setAdd_In s k x : In x (setAdd s k) <-> In x s \/ x = k.
Proof.
  unfold setAdd. destruct (existsb (String.eqb k) s) eqn:E.
  - split; [now left|]. intros [H| ->]; [exact H|]. now apply memb_In.
  - rewrite in_app_iff. simpl. intuition.
Qed.

Lemma setAdd_NoDup s k : NoDup s -> NoDup (setAdd s k).
Proof.
  intro H. unfold setAdd. destruct (existsb (String.eqb k) s) eqn:E; [exact H|].
  apply NoDup_app; [exact H | repeat constructor; intros [] |].
  intros x Hx [<-|[]].
  apply memb_In in Hx. unfold memb in Hx. congruence.
Qed.

Lemma addKeywords_In ks s x : In x (addKeywords ks s) <-> In x s \/ In x ks.
Proof.
  unfold addKeywords. revert s.
  induction ks as [|k ks IH]; intro s; simpl; [intuition|].
  rewrite IH, setAdd_In. intuition.
Qed.

Lemma addKeywords_NoDup ks s : NoDup s -> NoDup (addKeywords ks s).
Proof.
  unfold addKeywords. revert s.
  induction ks as [|k ks IH]; intros s H; simpl; [exact H|].
  apply IH. now apply setAdd_NoDup.
Qed.

Lemma keywords_fold_In calls s x :
  In x (fold_left (fun s ks => addKeywords ks s) calls s)
  <-> In x s \/ exists ks, In ks calls /\ In x ks.
Proof.
  revert s. induction calls as [|c calls IH]; intro s; simpl.
  - split; [now left|]. intros [H|[ks [[] _]]]. exact H.
  - rewrite IH, addKeywords_In. split.
    + intros [[H|H]|[ks [H1 H2]]]; [now left | right; exists c; auto
                                   | right; exists ks; auto].
    + intros [H|[ks [[<-|H1] H2]]]; [now left; left | now left; right |].
      right. exists ks. auto.
Qed.

Lemma keywords_fold_NoDup calls s :
  NoDup s -> NoDup (fold_left (fun s ks => addKeywords ks s) calls s).
Proof.
  revert s. induction calls as [|c calls IH]; intros s H; simpl; [exact H|].
  apply IH. now apply addKeywords_NoDup.
Qed.

Lemma renderKeywords_strict s : NoDup s -> StronglySorted strLt (renderKeywords s).
Proof.
  intro H. apply sorted_nodup_strict.
  - apply sort_sorted. exact string_compare_total.
  - eapply Permutation_NoDup; [apply sort_perm | exact H].
Qed.

Lemma sameStrings_In a b : sameStrings a b = true -> forall k, In k a <-> In k b.
Proof.
  unfold sameStrings. rewrite andb_true_iff, !forallb_forall.
  intros [H1 H2] k. split; intro H; apply memb_In; auto.
Qed.

(** C10: after any sequence of [addKeywords] calls the rendered keyword
    list is strictly ascending in code-unit order (so every keyword
    occurs exactly once) and holds exactly the keywords that were added;
    hence two call sequences adding the same keywords, in whatever order
    and however often, render the same list. *)
Theorem keywords_rendered_once_sorted (calls : list (list string)) :
  StronglySorted strLt (renderKeywords (keywordsAfter calls))
  /\ NoDup (renderKeywords (keywordsAfter calls))
  /\ (forall k, In k (renderKeywords (keywordsAfter calls))
                <-> exists ks, In ks calls /\ In k ks)
  /\ (forall calls',
        sameStrings (List.concat calls) (List.concat calls') = true ->
        renderKeywords (keywordsAfter calls') = renderKeywords (keywordsAfter calls)).
Proof.
  assert (Hnd : forall c, NoDup (keywordsAfter c))
    by (intro c; apply keywords_fold_NoDup; constructor).
  assert (Hin : forall c k, In k (renderKeywords (keywordsAfter c))
                            <-> exists ks, In ks c /\ In k ks).
  { intros c k. unfold renderKeywords. rewrite sort_In.
    unfold keywordsAfter. rewrite keywords_fold_In. simpl. intuition. }
  repeat split.
  - apply renderKeywords_strict, Hnd.
  - eapply Permutation_NoDup; [apply sort_perm | apply Hnd].
  - apply Hin.
  - apply Hin.
  - intros calls' Hsame.
    apply strictly_sorted_unique with (lt := strLt).
    + apply strLt_irrefl.
    + apply strLt_trans.
    + apply renderKeywords_strict, Hnd.
    + apply renderKeywords_strict, Hnd.
    + intro k. rewrite !Hin.
      pose proof (sameStrings_In _ _ Hsame k) as Hk.
      rewrite !in_concat in Hk. split; intros [ks [H1 H2]].
      * destruct (proj2 Hk) as [x [Hx1 Hx2]]; [exists ks; auto|]. exists x; auto.
      * destruct (proj1 Hk) as [x [Hx1 Hx2]]; [exists ks; auto|]. exists x; auto.
Qed.

Lemma keywords_rendered_once_sorted_witness :
  renderKeywords (keywordsAfter [["b"; "a"]; ["b"]])
  = renderKeywords (keywordsAfter [["a"]; ["b"; "a"; "a"]]).
Proof.
  apply (proj2 (proj2 (proj2
           (keywords_rendered_once_sorted [["a"]; ["b"; "a"; "a"]])))).
  vm_compute. reflexivity.
Defined.

(* ------------------------------------------------------------------ *)
(** ** Objects *)

Section ObjectFacts.
Import JsObject.

Lemma get_set o k v k' :
  get (set o k v) k' = if String.eqb k k' then Some v else get o k'.
Proof.
  induction o as [|[a b] o IH]; simpl.
  - destruct (String.eqb k k'); reflexivity.
  - destruct (String.eqb a k) eqn:E; simpl.
    + apply String.eqb_eq in E. subst a.
      destruct (String.eqb k k'); reflexivity.
    + rewrite IH. destruct (String.eqb a k') eqn:E'; trivial.
      apply String.eqb_eq in E'. subst a. now rewrite String.eqb_sym, E.
Qed.

Lemma get_None o k : get o k = None <-> ~ In k (map fst o).
Proof.
  induction o as [|[a b] o IH]; simpl; [intuition|].
  destruct (String.eqb a k) eqn:E.
  - apply String.eqb_eq in E. subst. split; [discriminate|]. intros H. exfalso. auto.
  - apply String.eqb_neq in E. rewrite IH. intuition.
Qed.

Lemma get_Some_In o k v : get o k = Some v -> In (k, v) o.
Proof.
  induction o as [|[a b] o IH]; simpl; [discriminate|].
  destruct (String.eqb a k) eqn:E.
  - apply String.eqb_eq in E. subst. intros [= ->]. now left.
  - auto.
Qed.

Lemma In_get o k v : NoDup (map fst o) -> In (k, v) o -> get o k = Some v.
Proof.
  induction o as [|[a b] o IH]; simpl; [tauto|].
  intros Hn [[= -> ->]|Hin].
  - now rewrite String.eqb_refl.
  - inversion Hn as [|? ? Hnotin Hn']. subst.
    destruct (String.eqb a k) eqn:E; [|auto].
    apply String.eqb_eq in E. subst. exfalso. apply Hnotin.
    change k with (fst (k, v)). now apply in_map.
Qed.

Lemma set_present o k v :
  In k (map fst o) -> map fst (set o k v) = map fst o.
Proof.
  induction o as [|[a b] o IH]; simpl; [tauto|].
  destruct (String.eqb a k) eqn:E; simpl; [reflexivity|].
  apply String.eqb_neq in E. intros [H|H]; [contradiction|]. now rewrite IH.
Qed.

Lemma set_absent o k v :
  ~ In k (map fst o) -> set o k v = (o ++ [(k, v)])%list.
Proof.
  induction o as [|[a b] o IH]; simpl; [reflexivity|].
  intro H. destruct (String.eqb a k) eqn:E.
  - apply String.eqb_eq in E. subst. exfalso. auto.
  - rewrite IH; auto.
Qed.

Lemma set_keys_In o k v x :
  In x (map fst (set o k v)) <-> In x (map fst o) \/ x = k.
Proof.
  induction o as [|[a b] o IH]; simpl; [intuition|].
  destruct (String.eqb a k) eqn:E; simpl.
  - apply String.eqb_eq in E. subst. intuition.
  - rewrite IH. intuition.
Qed.

Lemma set_NoDup o k v : NoDup (map fst o) -> NoDup (map fst (set o k v)).
Proof.
  induction o as [|[a b] o IH]; simpl; intro H.
  - repeat constructor. intros [].
  - inversion H as [|? ? Hnotin Hn]. subst.
    destruct (String.eqb a k) eqn:E; simpl.
    + now constructor.
    + constructor; [|auto]. rewrite set_keys_In. intros [H1|H1]; [auto|].
      subst. now rewrite String.eqb_refl in E.
Qed.

(** Objects with the same keys in the same order and the same value
    under every key are equal. *)
Lemma object_ext (a b : t) :
  map fst a = map fst b -> NoDup (map fst a) ->
  (forall k, In k (map fst a) -> get a k = get b k) -> a = b.
Proof.
  revert b. induction a as [|[k v] a IH]; intros [|[k' v'] b]; simpl;
    try discriminate; trivial.
  intros [= <- Hk] Hn Hg. inversion Hn as [|? ? Hnotin Hn']. subst.
  pose proof (Hg k (or_introl eq_refl)) as H. rewrite String.eqb_refl in H.
  injection H as <-. f_equal. apply IH; trivial.
  intros x Hx. specialize (Hg x (or_intror Hx)).
  destruct (String.eqb k x) eqn:E; [|exact Hg].
  apply String.eqb_eq in E. subst. contradiction.
Qed.

Lemma get_perm (a b : t) k :
  NoDup (map fst a) -> Permutation a b -> get a k = get b k.
Proof.
  intros Hn Hp.
  assert (Hnb : NoDup (map fst b))
    by (eapply Permutation_NoDup; [apply Permutation_map, Hp | exact Hn]).
  destruct (get a k) as [v|] eqn:Ea.
  - symmetry. apply In_get; trivial.
    eapply Permutation_in; [exact Hp|]. now apply get_Some_In.
  - symmetry. apply get_None. apply get_None in Ea. intro H. apply Ea.
    eapply Permutation_in; [symmetry; apply Permutation_map, Hp | exact H].
Qed.

Lemma ofList_from acc l :
  NoDup (map fst (acc ++ l)) ->
  fold_left (fun o e => set o (fst e) (snd e)) l acc = (acc ++ l)%list.
Proof.
  revert acc. induction l as [|[k v] l IH]; intros acc Hn; simpl.
  - now rewrite app_nil_r.
  - rewrite set_absent.
    + rewrite IH; rewrite <- app_assoc; [reflexivity | exact Hn].
    + rewrite map_app in Hn. simpl in Hn.
      apply NoDup_remove_2 in Hn. intro H. apply Hn.
      apply in_or_app. now left.
Qed.

Lemma ofList_NoDup l : NoDup (map fst l) -> ofList l = l.
Proof. intro H. unfold ofList, empty. now rewrite ofList_from. Qed.

Lemma filter_split (A : Type) (p : A -> bool) (l : list A) :
  Permutation l (filter p l ++ filter (fun x => negb (p x)) l).
Proof.
  induction l as [|x l IH]; simpl; [constructor|].
  destruct (p x); simpl.
  - now apply perm_skip.
  - now apply Permutation_cons_app.
Qed.

Lemma entries_perm o : Permutation o (entries o).
Proof.
  unfold entries, indexed, named.
  rewrite <- (sort_perm _ _ (filter (fun e => isArrayIndex (fst e)) o)).
  apply filter_split.
Qed.

Lemma entries_NoDup o : NoDup (map fst o) -> NoDup (map fst (entries o)).
Proof.
  intro H. eapply Permutation_NoDup; [apply Permutation_map, entries_perm | exact H].
Qed.

Lemma get_entries o k : NoDup (map fst o) -> get (entries o) k = get o k.
Proof. intro H. symmetry. apply get_perm; [exact H | apply entries_perm]. Qed.

End ObjectFacts.

(* ------------------------------------------------------------------ *)
(** ** Post-install resolution *)

Lemma Sorted_map (A B : Type) (R : A -> A -> Prop) (R' : B -> B -> Prop)
  (f : A -> B) l :
  (forall a b, R a b -> R' (f a) (f b)) -> Sorted R l -> Sorted R' (map f l).
Proof.
  intros HR. induction 1 as [|a l Hs IH Hd]; simpl; constructor; trivial.
  destruct Hd; simpl; constructor; auto.
Qed.

Lemma StronglySorted_map (A B : Type) (R : A -> A -> Prop) (R' : B -> B -> Prop)
  (f : A -> B) l :
  (forall a b, R a b -> R' (f a) (f b)) ->
  StronglySorted R l -> StronglySorted R' (map f l).
Proof.
  intros HR. induction 1 as [|a l Hs IH Hf]; simpl; constructor; trivial.
  rewrite Forall_forall in *. intros y Hy.
  apply in_map_iff in Hy as [x [<- Hx]]. auto.
Qed.

Lemma StronglySorted_filter (A : Type) (R : A -> A -> Prop) (p : A -> bool) l :
  StronglySorted R l -> StronglySorted R (filter p l).
Proof.
  induction 1 as [|a l Hs IH Hf]; simpl; [constructor|].
  destruct (p a); [|exact IH]. constructor; [exact IH|].
  rewrite Forall_forall in *. intros y Hy. apply filter_In in Hy as [Hy _]. auto.
Qed.

Lemma filter_all (A : Type) (p : A -> bool) l :
  (forall x, In x l -> p x = true) -> filter p l = l.
Proof.
  induction l as [|a l IH]; simpl; intro H; [reflexivity|].
  rewrite (H a (or_introl eq_refl)). f_equal. auto.
Qed.

Lemma filter_none (A : Type) (p : A -> bool) l :
  (forall x, In x l -> p x = false) -> filter p l = [].
Proof.
  induction l as [|a l IH]; simpl; intro H; [reflexivity|].
  rewrite (H a (or_introl eq_refl)). auto.
Qed.

Lemma set_fold_NoDup (f : string * string -> string) E o :
  NoDup (map fst o) ->
  NoDup (map fst (fold_left (fun o e => JsObject.set o (fst e) (f e)) E o)).
Proof.
  revert o. induction E as [|e E IH]; intros o H; simpl; [exact H|].
  apply IH. now apply set_NoDup.
Qed.

Lemma set_fold_keys (f : string * string -> string) E o k :
  In k (map fst (fold_left (fun o e => JsObject.set o (fst e) (f e)) E o))
  <-> In k (map fst o) \/ In k (map fst E).
Proof.
  revert o. induction E as [|e E IH]; intro o; simpl; [intuition|].
  rewrite IH, set_keys_In. intuition.
Qed.

Lemma set_fold_get (f : string * string -> string) E o k :
  NoDup (map fst E) ->
  JsObject.get (fold_left (fun o e => JsObject.set o (fst e) (f e)) E o) k
  = match JsObject.get E k with
    | Some d => Some (f (k, d))
    | None => JsObject.get o k
    end.
Proof.
  revert o. induction E as [|[n d] E IH]; intros o Hn; simpl; [reflexivity|].
  inversion Hn as [|? ? Hnotin Hn']. subst.
  rewrite IH by exact Hn'. rewrite get_set.
  destruct (String.eqb n k) eqn:E1.
  - apply String.eqb_eq in E1. subst n.
    apply get_None in Hnotin. now rewrite Hnotin.
  - reflexivity.
Qed.

Section ResolveFacts.
Variable installedVersion : string -> option (option string).

Lemma resolvedVersion_truthy n d :
  String.eqb d "*" = true -> truthy (resolvedVersion installedVersion n d) = true.
Proof.
  intro E. unfold resolvedVersion. rewrite E.
  destruct (installedVersion n); reflexivity.
Qed.

(** The guard of the warning never holds: a round always stores. *)
Lemma resolveEntry_stores result log n d :
  resolveEntry installedVersion (result, log) (n, d)
  = (JsObject.set result n (resolvedVersion installedVersion n d),
     (log ++ (if String.eqb d (resolvedVersion installedVersion n d) then []
              else [Verbose (n ++ ": " ++ d ++ " => "
                             ++ resolvedVersion installedVersion n d)]))%list).
Proof.
  unfold resolveEntry, resolvedVersion.
  destruct (String.eqb d "*") eqn:E; simpl; [|reflexivity].
  apply String.eqb_eq in E. subst d.
  destruct (installedVersion n); reflexivity.
Qed.

Lemma resolve_fold_fst E acc :
  fst (fold_left (resolveEntry installedVersion) E acc)
  = fold_left (fun o e => JsObject.set o (fst e)
                            (resolvedVersion installedVersion (fst e) (snd e)))
              E (fst acc).
Proof.
  revert acc. induction E as [|[n d] E IH]; intros [result log];
    cbn [fold_left]; [reflexivity|].
  rewrite resolveEntry_stores, IH. reflexivity.
Qed.

Lemma resolve_fold_no_warning E acc :
  existsb isWarn (snd acc) = false ->
  existsb isWarn (snd (fold_left (resolveEntry installedVersion) E acc)) = false.
Proof.
  revert acc. induction E as [|[n d] E IH]; intros [result log] H;
    cbn [fold_left]; [exact H|].
  rewrite resolveEntry_stores. apply IH. cbn [snd] in *.
  rewrite existsb_app, H.
  destruct (String.eqb d (resolvedVersion installedVersion n d)); reflexivity.
Qed.

Lemma resolved_NoDup user : NoDup (map fst (resolved installedVersion user)).
Proof.
  unfold resolved. rewrite resolve_fold_fst. apply set_fold_NoDup. constructor.
Qed.

Lemma resolved_keys user k :
  In k (map fst (resolved installedVersion user)) <-> In k (map fst user).
Proof.
  unfold resolved. rewrite resolve_fold_fst, set_fold_keys. simpl.
  split.
  - intros [[]|H]. eapply Permutation_in; [|exact H].
    symmetry. apply Permutation_map, entries_perm.
  - intro H. right. eapply Permutation_in; [|exact H].
    apply Permutation_map, entries_perm.
Qed.

Variable localeCompare : string -> string -> comparison.

Lemma resolveDeps_fst current user :
  fst (resolveDeps installedVersion localeCompare current user)
  = sorted localeCompare (resolved installedVersion user).
Proof.
  unfold resolveDeps, resolved.
  destruct (fold_left _ _ _) as [result log]. reflexivity.
Qed.

Lemma sorted_eq o :
  NoDup (map fst o) ->
  sorted localeCompare o
  = JsArray.sort (fun l r => localeCompare (fst l) (fst r)) (JsObject.entries o).
Proof.
  intro H. unfold sorted. apply ofList_NoDup.
  eapply Permutation_NoDup; [apply Permutation_map, sort_perm|].
  now apply entries_NoDup.
Qed.

Lemma sorted_perm o : NoDup (map fst o) -> Permutation o (sorted localeCompare o).
Proof.
  intro H. rewrite sorted_eq by exact H.
  rewrite <- sort_perm. apply entries_perm.
Qed.

End ResolveFacts.

Lemma string_le_trans x y z :
  JsArray.le codeUnitCompare x y -> JsArray.le codeUnitCompare y z ->
  JsArray.le codeUnitCompare x z.
Proof.
  unfold JsArray.le, codeUnitCompare. intros Hxy Hyz Hxz.
  destruct (String.compare x y) eqn:E1; [| |congruence].
  - apply String.compare_eq_iff in E1. subst. contradiction.
  - destruct (String.compare y z) eqn:E2; [| |congruence].
    + apply String.compare_eq_iff in E2. subst. congruence.
    + pose proof (strLt_trans _ _ _ E1 E2) as H. unfold strLt in H. congruence.
Qed.

Lemma keys_In o k : In k (JsObject.keys o) <-> In k (map fst o).
Proof.
  unfold JsObject.keys. split; intro H.
  - eapply Permutation_in; [|exact H]. symmetry. apply Permutation_map, entries_perm.
  - eapply Permutation_in; [|exact H]. apply Permutation_map, entries_perm.
Qed.

Lemma filter_app_split (p : string -> bool) (a b : list string) :
  (forall x, In x a -> p x = true) -> (forall x, In x b -> p x = false) ->
  filter p (a ++ b) = a /\ filter (fun k => negb (p k)) (a ++ b) = b.
Proof.
  intros Ha Hb. rewrite !filter_app. split.
  - rewrite (filter_all _ p a Ha), (filter_none _ p b Hb). apply app_nil_r.
  - rewrite filter_none, filter_all; trivial.
    + intros x Hx. now rewrite Hb.
    + intros x Hx. now rewrite Ha.
Qed.

Lemma keys_split o :
  indexKeys o
  = map fst (JsArray.sort (fun a b => N.compare (JsObject.indexOf a) (JsObject.indexOf b))
                          (JsObject.indexed o))
  /\ nameKeys o = map fst (JsObject.named o).
Proof.
  unfold indexKeys, nameKeys, JsObject.keys, JsObject.entries.
  rewrite map_app. apply filter_app_split.
  - intros x Hx. apply in_map_iff in Hx as [e [<- He]].
    apply sort_In in He. unfold JsObject.indexed in He.
    now apply filter_In in He.
  - intros x Hx. apply in_map_iff in Hx as [e [<- He]].
    unfold JsObject.named in He. apply filter_In in He as [_ He].
    now apply negb_true_iff in He.
Qed.

Lemma keys_partition o : JsObject.keys o = (indexKeys o ++ nameKeys o)%list.
Proof.
  destruct (keys_split o) as [-> ->].
  unfold JsObject.keys, JsObject.entries. apply map_app.
Qed.

Lemma indexKeys_ascending o : ascendingIndices (indexKeys o).
Proof.
  destruct (keys_split o) as [-> _]. unfold ascendingIndices.
  eapply Sorted_map; [|apply sort_sorted].
  - intros a b H. exact H.
  - intros x y H. rewrite N.compare_antisym, H. discriminate.
Qed.

(** C5, as the code has it: in the maps written by the post-install step
    the keys that are not array indices are enumerated in ascending
    [localeCompare] order; keys that are canonical array indices (such
    as ["9"] and ["10"]) are enumerated before them, in ascending numeric
    order. When no key is an array index, all keys are in ascending
    order. *)
Theorem resolved_maps_key_order
  (installedVersion : string -> option (option string))
  (localeCompare : string -> string -> comparison)
  (current user : JsObject.t) :
  (forall x y, localeCompare x y = Gt -> localeCompare y x <> Gt) ->
  (forall x y z, JsArray.le localeCompare x y -> JsArray.le localeCompare y z ->
                 JsArray.le localeCompare x z) ->
  let out := fst (resolveDeps installedVersion localeCompare current user) in
  JsObject.keys out = (indexKeys out ++ nameKeys out)%list
  /\ ascendingIndices (indexKeys out)
  /\ ascendingKeys localeCompare (nameKeys out)
  /\ ((forall k, In k (JsObject.keys user) -> JsObject.isArrayIndex k = false) ->
      ascendingKeys localeCompare (JsObject.keys out)).
Proof.
  intros Htot Htr out.
  assert (Hout : out = JsArray.sort (fun l r => localeCompare (fst l) (fst r))
                         (JsObject.entries (resolved installedVersion user))).
  { unfold out. rewrite resolveDeps_fst. apply sorted_eq, resolved_NoDup. }
  assert (Hsorted : StronglySorted
                      (fun a b => JsArray.le localeCompare (fst a) (fst b)) out).
  { rewrite Hout. apply Sorted_StronglySorted.
    - intros a b c. apply Htr.
    - apply (sort_sorted _ (fun l r => localeCompare (fst l) (fst r))).
      intros a b. apply Htot. }
  assert (Hnames : ascendingKeys localeCompare (nameKeys out)).
  { destruct (keys_split out) as [_ ->]. unfold ascendingKeys, JsObject.named.
    eapply StronglySorted_map; [|apply StronglySorted_filter, Hsorted].
    intros a b H. exact H. }
  split; [apply keys_partition|].
  split; [apply indexKeys_ascending|].
  split; [exact Hnames|].
  intro Hnone.
  assert (Hidx : indexKeys out = []).
  { unfold indexKeys. apply filter_none. intros k Hk. apply Hnone.
    apply (proj2 (keys_In user k)). apply (proj1 (keys_In out k)) in Hk.
    rewrite Hout in Hk.
    apply (proj1 (resolved_keys installedVersion user k)).
    eapply Permutation_in; [|exact Hk].
    symmetry. etransitivity; [apply Permutation_map, entries_perm|].
    apply Permutation_map, sort_perm. }
  rewrite keys_partition, Hidx. exact Hnames.
Qed.

Lemma resolved_maps_key_order_witness :
  ascendingKeys codeUnitCompare
    (JsObject.keys
       (fst (resolveDeps sampleInstalled codeUnitCompare []
                         [("zeta", "*"); ("alpha", "^1")]))).
Proof.
  apply (resolved_maps_key_order sampleInstalled codeUnitCompare []
           [("zeta", "*"); ("alpha", "^1")]).
  - exact string_compare_total.
  - exact string_le_trans.
  - intros k Hk. vm_compute in Hk.
    destruct Hk as [<-|[<-|[]]]; reflexivity.
Defined.

(** C5 as stated fails: with the dependencies ["10"] and ["9"] the map is
    enumerated (and serialized) as ["9"], ["10"], although ["10"] sorts
    before ["9"]. *)
Lemma resolved_maps_key_order_counterexample :
  JsObject.keys
    (fst (resolveDeps sampleInstalled codeUnitCompare []
                      [("10", "^1"); ("9", "^1")])) = ["9"; "10"]
  /\ codeUnitCompare "10" "9" = Lt
  /\ ~ ascendingKeys codeUnitCompare
         (JsObject.keys
            (fst (resolveDeps sampleInstalled codeUnitCompare []
                              [("10", "^1"); ("9", "^1")]))).
Proof.
  split; [vm_compute; reflexivity|].
  split; [vm_compute; reflexivity|].
  intro H. vm_compute in H.
  apply StronglySorted_inv in H as [_ H].
  apply Forall_inv in H. apply H. reflexivity.
Qed.

Section ResolveValues.
Variable installedVersion : string -> option (option string).
Variable localeCompare : string -> string -> comparison.

Lemma resolved_get user k :
  NoDup (map fst user) ->
  JsObject.get (resolved installedVersion user) k
  = option_map (resolvedVersion installedVersion k) (JsObject.get user k).
Proof.
  intro Hn. unfold resolved. rewrite resolve_fold_fst.
  rewrite (set_fold_get
             (fun e => resolvedVersion installedVersion (fst e) (snd e)))
    by now apply entries_NoDup.
  rewrite get_entries by exact Hn. simpl.
  destruct (JsObject.get user k); reflexivity.
Qed.

Lemma sorted_get o k :
  NoDup (map fst o) -> JsObject.get (sorted localeCompare o) k = JsObject.get o k.
Proof.
  intro Hn. symmetry. apply get_perm; [exact Hn | now apply sorted_perm].
Qed.

Lemma resolveDeps_get current user k :
  NoDup (map fst user) ->
  JsObject.get (fst (resolveDeps installedVersion localeCompare current user)) k
  = option_map (resolvedVersion installedVersion k) (JsObject.get user k).
Proof.
  intro Hn. rewrite resolveDeps_fst, sorted_get by apply resolved_NoDup.
  now apply resolved_get.
Qed.

Lemma removal_log_no_warning (o : JsObject.t) (msg : string -> string) ks :
  existsb isWarn
    (flat_map (fun n => if JsObject.falsyAt o n then [Verbose (msg n)] else []) ks)
  = false.
Proof.
  induction ks as [|k ks IH]; simpl; [reflexivity|].
  rewrite existsb_app, IH. destruct (JsObject.falsyAt o k); reflexivity.
Qed.

Lemma resolveDeps_no_warning current user :
  existsb isWarn (snd (resolveDeps installedVersion localeCompare current user)) = false.
Proof.
  unfold resolveDeps.
  pose proof (resolve_fold_no_warning installedVersion
                (JsObject.entries user) (JsObject.empty, []) eq_refl) as H.
  destruct (fold_left _ _ _) as [result log]. simpl in *.
  rewrite existsb_app, H.
  apply (removal_log_no_warning result (fun n => n ++ " removed")).
Qed.

(** C6, as the code has it: a wildcard dependency whose installed version
    is found is rewritten to the caret range of that version; one whose
    lookup fails is kept as the wildcard and the run goes on, but no
    warning is ever logged: the guard of [logging.warn] tests a variable
    that still holds ["*"]. *)
Theorem wildcard_resolution_never_warns (current user : JsObject.t) (n : string) :
  NoDup (map fst user) ->
  JsObject.get user n = Some "*" ->
  (forall v, installedVersion n = Some (Some v) ->
     JsObject.get (fst (resolveDeps installedVersion localeCompare current user)) n
     = Some ("^" ++ v))
  /\ (installedVersion n = None ->
      JsObject.get (fst (resolveDeps installedVersion localeCompare current user)) n
      = Some "*")
  /\ existsb isWarn (snd (resolveDeps installedVersion localeCompare current user))
     = false.
Proof.
  intros Hn Hget. rewrite resolveDeps_get by exact Hn. rewrite Hget. simpl.
  unfold resolvedVersion. simpl.
  repeat split.
  - intros v ->. reflexivity.
  - intros ->. reflexivity.
  - apply resolveDeps_no_warning.
Qed.

End ResolveValues.

Lemma wildcard_resolution_never_warns_witness :
  JsObject.get
    (fst (resolveDeps sampleInstalled codeUnitCompare [] [("zeta", "*")])) "zeta"
  = Some "*"
  /\ snd (resolveDeps sampleInstalled codeUnitCompare [] [("zeta", "*")]) = [].
Proof.
  split.
  - apply (wildcard_resolution_never_warns sampleInstalled codeUnitCompare
             [] [("zeta", "*")] "zeta").
    + repeat constructor. intros [].
    + reflexivity.
    + reflexivity.
  - vm_compute. reflexivity.
Defined.

(* ------------------------------------------------------------------ *)
(** ** Task commands *)

(** C7, as the code has it: in PROJEN mode both renderers produce the
    projen command followed by the task name; in SHELL mode the npm
    script of a task is the task's own shell command, whereas
    [runTaskCommand] produces the package manager's run command followed
    by the task name; under any other mode both fail with the
    configuration error. *)
Theorem task_command_by_mode (toShellCommand : Task -> Result string)
  (this : NodeProject) (task : Task) :
  (npmTaskExecution (npmPackage this) = PROJEN ->
     npmScriptForTask toShellCommand (npmPackage this) task
     = Ok (projenCommand (npmPackage this) ++ " " ++ taskName task)
     /\ runTaskCommand this task
        = Ok (projenCommand (npmPackage this) ++ " " ++ taskName task))
  /\ (npmTaskExecution (npmPackage this) = SHELL ->
     npmScriptForTask toShellCommand (npmPackage this) task = toShellCommand task
     /\ runTaskCommand this task
        = Ok (runScriptCommand this ++ " " ++ taskName task))
  /\ (npmTaskExecution (npmPackage this) <> PROJEN ->
      npmTaskExecution (npmPackage this) <> SHELL ->
     npmScriptForTask toShellCommand (npmPackage this) task
     = Throw (ConfigurationError ("invalid npmTaskExecution mode: "
                                  ++ npmTaskExecution (npmPackage this)))
     /\ runTaskCommand this task
        = Throw (ConfigurationError ("invalid npmTaskExecution mode: "
                                     ++ npmTaskExecution (npmPackage this)))).
Proof.
  unfold npmScriptForTask, runTaskCommand.
  split; [|split].
  - intros ->. split; reflexivity.
  - intros ->. split; reflexivity.
  - intros Hp Hs. apply String.eqb_neq in Hp, Hs. rewrite Hp, Hs.
    split; reflexivity.
Qed.

Lemma task_command_by_mode_witness :
  npmScriptForTask sampleShellCommand appPackage compileTask = Ok "tsc"
  /\ runTaskCommand appProject compileTask = Ok "yarn run compile".
Proof.
  destruct (task_command_by_mode sampleShellCommand appProject compileTask)
    as [_ [Hshell _]].
  destruct (Hshell eq_refl) as [H1 H2].
  split; [exact H1 | exact H2].
Defined.

(** C7 as stated fails for [runTaskCommand]: in SHELL mode it does not
    produce the task's own shell command. *)
Lemma task_command_by_mode_counterexample :
  npmTaskExecution (npmPackage appProject) = SHELL
  /\ sampleShellCommand compileTask = Ok "tsc"
  /\ runTaskCommand appProject compileTask = Ok "yarn run compile"
  /\ runTaskCommand appProject compileTask <> sampleShellCommand compileTask.
Proof.
  repeat split. vm_compute. discriminate.
Qed.

(* ------------------------------------------------------------------ *)
(** ** Adding dependencies *)

Lemma store_hasEntry dep l n ty :
  hasEntry n ty (store dep l)
  = hasEntry n ty l
    || (String.eqb (name dep) n && DependencyType_eqb (type dep) ty).
Proof.
  unfold hasEntry. induction l as [|d l IH]; simpl.
  - now rewrite orb_false_r.
  - destruct (sameKey d dep) eqn:E; simpl.
    + unfold sameKey in E. apply andb_true_iff in E as [E1 E2].
      apply String.eqb_eq in E1.
      assert (type d = type dep) as E3 by (destruct (type d), (type dep); trivial; discriminate).
      rewrite E1, E3.
      destruct (String.eqb (name dep) n && DependencyType_eqb (type dep) ty);
        simpl; [reflexivity | now rewrite orb_false_r].
    + rewrite IH. now rewrite orb_assoc.
Qed.

Lemma addDependency_hasEntry spec ty l n ty' :
  hasEntry n ty' (addDependency spec ty l)
  = hasEntry n ty' l
    || (String.eqb (fst (parseDependency spec)) n && DependencyType_eqb ty ty').
Proof.
  unfold addDependency. destruct (parseDependency spec) as [m v].
  now rewrite store_hasEntry.
Qed.

Lemma DependencyType_eqb_refl ty : DependencyType_eqb ty ty = true.
Proof. destruct ty; reflexivity. Qed.

Lemma addAll_hasEntry ty deps l dep :
  In dep deps ->
  hasEntry (fst (parseDependency dep)) ty
    (fold_left (fun l dep => addDependency dep ty l) deps l) = true.
Proof.
  assert (Hkeep : forall deps l n,
             hasEntry n ty l = true ->
             hasEntry n ty (fold_left (fun l dep => addDependency dep ty l) deps l)
             = true).
  { intros ds. induction ds as [|d ds IH]; intros l0 n H; simpl; [exact H|].
    apply IH. rewrite addDependency_hasEntry, H. reflexivity. }
  revert l. induction deps as [|d deps IH]; intros l Hin; simpl in *;
    [contradiction|].
  destruct Hin as [<-|Hin].
  - apply Hkeep. rewrite addDependency_hasEntry, String.eqb_refl,
      DependencyType_eqb_refl. apply orb_true_r.
  - now apply IH.
Qed.

Lemma arrayKeys_length deps : List.length (arrayKeys deps) = List.length deps.
Proof. unfold arrayKeys. now rewrite length_map, length_seq. Qed.

(** C9: in a package that does not allow library dependencies,
    [addPeerDeps] and [addBundledDeps] throw exactly when they are given
    at least one dependency, and with none they succeed and leave the
    ledger as it is; [addDeps] and [addDevDeps] have no such check (and
    no way to fail): every dependency they are given ends up in the
    ledger under its role. *)
Theorem library_dependency_guard (this : NpmPackage) (deps : list string)
  (l : Ledger) :
  allowLibraryDependencies this = false ->
  (throws (addPeerDeps this deps l) <-> deps <> [])
  /\ (throws (addBundledDeps this deps l) <-> deps <> [])
  /\ addPeerDeps this [] l = Ok l
  /\ addBundledDeps this [] l = Ok l
  /\ (forall dep, In dep deps ->
        hasEntry (fst (parseDependency dep)) RUNTIME (addDeps deps l) = true)
  /\ (forall dep, In dep deps ->
        hasEntry (fst (parseDependency dep)) BUILD (addDevDeps deps l) = true).
Proof.
  intro Hallow. unfold addPeerDeps, addBundledDeps, throws.
  rewrite arrayKeys_length, Hallow.
  repeat split.
  - intros [e H] ->. discriminate.
  - intro H. destruct deps; [contradiction|]. simpl. eauto.
  - intros [e H] ->. discriminate.
  - intro H. destruct deps; [contradiction|]. simpl. eauto.
  - intros dep Hin. now apply addAll_hasEntry.
  - intros dep Hin. now apply addAll_hasEntry.
Qed.

Lemma library_dependency_guard_witness :
  throws (addPeerDeps appPackage ["react@^16"] [])
  /\ addBundledDeps appPackage [] [] = Ok []
  /\ hasEntry "left-pad" RUNTIME (addDeps ["left-pad"] []) = true.
Proof.
  destruct (library_dependency_guard appPackage ["react@^16"] [] eq_refl)
    as (Hpeer & _ & _ & Hbundled & _).
  destruct (library_dependency_guard appPackage ["left-pad"] [] eq_refl)
    as (_ & _ & _ & _ & Hdeps & _).
  split; [apply Hpeer; discriminate|].
  split; [exact Hbundled|].
  apply (Hdeps "left-pad"). now left.
Defined.

(* ------------------------------------------------------------------ *)
(** ** The ledger *)

Lemma splitLast_None s : hasAt s = false -> splitLast s = None.
Proof.
  induction s as [|c s IH]; simpl; [reflexivity|].
  intro H. apply orb_false_iff in H as [H1 H2].
  now rewrite (IH H2), H1.
Qed.

Lemma splitLast_append a v :
  hasAt v = false -> splitLast (a ++ "@" ++ v) = Some (a, v).
Proof.
  intro Hv. change ("@" ++ v) with (String "@"%char v).
  induction a as [|c a IH]; simpl.
  - now rewrite (splitLast_None v Hv).
  - now rewrite IH.
Qed.

Lemma parseDependency_name n :
  packageName n = true -> parseDependency n = (n, None).
Proof.
  destruct n as [|c rest]; simpl; [discriminate|].
  intro H. apply negb_true_iff in H. now rewrite (splitLast_None rest H).
Qed.

Lemma parseDependency_pinned n v :
  n <> EmptyString -> hasAt v = false ->
  parseDependency (n ++ "@" ++ v) = (n, Some v).
Proof.
  destruct n as [|c rest]; [congruence|]. intros _ Hv.
  change (parseDependency (String c rest ++ "@" ++ v))
    with (match splitLast (rest ++ "@" ++ v) with
          | Some (a, b) => (String c a, Some b)
          | None => (String c (rest ++ "@" ++ v), None)
          end).
  now rewrite (splitLast_append rest v Hv).
Qed.

Lemma sameKey_true d e :
  sameKey d e = true <-> name d = name e /\ type d = type e.
Proof.
  unfold sameKey. rewrite andb_true_iff, String.eqb_eq.
  destruct (type d), (type e); simpl; intuition; discriminate.
Qed.

Lemma store_In_self dep l : In dep (store dep l).
Proof.
  induction l as [|d l IH]; simpl; [now left|].
  destruct (sameKey d dep); [now left | now right].
Qed.

Lemma store_In_other dep d l :
  In d l -> sameKey d dep = false -> In d (store dep l).
Proof.
  induction l as [|x l IH]; simpl; [tauto|].
  intros [->|H] Hk.
  - rewrite Hk. now left.
  - destruct (sameKey x dep); [now right | right; auto].
Qed.

Lemma store_In_inv dep d l : In d (store dep l) -> d = dep \/ In d l.
Proof.
  induction l as [|x l IH]; simpl.
  - intros [<-|[]]. now left.
  - destruct (sameKey x dep); simpl.
    + intros [<-|H]; auto.
    + intros [<-|H]; auto. destruct (IH H); auto.
Qed.

Lemma store_isPeer dep l :
  type dep <> PEER -> filter isPeer (store dep l) = filter isPeer l.
Proof.
  intro Hty. induction l as [|d l IH]; simpl.
  - unfold isPeer. destruct (type dep); trivial. congruence.
  - destruct (sameKey d dep) eqn:E; simpl.
    + apply sameKey_true in E as [_ E].
      unfold isPeer. rewrite E. destruct (type dep); trivial. congruence.
    + now rewrite IH.
Qed.

Lemma hasEntry_In n ty l :
  hasEntry n ty l = true <-> exists d, In d l /\ name d = n /\ type d = ty.
Proof.
  unfold hasEntry. rewrite existsb_exists. split.
  - intros [d [Hd E]]. apply andb_true_iff in E as [E1 E2].
    apply String.eqb_eq in E1. exists d. repeat split; trivial.
    destruct (type d), ty; trivial; discriminate.
  - intros [d [Hd [<- <-]]]. exists d. split; [exact Hd|].
    now rewrite String.eqb_refl, DependencyType_eqb_refl.
Qed.

Lemma store_distinctKeys dep l :
  distinctKeys l = true -> distinctKeys (store dep l) = true.
Proof.
  induction l as [|d l IH]; simpl; [reflexivity|].
  intro H. apply andb_true_iff in H as [H1 H2].
  destruct (sameKey d dep) eqn:E; simpl.
  - apply sameKey_true in E as [E1 E2]. rewrite <- E1, <- E2, H1, H2. reflexivity.
  - rewrite (IH H2), andb_true_r. rewrite store_hasEntry.
    apply negb_true_iff in H1. rewrite H1. simpl.
    apply negb_true_iff.
    destruct (String.eqb (name dep) (name d) && DependencyType_eqb (type dep) (type d)) eqn:E2;
      trivial.
    apply andb_true_iff in E2 as [E3 E4]. apply String.eqb_eq in E3.
    assert (sameKey d dep = true); [|congruence].
    apply sameKey_true. split; [congruence|].
    destruct (type d), (type dep); trivial; discriminate.
Qed.

(** [addDependency] keeps the keys of the ledger distinct. *)
Lemma addDependency_distinctKeys spec ty l :
  distinctKeys l = true -> distinctKeys (addDependency spec ty l) = true.
Proof.
  unfold addDependency. destruct (parseDependency spec) as [n v].
  apply store_distinctKeys.
Qed.

Lemma distinctKeys_unique l d e :
  distinctKeys l = true -> In d l -> In e l ->
  name d = name e -> type d = type e -> d = e.
Proof.
  induction l as [|x l IH]; simpl; [tauto|].
  intro H. apply andb_true_iff in H as [H1 H2]. apply negb_true_iff in H1.
  intros [->|Hd] [->|He] Hn Ht; trivial.
  - exfalso. assert (hasEntry (name d) (type d) l = true); [|congruence].
    apply hasEntry_In. exists e. auto.
  - exfalso. assert (hasEntry (name e) (type e) l = true); [|congruence].
    apply hasEntry_In. exists d. auto.
  - auto.
Qed.

Lemma sameKey_congr a e x : sameKey a e = true -> sameKey x a = sameKey x e.
Proof.
  intro H. apply sameKey_true in H as [H1 H2]. unfold sameKey. now rewrite H1, H2.
Qed.

Lemma sameKey_sym a e : sameKey a e = sameKey e a.
Proof.
  unfold sameKey. rewrite String.eqb_sym. f_equal.
  destruct (type a), (type e); reflexivity.
Qed.

Lemma store_overwrite a e l : sameKey a e = true -> store a (store e l) = store a l.
Proof.
  intro H. induction l as [|x l IH]; simpl.
  - now rewrite sameKey_sym, H.
  - rewrite (sameKey_congr a e x H).
    destruct (sameKey x e) eqn:E; simpl.
    + now rewrite sameKey_sym, H.
    + now rewrite (sameKey_congr a e x H), E, IH.
Qed.

Lemma store_commute a e l :
  sameKey a e = false -> hasEntry (name a) (type a) l = true ->
  store a (store e l) = store e (store a l).
Proof.
  intros Hae Hin. induction l as [|x l IH]; simpl; [discriminate|].
  destruct (sameKey x e) eqn:Exe; destruct (sameKey x a) eqn:Exa; simpl.
  - exfalso. apply sameKey_true in Exe as [? ?], Exa as [? ?].
    assert (sameKey a e = true) by (apply sameKey_true; split; congruence).
    congruence.
  - now rewrite Exe, (sameKey_sym e a), Hae.
  - now rewrite Exa, Hae.
  - rewrite Exa, Exe. f_equal. apply IH.
    unfold hasEntry in *. simpl in Hin. apply orb_true_iff in Hin as [Hin|Hin]; trivial.
    exfalso. unfold sameKey in Exa.
    rewrite Exa in Hin. discriminate.
Qed.

Lemma storeAll_hasEntry es l n ty :
  hasEntry n ty l = true -> hasEntry n ty (storeAll es l) = true.
Proof.
  revert l. induction es as [|e es IH]; intros l H; simpl; [exact H|].
  apply IH. rewrite store_hasEntry, H. reflexivity.
Qed.

Lemma storeAll_present es l e :
  In e es -> hasEntry (name e) (type e) (storeAll es l) = true.
Proof.
  revert l. induction es as [|x es IH]; intros l Hin; simpl in *; [contradiction|].
  destruct Hin as [->|Hin]; [|now apply IH].
  apply storeAll_hasEntry. rewrite store_hasEntry, String.eqb_refl,
    DependencyType_eqb_refl. apply orb_true_r.
Qed.

(** Storing [e] again after more entries were overwritten in place gives
    what storing it once gives. *)
Lemma store_absorbs e es l :
  (forall x, In x es -> hasEntry (name x) (type x) l = true) ->
  store e (storeAll es (store e l)) = store e (storeAll es l).
Proof.
  revert l. induction es as [|a es IH]; intros l Hpres; simpl.
  - apply store_overwrite. apply sameKey_true. auto.
  - destruct (sameKey a e) eqn:E.
    + rewrite (store_overwrite a e l E). reflexivity.
    + rewrite (store_commute a e l E) by (apply Hpres; now left).
      apply IH. intros x Hx. rewrite store_hasEntry.
      rewrite (Hpres x (or_intror Hx)). reflexivity.
Qed.

(** Storing the same entries a second time changes nothing. *)
Lemma storeAll_idempotent es l : storeAll es (storeAll es l) = storeAll es l.
Proof.
  assert (Happ : forall es e l, storeAll (es ++ [e]) l = store e (storeAll es l))
    by (intros; unfold storeAll; now rewrite fold_left_app).
  induction es as [|e es IH] using rev_ind; [reflexivity|].
  rewrite !Happ, store_absorbs.
  - now rewrite IH.
  - intros x Hx. now apply storeAll_present.
Qed.

(* ------------------------------------------------------------------ *)
(** ** The first loop of [renderDependencies]: pinned peers *)

Section PinFacts.
Variable minVersion : string -> Result (option string).

(** The three ways the requirement of a peer comes out: a requirement,
    the error of the code for a range without a minimum, or the error
    semver raised on the range. *)
Lemma pinRequirement_cases d :
  (resolvable minVersion d = true /\ exists req, pinRequirement minVersion d = Ok req)
  \/ (resolvable minVersion d = false
      /\ ((exists range,
             declaredRange d = Some range
             /\ (minVersion range = Ok None \/ minVersion range = Ok (Some EmptyString))
             /\ pinRequirement minVersion d
                = Throw (ResolutionError
                           ("unable to determine minimum semver for peer dependency "
                            ++ name d ++ "@" ++ range)))
          \/ (exists e, rejected minVersion d e
                        /\ pinRequirement minVersion d = Throw e))).
Proof.
  unfold resolvable, rejected, minimum, declaredRange, pinRequirement.
  destruct (version d) as [range|]; [|left; eauto].
  destruct (truthy range); [|left; eauto].
  destruct (minVersion range) as [[ver|]|e] eqn:Emv; cbn [bind].
  - destruct ver as [|c ver]; cbn [truthy].
    + right. split; [reflexivity|]. left. exists range.
      split; [reflexivity|]. split; [now right|reflexivity].
    + left. eauto.
  - right. split; [reflexivity|]. left. exists range.
    split; [reflexivity|]. split; [now left|reflexivity].
  - right. split; [reflexivity|]. right. exists e. split; [|reflexivity].
    exists range. split; [reflexivity|exact Emv].
Qed.

Lemma addDevDeps_one req l :
  addDevDeps [req] l
  = store {| name := fst (parseDependency req);
             version := snd (parseDependency req);
             type := BUILD |} l.
Proof.
  unfold addDevDeps, addDependency. simpl.
  destruct (parseDependency req); reflexivity.
Qed.

Lemma storeAll_isPeer es l :
  Forall (fun e => type e = BUILD) es ->
  filter isPeer (storeAll es l) = filter isPeer l.
Proof.
  intro H. revert l. induction H as [|e es He _ IH]; intro l; simpl; [reflexivity|].
  rewrite IH. apply store_isPeer. rewrite He. discriminate.
Qed.

(** What the loop does to the ledger is to store a list of build
    entries that depends on the peers only. *)
Lemma pinPeers_storeAll peers l l' :
  pinPeers minVersion peers l = Ok l' ->
  exists es,
    Forall (fun e => type e = BUILD) es
    /\ forall l0, pinPeers minVersion peers l0 = Ok (storeAll es l0).
Proof.
  revert l l'. induction peers as [|d peers IH]; intros l l' H; simpl in *.
  - exists []. split; [constructor | reflexivity].
  - destruct (pinRequirement minVersion d) as [req|e] eqn:E; simpl in *;
      [|discriminate].
    destruct (IH _ _ H) as [es [Hty Hes]].
    exists ({| name := fst (parseDependency req);
               version := snd (parseDependency req);
               type := BUILD |} :: es).
    split; [constructor; trivial|].
    intro l0. rewrite Hes. unfold storeAll, addDependency. simpl.
    destruct (parseDependency req); reflexivity.
Qed.

(** Running the loop again on the ledger it produced changes nothing. *)
Lemma pinPeers_idempotent l l' :
  pinPeers minVersion (filter isPeer (all l)) l = Ok l' ->
  pinPeers minVersion (filter isPeer (all l')) l' = Ok l'.
Proof.
  intro H. destruct (pinPeers_storeAll _ _ _ H) as [es [Hty Hes]].
  rewrite Hes in H. injection H as <-.
  unfold all. rewrite storeAll_isPeer by exact Hty.
  rewrite Hes. now rewrite storeAll_idempotent.
Qed.

(** The loop stops at the first peer whose requirement fails, with the
    error of that peer. *)
Lemma pinPeers_first_failure before d after l e :
  (forall x, In x before -> resolvable minVersion x = true) ->
  pinRequirement minVersion d = Throw e ->
  pinPeers minVersion (before ++ d :: after) l = Throw e.
Proof.
  revert l. induction before as [|x before IH]; intros l Hres Hd; cbn [app pinPeers].
  - now rewrite Hd.
  - destruct (pinRequirement_cases x) as [[_ [req ->]]|[Hx _]]; cbn [bind].
    + apply IH; [|exact Hd]. intros y Hy. apply Hres. now right.
    + rewrite (Hres x (or_introl eq_refl)) in Hx. discriminate.
Qed.

Lemma pinPeers_cases peers l :
  (exists l', pinPeers minVersion peers l = Ok l')
  \/ (exists msg, pinPeers minVersion peers l = Throw (ResolutionError msg))
  \/ (exists d e, In d peers /\ rejected minVersion d e
                  /\ pinPeers minVersion peers l = Throw e).
Proof.
  revert l. induction peers as [|d peers IH]; intro l; simpl; [left; eauto|].
  destruct (pinRequirement_cases d)
    as [[_ [req ->]]|[_ [[range [_ [_ ->]]]|[e [He ->]]]]]; simpl.
  - destruct (IH (addDevDeps [req] l)) as [H|[H|[x [e [Hx [He H]]]]]]; auto.
    right. right. exists x, e. auto.
  - right. left. eauto.
  - right. right. exists d, e. auto.
Qed.

Lemma pinPeers_total peers l :
  (forall d, In d peers -> resolvable minVersion d = true) ->
  exists l', pinPeers minVersion peers l = Ok l'.
Proof.
  revert l. induction peers as [|d peers IH]; intros l H; simpl; [eauto|].
  destruct (pinRequirement_cases d) as [[_ [req ->]]|[Hd _]]; simpl.
  - apply IH. intros x Hx. apply H. now right.
  - rewrite (H d (or_introl eq_refl)) in Hd. discriminate.
Qed.

Lemma pinPeers_throws peers l d :
  In d peers -> resolvable minVersion d = false ->
  (exists msg, pinPeers minVersion peers l = Throw (ResolutionError msg))
  \/ (exists d' e, In d' peers /\ rejected minVersion d' e
                   /\ pinPeers minVersion peers l = Throw e).
Proof.
  intros Hin Hd.
  destruct (pinPeers_cases peers l) as [[l' H]|H]; [|exact H].
  exfalso. revert l H. induction peers as [|x peers IH]; intros l H; simpl in *;
    [contradiction|].
  destruct (pinRequirement_cases x) as [[Hx [req E]]|[_ [[range [_ [_ E]]]|[e [_ E]]]]];
    rewrite E in H; simpl in H; try discriminate.
  destruct Hin as [->|Hin]; [congruence|]. eapply IH; eauto.
Qed.

Hypothesis minVersion_plain :
  forall range ver, minVersion range = Ok (Some ver) -> plainVersion ver = true.

Lemma pin_step d req l :
  packageName (name d) = true ->
  pinRequirement minVersion d = Ok req ->
  addDevDeps [req] l = store (pinEntry minVersion d) l.
Proof.
  intros Hname Hreq. rewrite addDevDeps_one. f_equal.
  unfold pinRequirement in Hreq. unfold pinEntry, minimum, declaredRange.
  destruct (version d) as [range|].
  - destruct (truthy range).
    + destruct (minVersion range) as [[ver|]|e] eqn:Emv; cbn [bind] in Hreq;
        try discriminate.
      destruct (truthy ver); [|discriminate]. injection Hreq as <-.
      pose proof (minVersion_plain _ _ Emv) as Hp. unfold plainVersion in Hp.
      apply andb_true_iff in Hp as [Hp _]. apply andb_true_iff in Hp as [_ Hp].
      apply negb_true_iff in Hp.
      change (name d ++ String "@"%char ver) with (name d ++ "@" ++ ver).
      rewrite parseDependency_pinned; trivial.
      destruct (name d); [discriminate | congruence].
    + injection Hreq as <-. now rewrite parseDependency_name.
  - injection Hreq as <-. now rewrite parseDependency_name.
Qed.

(** On a ledger of packages the loop stores the pin of every peer. *)
Lemma pinPeers_pins peers l l' :
  (forall d, In d peers -> packageName (name d) = true) ->
  pinPeers minVersion peers l = Ok l' ->
  l' = storeAll (map (pinEntry minVersion) peers) l.
Proof.
  revert l. induction peers as [|d peers IH]; intros l Hn H.
  - simpl in H. now injection H.
  - cbn [pinPeers] in H.
    destruct (pinRequirement minVersion d) as [req|e] eqn:E; cbn [bind] in H;
      [|discriminate].
    rewrite (pin_step d req l (Hn d (or_introl eq_refl)) E) in H.
    simpl. apply IH; [|exact H]. intros x Hx. apply Hn. now right.
Qed.

End PinFacts.

(* ------------------------------------------------------------------ *)
(** ** The second loop of [renderDependencies]: the buckets *)

Lemma findPeer_hasEntry l n :
  (exists p, findPeer l n = Some p) <-> hasEntry n PEER l = true.
Proof.
  unfold findPeer, hasEntry, all. induction l as [|d l IH]; simpl.
  - split; [intros [p H]; discriminate | discriminate].
  - destruct (String.eqb (name d) n && DependencyType_eqb (type d) PEER); simpl.
    + split; eauto.
    + exact IH.
Qed.

Lemma findPeer_None l n : findPeer l n = None <-> hasEntry n PEER l = false.
Proof.
  pose proof (findPeer_hasEntry l n) as H.
  destruct (findPeer l n) as [p|]; destruct (hasEntry n PEER l); split; trivial;
    try discriminate; intros _; exfalso.
  - assert (true = false) by (rewrite <- (proj1 H); eauto). discriminate.
  - destruct (proj2 H eq_refl). discriminate.
Qed.

Lemma fillBuckets_cases l todo acc :
  (exists acc', fillBuckets l todo acc = Ok acc')
  \/ (exists msg, fillBuckets l todo acc = Throw (ConflictError msg)).
Proof.
  revert acc. induction todo as [|d todo IH]; intros [maps bundled]; simpl;
    [left; eauto|].
  destruct (type d); try apply IH.
  destruct (findPeer l (name d)); [right; eauto | apply IH].
Qed.

Lemma fillBuckets_total l todo acc :
  (forall d, In d todo -> type d = BUNDLED -> hasEntry (name d) PEER l = false) ->
  exists acc', fillBuckets l todo acc = Ok acc'.
Proof.
  revert acc. induction todo as [|d todo IH]; intros [maps bundled] H; simpl;
    [eauto|].
  assert (Hrest : forall x, In x todo -> type x = BUNDLED ->
                            hasEntry (name x) PEER l = false)
    by (intros x Hx; apply H; now right).
  destruct (type d) eqn:E; try (apply IH; exact Hrest).
  rewrite (proj2 (findPeer_None l (name d)) (H d (or_introl eq_refl) E)).
  apply IH; exact Hrest.
Qed.

Lemma fillBuckets_conflict l todo acc d :
  In d todo -> type d = BUNDLED -> hasEntry (name d) PEER l = true ->
  exists msg, fillBuckets l todo acc = Throw (ConflictError msg).
Proof.
  intros Hin Hty Hpeer.
  destruct (fillBuckets_cases l todo acc) as [[acc' H]|H]; [|exact H].
  exfalso. revert acc H. induction todo as [|x todo IH]; intros [maps bundled] H;
    simpl in *; [contradiction|].
  destruct Hin as [->|Hin].
  - rewrite Hty in H. apply findPeer_hasEntry in Hpeer as [p Hp].
    rewrite Hp in H. discriminate.
  - destruct (type x); try (eapply IH; eauto; fail).
    destruct (findPeer l (name x)); [discriminate | eapply IH; eauto].
Qed.

(** A successful loop has made the assignments [writes b todo] to each
    map [b] and appended the bundled names. *)
Lemma fillBuckets_writes l todo maps bundled maps' bundled' :
  fillBuckets l todo (maps, bundled) = Ok (maps', bundled') ->
  (forall b, bucket b maps' = fold_left assign (writes b todo) (bucket b maps))
  /\ bundled' = (bundled ++ map name (filter isBundled todo))%list.
Proof.
  revert maps bundled. induction todo as [|d todo IH]; intros maps bundled H.
  - simpl in H. injection H as <- <-. split; [reflexivity|].
    simpl. now rewrite app_nil_r.
  - cbn [fillBuckets] in H. unfold writes, isBundled. cbn [filter].
    destruct (type d) eqn:E; cbn [bucketOf DependencyType_eqb];
      try (destruct (findPeer l (name d)); [discriminate|]);
      apply IH in H as [H1 H2]; (split; [intro b; rewrite H1; destruct b; reflexivity|]);
      rewrite H2; try reflexivity.
    simpl. now rewrite <- app_assoc.
Qed.

(* ------------------------------------------------------------------ *)
(** ** Reconciliation with the manifest on disk *)

Section ReadDepsFacts.
Variable current : option JsObject.t.

Lemma readDeps_fst user :
  fst (readDeps user current) = fold_left (keepStep current) (JsObject.entries user) user.
Proof.
  unfold readDeps, keepStep, currentAt. destruct current; reflexivity.
Qed.

Lemma keepStep_keys E user :
  (forall e, In e E -> In (fst e) (map fst user)) ->
  map fst (fold_left (keepStep current) E user) = map fst user.
Proof.
  revert user. induction E as [|e E IH]; intros user H; simpl; [reflexivity|].
  assert (Hk : map fst ((keepStep current) user e) = map fst user).
  { unfold keepStep. destruct (keepCurrent _ _); [|reflexivity].
    apply set_present. apply H. now left. }
  rewrite IH; [exact Hk|]. intros x Hx. rewrite Hk. apply H. now right.
Qed.

Lemma keepStep_get E user k :
  NoDup (map fst E) ->
  JsObject.get (fold_left (keepStep current) E user) k
  = match JsObject.get E k with
    | Some u =>
        match keepCurrent u (currentAt current k) with
        | Some c => Some c
        | None => JsObject.get user k
        end
    | None => JsObject.get user k
    end.
Proof.
  revert user. induction E as [|[n u] E IH]; intros user Hn; simpl; [reflexivity|].
  inversion Hn as [|? ? Hnotin Hn']. subst.
  rewrite IH by exact Hn'. unfold keepStep at 1 2. simpl.
  destruct (String.eqb n k) eqn:E1.
  - apply String.eqb_eq in E1. subst n.
    apply get_None in Hnotin. rewrite Hnotin.
    destruct (keepCurrent u (currentAt current k)); [|reflexivity].
    now rewrite get_set, String.eqb_refl.
  - destruct (keepCurrent u (currentAt current n)).
    + rewrite get_set, E1. reflexivity.
    + reflexivity.
Qed.

Lemma readDeps_keys user : map fst (fst (readDeps user current)) = map fst user.
Proof.
  rewrite readDeps_fst. apply keepStep_keys.
  intros e He. eapply Permutation_in; [symmetry; apply Permutation_map, entries_perm|].
  now apply in_map.
Qed.

Lemma readDeps_get user k :
  NoDup (map fst user) ->
  JsObject.get (fst (readDeps user current)) k
  = option_map (fun u => reconciledVersion u (currentAt current k))
               (JsObject.get user k).
Proof.
  intro Hn. rewrite readDeps_fst, keepStep_get by now apply entries_NoDup.
  rewrite get_entries by exact Hn. unfold reconciledVersion.
  destruct (JsObject.get user k) as [u|]; simpl; [|reflexivity].
  destruct (keepCurrent u (currentAt current k)); reflexivity.
Qed.

End ReadDepsFacts.

Lemma ofList_keys_NoDup l : NoDup (map fst (JsObject.ofList l)).
Proof.
  unfold JsObject.ofList.
  apply (set_fold_NoDup (fun e => snd e)). constructor.
Qed.

Lemma reconcile_keys root b fresh :
  map fst (reconcile root b fresh) = map fst fresh.
Proof.
  unfold reconcile. destruct root; [apply readDeps_keys | reflexivity].
Qed.

Lemma reconcile_get root b fresh k :
  NoDup (map fst fresh) ->
  JsObject.get (reconcile root b fresh) k
  = option_map
      (fun u => reconciledVersion u
                  (match root with
                   | Some pkg => currentAt (priorBucket b pkg) k
                   | None => None
                   end))
      (JsObject.get fresh k).
Proof.
  intro Hn. unfold reconcile. destruct root as [pkg|].
  - now apply readDeps_get.
  - destruct (JsObject.get fresh k); reflexivity.
Qed.

(** [renderDependencies] in three phases. *)
Lemma renderDependencies_Ok minVersion this root l r :
  renderDependencies minVersion this root l = Ok r ->
  exists maps,
    pinPhase minVersion this l = Ok (ledger r)
    /\ fillBuckets (ledger r) (all (ledger r)) (emptyDependencies, [])
       = Ok (maps, bundledDependencies r)
    /\ forall b, bucket b (rendered r) = reconcile root b (bucket b maps).
Proof.
  unfold renderDependencies, pinPhase.
  destruct (if pinned this then _ else _) as [l1|e]; cbn [bind]; [|discriminate].
  destruct (fillBuckets l1 (all l1) (emptyDependencies, [])) as [[maps bundled]|e] eqn:E;
    cbn [bind]; [|discriminate].
  destruct root as [pkg|].
  - destruct (readDeps (devDependencies maps) (pkg_devDependencies pkg))
      as [dev log1] eqn:E1.
    destruct (readDeps (dependencies maps) (pkg_dependencies pkg))
      as [deps log2] eqn:E2.
    destruct (readDeps (peerDependencies maps) (pkg_peerDependencies pkg))
      as [peer log3] eqn:E3.
    intros [= <-]. cbn [ledger bundledDependencies rendered].
    exists maps. repeat split; trivial.
    intros []; cbn [bucket reconcile priorBucket dependencies devDependencies
                    peerDependencies];
      [now rewrite E2 | now rewrite E1 | now rewrite E3].
  - intros [= <-]. cbn [ledger bundledDependencies rendered].
    exists maps. repeat split; trivial.
Qed.

Lemma renderDependencies_total minVersion this root l l1 acc :
  pinPhase minVersion this l = Ok l1 ->
  fillBuckets l1 (all l1) (emptyDependencies, []) = Ok acc ->
  exists r, renderDependencies minVersion this root l = Ok r.
Proof.
  unfold renderDependencies, pinPhase. intros -> H. cbn [bind]. rewrite H.
  cbn [bind]. destruct acc as [maps bundled]. destruct root as [pkg|]; [|eauto].
  destruct (readDeps (devDependencies maps) (pkg_devDependencies pkg)).
  destruct (readDeps (dependencies maps) (pkg_dependencies pkg)).
  destruct (readDeps (peerDependencies maps) (pkg_peerDependencies pkg)). eauto.
Qed.

Lemma renderDependencies_pin_throws minVersion this root l e :
  pinPhase minVersion this l = Throw e ->
  renderDependencies minVersion this root l = Throw e.
Proof.
  unfold renderDependencies, pinPhase. now intros ->.
Qed.

Lemma renderDependencies_fill_throws minVersion this root l l1 e :
  pinPhase minVersion this l = Ok l1 ->
  fillBuckets l1 (all l1) (emptyDependencies, []) = Throw e ->
  renderDependencies minVersion this root l = Throw e.
Proof.
  unfold renderDependencies, pinPhase. intros -> H. simpl. now rewrite H.
Qed.

Lemma set_fold_get_const (E : list (string * string)) o k v :
  (forall e, In e E -> fst e = k -> snd e = v) ->
  JsObject.get o k = Some v \/ In k (map fst E) ->
  JsObject.get (fold_left assign E o) k = Some v.
Proof.
  revert o. induction E as [|[n u] E IH]; intros o Hall H; simpl.
  - destruct H as [H|[]]. exact H.
  - apply IH; [intros e He; apply Hall; now right|].
    unfold assign at 1. simpl. rewrite get_set.
    destruct (String.eqb n k) eqn:E1.
    + left. apply String.eqb_eq in E1. f_equal.
      exact (Hall (n, u) (or_introl eq_refl) E1).
    + apply String.eqb_neq in E1. simpl in H.
      destruct H as [H|[H|H]]; auto. contradiction.
Qed.

Lemma writes_In b todo n v :
  In (n, v) (writes b todo)
  <-> exists d, In d todo /\ name d = n /\ versionOrWildcard d = v
                /\ bucketOf (type d) = b.
Proof.
  unfold writes. rewrite in_map_iff. split.
  - intros [d [[= <- <-] Hd]]. apply filter_In in Hd as [Hd Hb].
    exists d. repeat split; trivial.
    destruct (bucketOf (type d)), b; trivial; discriminate.
  - intros [d [Hd [<- [<- <-]]]]. exists d. split; [reflexivity|].
    apply filter_In. split; [exact Hd|]. destruct (bucketOf (type d)); reflexivity.
Qed.

Lemma writes_keys b todo n :
  In n (map fst (writes b todo))
  <-> exists d, In d todo /\ name d = n /\ bucketOf (type d) = b.
Proof.
  rewrite in_map_iff. split.
  - intros [[m v] [<- H]]. apply writes_In in H as [d [H1 [H2 [_ H3]]]]. eauto.
  - intros [d [H1 [H2 H3]]]. exists (n, versionOrWildcard d). split; [reflexivity|].
    apply writes_In. eauto.
Qed.

(** The maps of a successful rendering, from the ledger it leaves. *)
Lemma rendered_bucket minVersion this root l r :
  renderDependencies minVersion this root l = Ok r ->
  (forall b, bucket b (rendered r)
             = reconcile root b (JsObject.ofList (writes b (ledger r))))
  /\ bundledDependencies r = map name (filter isBundled (ledger r)).
Proof.
  intro H. apply renderDependencies_Ok in H as [maps [_ [Hfill Hrec]]].
  apply fillBuckets_writes in Hfill as [Hw Hb]. split; [|exact Hb].
  intro b. rewrite Hrec, Hw. destruct b; reflexivity.
Qed.

Lemma rendered_keys minVersion this root l r b n :
  renderDependencies minVersion this root l = Ok r ->
  In n (JsObject.keys (bucket b (rendered r)))
  <-> exists d, In d (ledger r) /\ name d = n /\ bucketOf (type d) = b.
Proof.
  intro H. apply rendered_bucket in H as [H _].
  rewrite keys_In, H, reconcile_keys. unfold JsObject.ofList.
  rewrite (set_fold_keys (fun e => snd e)). simpl.
  rewrite writes_keys. intuition.
Qed.

(** The value under [n] when every entry of the ledger that writes [n]
    into the map [b] writes [v]. *)
Lemma rendered_get minVersion this root l r b n v :
  renderDependencies minVersion this root l = Ok r ->
  (exists d, In d (ledger r) /\ name d = n /\ bucketOf (type d) = b) ->
  (forall d, In d (ledger r) -> name d = n -> bucketOf (type d) = b ->
             versionOrWildcard d = v) ->
  JsObject.get (bucket b (rendered r)) n
  = Some (reconciledVersion v
            (match root with
             | Some pkg => currentAt (priorBucket b pkg) n
             | None => None
             end)).
Proof.
  intros H Hex Hall. apply rendered_bucket in H as [H _].
  rewrite H, reconcile_get by apply ofList_keys_NoDup.
  change (JsObject.ofList (writes b (ledger r)))
    with (fold_left assign (writes b (ledger r)) JsObject.empty).
  rewrite (set_fold_get_const (writes b (ledger r)) JsObject.empty n v);
    [reflexivity| |].
  - intros [m u] He Hm. simpl in *. subst m.
    apply writes_In in He as [d [H1 [H2 [H3 H4]]]]. rewrite <- H3. auto.
  - right. now apply writes_keys.
Qed.

Lemma reconciledVersion_explicit u c :
  u <> "*" -> reconciledVersion u c = u.
Proof.
  intro H. unfold reconciledVersion, keepCurrent. destruct c as [c|]; [|reflexivity].
  apply String.eqb_neq in H. now rewrite H.
Qed.

Lemma reconciledVersion_kept c :
  truthy c = true -> c <> "*" -> reconciledVersion "*" (Some c) = c.
Proof.
  intros Ht H. unfold reconciledVersion, keepCurrent.
  apply String.eqb_neq in H. now rewrite Ht, H.
Qed.

(* ------------------------------------------------------------------ *)
(** ** Rendering the dependencies *)



Lemma storeAll_In_inv es l d : In d (storeAll es l) -> In d es \/ In d l.
Proof.
  revert l. induction es as [|e es IH]; intros l H; simpl in *; [now right|].
  destruct (IH _ H) as [H1|H1]; [now left; right|].
  destruct (store_In_inv _ _ _ H1); [left; left; congruence | now right].
Qed.

Lemma storeAll_hasEntry_other es l n ty :
  Forall (fun e => type e = BUILD) es -> ty <> BUILD ->
  hasEntry n ty (storeAll es l) = hasEntry n ty l.
Proof.
  intros H Hty. revert l. induction H as [|e es He _ IH]; intro l; simpl;
    [reflexivity|].
  rewrite IH, store_hasEntry, He.
  destruct ty; try congruence; simpl; now rewrite andb_false_r, orb_false_r.
Qed.

(** The first phase only stores build entries. *)
Lemma pinPhase_storeAll minVersion this l l1 :
  pinPhase minVersion this l = Ok l1 ->
  exists es, Forall (fun e => type e = BUILD) es /\ l1 = storeAll es l.
Proof.
  unfold pinPhase. destruct (pinned this).
  - intro H. destruct (pinPeers_storeAll _ _ _ _ H) as [es [Hty Hes]].
    exists es. split; [exact Hty|]. rewrite Hes in H. now injection H.
  - intros [= <-]. exists []. split; [constructor | reflexivity].
Qed.

(** The first phase returns the ledger, or fails with the error of the
    code for a range without a minimum, or with the error semver raised
    on the range of a peer. *)
Lemma pinPhase_cases minVersion this l :
  (exists l1, pinPhase minVersion this l = Ok l1)
  \/ (exists msg, pinPhase minVersion this l = Throw (ResolutionError msg))
  \/ (exists d e, In d l /\ type d = PEER /\ rejected minVersion d e
                  /\ pinPhase minVersion this l = Throw e).
Proof.
  unfold pinPhase. destruct (pinned this); [|left; eauto].
  destruct (pinPeers_cases minVersion (filter isPeer (all l)) l)
    as [H|[H|[d [e [Hd [He H]]]]]]; auto.
  right. right. exists d, e. apply filter_In in Hd as [Hd Hp].
  repeat split; trivial. unfold isPeer in Hp. destruct (type d); trivial; discriminate.
Qed.

Lemma pinPhase_total minVersion this l :
  pinned this = false
  \/ (forall d, In d l -> type d = PEER -> resolvable minVersion d = true) ->
  exists l1, pinPhase minVersion this l = Ok l1.
Proof.
  unfold pinPhase. destruct (pinned this); [|eauto].
  intros [H|H]; [discriminate|]. apply pinPeers_total.
  intros d Hd. apply filter_In in Hd as [Hd Hp]. apply H; trivial.
  unfold isPeer in Hp. destruct (type d); trivial; discriminate.
Qed.

(** Resolvable peers and no bundled peer: the rendering succeeds. *)
Lemma rendering_succeeds minVersion this root l :
  pinned this = false
  \/ (forall d, In d l -> type d = PEER -> resolvable minVersion d = true) ->
  (forall d, In d l -> type d = BUNDLED -> hasEntry (name d) PEER l = false) ->
  exists r, renderDependencies minVersion this root l = Ok r.
Proof.
  intros Hres Hnone.
  destruct (pinPhase_total minVersion this l Hres) as [l1 Hpin].
  destruct (pinPhase_storeAll _ _ _ _ Hpin) as [es [Hty ->]].
  destruct (fillBuckets_total (storeAll es l) (all (storeAll es l))
              (emptyDependencies, [])) as [acc Hacc].
  - intros d Hd Ht. rewrite storeAll_hasEntry_other by (trivial; discriminate).
    apply Hnone; trivial.
    destruct (storeAll_In_inv _ _ _ Hd) as [H|H]; [|exact H].
    rewrite Forall_forall in Hty. rewrite (Hty d H) in Ht. discriminate.
  - eapply renderDependencies_total; eauto.
Qed.

(** C3, as the code has it: a successful rendering places the name of
    every ledger entry in the map of its type (RUNTIME and BUNDLED in the
    runtime map, PEER in the peer map, BUILD, TEST and DEVENV in the dev
    map; the name [__proto__] apart, under which an assignment creates
    no property), every bundled entry in the bundled list as well, and
    nothing else in any of them. A name that is both BUNDLED and PEER
    makes the rendering fail: with the conflict error, unless the
    pinning of the peers has failed before, with the resolution error
    for a range without a minimum or with the error semver raised on a
    malformed range (which it cannot when pinning is off or every peer
    range has a minimum). Without such a name, and with the peers
    resolvable, the rendering succeeds. *)
Theorem buckets_by_role_and_conflict (minVersion : string -> Result (option string))
  (this : NpmPackage) (root : option PackageJson) (l : Ledger) :
  (forall r, renderDependencies minVersion this root l = Ok r ->
     (forall d, In d (ledger r) ->
        (name d <> "__proto__" ->
         In (name d) (JsObject.keys (bucket (bucketOf (type d)) (rendered r))))
        /\ (type d = BUNDLED -> In (name d) (bundledDependencies r)))
     /\ (forall b n, In n (JsObject.keys (bucket b (rendered r))) ->
           exists d, In d (ledger r) /\ name d = n /\ bucketOf (type d) = b)
     /\ (forall n, In n (bundledDependencies r) ->
           exists d, In d (ledger r) /\ name d = n /\ type d = BUNDLED))
  /\ (forall n, hasEntry n BUNDLED l = true -> hasEntry n PEER l = true ->
        ((exists msg, renderDependencies minVersion this root l
                      = Throw (ConflictError msg))
         \/ (exists msg, renderDependencies minVersion this root l
                         = Throw (ResolutionError msg))
         \/ (exists d e, In d l /\ type d = PEER /\ rejected minVersion d e
                         /\ renderDependencies minVersion this root l = Throw e))
        /\ (pinned this = false
            \/ (forall d, In d l -> type d = PEER -> resolvable minVersion d = true) ->
            exists msg, renderDependencies minVersion this root l
                        = Throw (ConflictError msg)))
  /\ (pinned this = false
      \/ (forall d, In d l -> type d = PEER -> resolvable minVersion d = true) ->
      (forall d, In d l -> type d = BUNDLED -> hasEntry (name d) PEER l = false) ->
      exists r, renderDependencies minVersion this root l = Ok r).
Proof.
  split; [|split].
  - intros r Hr. split; [|split].
    + intros d Hd. split.
      * intros _.
        apply (rendered_keys _ _ _ _ _ (bucketOf (type d)) (name d) Hr). eauto.
      * intro Hty. destruct (rendered_bucket _ _ _ _ _ Hr) as [_ ->].
        apply in_map, filter_In. split; [exact Hd|].
        unfold isBundled. now rewrite Hty.
    + intros b n Hn. now apply (rendered_keys _ _ _ _ _ b n Hr).
    + intros n Hn. destruct (rendered_bucket _ _ _ _ _ Hr) as [_ Hb].
      rewrite Hb in Hn. apply in_map_iff in Hn as [d [Hd1 Hd2]].
      apply filter_In in Hd2 as [Hd2 Hd3]. exists d. repeat split; trivial.
      unfold isBundled in Hd3. destruct (type d); trivial; discriminate.
  - intros n Hb Hp.
    assert (Hconflict : forall l1, pinPhase minVersion this l = Ok l1 ->
              exists msg, renderDependencies minVersion this root l
                          = Throw (ConflictError msg)).
    { intros l1 Hpin. destruct (pinPhase_storeAll _ _ _ _ Hpin) as [es [Hty ->]].
      assert (Hb1 := storeAll_hasEntry es l n BUNDLED Hb).
      assert (Hp1 := storeAll_hasEntry es l n PEER Hp).
      apply hasEntry_In in Hb1 as [d [Hd [Hn Ht]]]. subst n.
      destruct (fillBuckets_conflict (storeAll es l) (all (storeAll es l))
                  (emptyDependencies, []) d Hd Ht Hp1) as [msg Hmsg].
      exists msg. eapply renderDependencies_fill_throws; eauto. }
    split.
    + destruct (pinPhase_cases minVersion this l)
        as [[l1 H]|[[msg H]|[d [e [Hd [Hty [He H]]]]]]].
      * left. eauto.
      * right. left. exists msg. now apply renderDependencies_pin_throws.
      * right. right. exists d, e. repeat split; trivial.
        now apply renderDependencies_pin_throws.
    + intro Hres. destruct (pinPhase_total minVersion this l Hres) as [l1 H]. eauto.
  - apply rendering_succeeds.
Qed.

Lemma buckets_by_role_and_conflict_witness :
  exists msg,
    renderDependencies sampleMinVersion
      {| npmTaskExecution := PROJEN;
         projenCommand := "npx projen";
         allowLibraryDependencies := true;
         packageManager := YARN;
         peerDependencyOptions := {| pinnedDevDependency := Some false |} |}
      None conflictLedger = Throw (ConflictError msg).
Proof.
  apply (proj2 (proj1 (proj2 (buckets_by_role_and_conflict sampleMinVersion
           {| npmTaskExecution := PROJEN;
              projenCommand := "npx projen";
              allowLibraryDependencies := true;
              packageManager := YARN;
              peerDependencyOptions := {| pinnedDevDependency := Some false |} |}
           None conflictLedger)) "baz" eq_refl eq_refl)).
  left. reflexivity.
Defined.

(** C3 as stated fails: with pinning on, a name that is both PEER and
    BUNDLED whose peer range has no minimum version makes the rendering
    fail with the resolution error, not the conflict error; and with a
    peer range that semver rejects, with the error of semver. *)
Lemma buckets_by_role_and_conflict_counterexample :
  (let* l := addPeerDeps libraryPackage ["baz@>2.0.0 <1.0.0"] [] in
   addBundledDeps libraryPackage ["baz"] l) = Ok conflictLedger
  /\ hasEntry "baz" BUNDLED conflictLedger = true
  /\ hasEntry "baz" PEER conflictLedger = true
  /\ renderDependencies sampleMinVersion libraryPackage None conflictLedger
     = Throw (ResolutionError
                "unable to determine minimum semver for peer dependency baz@>2.0.0 <1.0.0")
  /\ (let* l := addPeerDeps libraryPackage ["baz@latest"] [] in
      let* l := addBundledDeps libraryPackage ["baz"] l in
      renderDependencies sampleMinVersion libraryPackage None l)
     = Throw (TypeError "Invalid comparator: latest").
Proof.
  repeat split.
Qed.

Lemma storeAll_distinctKeys es l :
  distinctKeys l = true -> distinctKeys (storeAll es l) = true.
Proof.
  revert l. induction es as [|e es IH]; intros l H; simpl; [exact H|].
  apply IH. now apply store_distinctKeys.
Qed.

Lemma storeAll_In_kept es l e :
  In e l -> (forall e', In e' es -> sameKey e' e = true -> e' = e) ->
  In e (storeAll es l).
Proof.
  revert l. induction es as [|x es IH]; intros l Hin Hu; simpl; [exact Hin|].
  apply IH; [|intros e' He'; apply Hu; now right].
  destruct (sameKey x e) eqn:E.
  - rewrite (Hu x (or_introl eq_refl) E). apply store_In_self.
  - apply store_In_other; [exact Hin|]. now rewrite sameKey_sym.
Qed.

Lemma storeAll_In_stored es l e :
  In e es -> (forall e', In e' es -> sameKey e' e = true -> e' = e) ->
  In e (storeAll es l).
Proof.
  revert l. induction es as [|x es IH]; intros l Hin Hu; simpl in *; [contradiction|].
  destruct Hin as [->|Hin].
  - apply storeAll_In_kept; [apply store_In_self|]. auto.
  - apply IH; auto.
Qed.

(** C8, as the code has it: an entry of the ledger with no range is
    written as the wildcard into the map of its type, and the map shows
    the wildcard (or the real version the manifest on disk records under
    that name, which reconciliation keeps) provided every entry of the
    same name that the ledger holds for the same map once the peers are
    pinned is without a range too, a later write replacing an earlier
    one, and the name is none that Object.prototype answers. In the
    scenario [addDeps("left-pad")], [addDevDeps("test-lib@^3")],
    [addPeerDeps("react@^16")] with pinning on, no manifest on disk and
    16.0.0 the minimum of [^16], the runtime map is [{"left-pad": "*"}],
    the peer map [{"react": "^16"}] and the dev map
    [{"test-lib": "^3", "react": "16.0.0"}]. For the runtime and the
    peer map, which the pinning leaves alone, the entries of the ledger
    as it was given decide. *)
Theorem versionless_entry_renders_wildcard (minVersion : string -> Result (option string)) :
  (forall this root l r d,
     renderDependencies minVersion this root l = Ok r ->
     In d (ledger r) -> version d = None ->
     JsObject.inherited (name d) = false ->
     (forall d', In d' (ledger r) -> name d' = name d ->
                 bucketOf (type d') = bucketOf (type d) -> version d' = None) ->
     JsObject.get (bucket (bucketOf (type d)) (rendered r)) (name d)
     = Some (reconciledVersion "*" (recorded root (bucketOf (type d)) (name d)))
     /\ (keepCurrent "*" (recorded root (bucketOf (type d)) (name d)) = None ->
         JsObject.get (bucket (bucketOf (type d)) (rendered r)) (name d) = Some "*"))
  /\ (forall this root l r d,
        renderDependencies minVersion this root l = Ok r ->
        In d l -> version d = None ->
        JsObject.inherited (name d) = false ->
        bucketOf (type d) <> Dev ->
        (forall d', In d' l -> name d' = name d ->
                    bucketOf (type d') = bucketOf (type d) -> version d' = None) ->
        JsObject.get (bucket (bucketOf (type d)) (rendered r)) (name d)
        = Some (reconciledVersion "*" (recorded root (bucketOf (type d)) (name d))))
  /\ (minVersion "^16" = Ok (Some "16.0.0") ->
      forall l,
        addPeerDeps libraryPackage ["react@^16"]
          (addDevDeps ["test-lib@^3"] (addDeps ["left-pad"] [])) = Ok l ->
        exists r,
          renderDependencies minVersion libraryPackage None l = Ok r
          /\ dependencies (rendered r) = [("left-pad", "*")]
          /\ peerDependencies (rendered r) = [("react", "^16")]
          /\ devDependencies (rendered r) = [("test-lib", "^3"); ("react", "16.0.0")]).
Proof.
  assert (Hshown : forall this root l r d,
            renderDependencies minVersion this root l = Ok r ->
            In d (ledger r) -> version d = None ->
            (forall d', In d' (ledger r) -> name d' = name d ->
                        bucketOf (type d') = bucketOf (type d) -> version d' = None) ->
            JsObject.get (bucket (bucketOf (type d)) (rendered r)) (name d)
            = Some (reconciledVersion "*"
                      (recorded root (bucketOf (type d)) (name d)))).
  { intros this root l r d Hr Hd Hv Hothers.
    rewrite (rendered_get minVersion this root l r (bucketOf (type d)) (name d)
               "*" Hr).
    - unfold recorded, currentAt. destruct root; reflexivity.
    - exists d. auto.
    - intros d' H1 H2 H3. unfold versionOrWildcard.
      now rewrite (Hothers d' H1 H2 H3). }
  split; [|split].
  - intros this root l r d Hr Hd Hv _ Hothers.
    assert (Hget := Hshown this root l r d Hr Hd Hv Hothers).
    split; [exact Hget|].
    intro Hkeep. rewrite Hget. unfold reconciledVersion. now rewrite Hkeep.
  - intros this root l r d Hr Hd Hv _ Hdev Hothers.
    destruct (renderDependencies_Ok _ _ _ _ _ Hr) as [maps [Hpin _]].
    destruct (pinPhase_storeAll _ _ _ _ Hpin) as [es [Hes Hl1]].
    rewrite Forall_forall in Hes.
    assert (Hbuild : forall x, bucketOf (type x) <> Dev -> type x <> BUILD)
      by (intros x Hx Hty; apply Hx; now rewrite Hty).
    apply (Hshown this root l r d Hr); trivial.
    + rewrite Hl1. apply storeAll_In_kept; [exact Hd|].
      intros e' He' Hk. apply sameKey_true in Hk as [_ Hk].
      apply Hes in He'. exfalso. apply (Hbuild d Hdev). congruence.
    + intros d' Hd' Hn Hb. apply Hothers; trivial.
      rewrite Hl1 in Hd'. destruct (storeAll_In_inv _ _ _ Hd') as [H|H]; [|exact H].
      apply Hes in H. exfalso. apply (Hbuild d'); [congruence|exact H].
  - intros Hmin l [= <-].
    unfold renderDependencies. cbn. rewrite Hmin. cbn.
    eexists. repeat split.
Qed.

Lemma versionless_entry_renders_wildcard_witness :
  renderDependencies sampleMinVersion libraryPackage None scenarioLedger
  = Ok scenarioRendered
  /\ JsObject.get (dependencies (rendered scenarioRendered)) "left-pad" = Some "*".
Proof.
  assert (H : renderDependencies sampleMinVersion libraryPackage None scenarioLedger
              = Ok scenarioRendered) by (vm_compute; reflexivity).
  split; [exact H|].
  refine (proj2 (proj1 (versionless_entry_renders_wildcard sampleMinVersion)
                   libraryPackage None scenarioLedger scenarioRendered
                   {| name := "left-pad"; version := None; type := RUNTIME |} H
                   _ eq_refl eq_refl _) eq_refl).
  - simpl. now left.
  - intros d' Hd' Hn Hb. simpl in Hd'.
    destruct Hd' as [<-|[<-|[<-|[<-|[]]]]]; try reflexivity; discriminate.
Defined.

(** C8 as stated fails: [foo] added with [addDeps] has no range, yet
    after [addBundledDeps("foo@^2")] the runtime map shows [^2] for it,
    the bundled entry being written to the same map later; and [foo]
    added with [addDevDeps] has no range, yet with the peer [foo@^16]
    pinned the dev map shows [16.0.0]. *)
Lemma versionless_entry_renders_wildcard_counterexample :
  (exists l r,
     addBundledDeps libraryPackage ["foo@^2"] (addDeps ["foo"] []) = Ok l
     /\ In {| name := "foo"; version := None; type := RUNTIME |} l
     /\ renderDependencies sampleMinVersion libraryPackage None l = Ok r
     /\ JsObject.get (dependencies (rendered r)) "foo" = Some "^2")
  /\ (exists l r,
        addPeerDeps libraryPackage ["foo@^16"] (addDevDeps ["foo"] []) = Ok l
        /\ In {| name := "foo"; version := None; type := BUILD |} l
        /\ renderDependencies sampleMinVersion libraryPackage None l = Ok r
        /\ JsObject.get (devDependencies (rendered r)) "foo" = Some "16.0.0").
Proof.
  split.
  - eexists. eexists. split; [reflexivity|]. split; [now left|].
    split; [vm_compute; reflexivity|]. reflexivity.
  - eexists. eexists. split; [reflexivity|]. split; [now left|].
    split; [vm_compute; reflexivity|]. reflexivity.
Qed.

Lemma ledgerOfPackages_inv l :
  ledgerOfPackages l = true ->
  distinctKeys l = true /\ forall d, In d l -> packageName (name d) = true.
Proof.
  unfold ledgerOfPackages. rewrite andb_true_iff, forallb_forall. tauto.
Qed.

Lemma isPeer_type d : isPeer d = true <-> type d = PEER.
Proof. unfold isPeer. destruct (type d); simpl; split; congruence. Qed.

Lemma declaredRange_resolvable minVersion d range :
  declaredRange d = Some range ->
  resolvable minVersion d = true ->
  exists ver, minVersion range = Ok (Some ver) /\ truthy ver = true.
Proof.
  unfold resolvable, minimum. intros ->.
  destruct (minVersion range) as [[ver|]|e]; [eauto|discriminate|discriminate].
Qed.

(** On a ledger of packages, with semver returning plain versions, a
    successful pinning has stored the pin of every peer, and the ledger
    still has one entry per key. *)
Lemma pins_in_ledger minVersion l l1 :
  (forall range ver, minVersion range = Ok (Some ver) -> plainVersion ver = true) ->
  distinctKeys l = true ->
  (forall d, In d l -> packageName (name d) = true) ->
  pinPeers minVersion (filter isPeer (all l)) l = Ok l1 ->
  l1 = storeAll (map (pinEntry minVersion) (filter isPeer (all l))) l
  /\ distinctKeys l1 = true
  /\ forall d, In d l -> type d = PEER -> In (pinEntry minVersion d) l1.
Proof.
  intros Hplain Hdistinct Hnames Hpin.
  apply (pinPeers_pins minVersion Hplain) in Hpin;
    [|intros x Hx; apply filter_In in Hx as [Hx _]; now apply Hnames].
  split; [exact Hpin|]. split; [rewrite Hpin; now apply storeAll_distinctKeys|].
  intros d Hd Hty. rewrite Hpin. apply storeAll_In_stored.
  - apply in_map, filter_In. split; [exact Hd | now apply isPeer_type].
  - intros e' He' Hk. apply in_map_iff in He' as [d' [<- Hd']].
    apply filter_In in Hd' as [Hd' Hp']. apply isPeer_type in Hp'.
    apply sameKey_true in Hk as [Hk _]. simpl in Hk.
    now rewrite (distinctKeys_unique l d' d Hdistinct Hd' Hd Hk) by congruence.
Qed.

(** C1, as the code has it, with peer pinning on. The peers are pinned
    in ledger order, and the first one whose requirement cannot be
    computed decides the outcome: if semver finds no minimum for its
    range (or an empty one) the rendering fails with the resolution
    error of the code; if semver rejects the range as malformed, with
    the error semver raised. A peer whose range is empty or absent
    declares none: it is not resolved, does not fail and gets a build
    dependency without a version. On a ledger of packages, with semver
    returning plain versions, a successful rendering has stored, for
    every peer that declares a range, a build dependency on the same
    package whose version is exactly the minimum version of that range;
    the dev map shows that version under the package name unless a TEST
    or DEVENV entry of the same name overwrites it (the name [__proto__]
    apart, under which an assignment creates no property); and the
    rendering does succeed when every peer range has a minimum and no
    bundled name is a peer. *)
Theorem peers_pinned_to_minimum (minVersion : string -> Result (option string))
  (this : NpmPackage) (root : option PackageJson) (l : Ledger) :
  pinnedDevDependency (peerDependencyOptions this) = None
  \/ pinnedDevDependency (peerDependencyOptions this) = Some true ->
  (forall before d after range,
     filter isPeer l = (before ++ d :: after)%list ->
     (forall x, In x before -> resolvable minVersion x = true) ->
     declaredRange d = Some range ->
     (minVersion range = Ok None \/ minVersion range = Ok (Some EmptyString) ->
      renderDependencies minVersion this root l
      = Throw (ResolutionError
                 ("unable to determine minimum semver for peer dependency "
                  ++ name d ++ "@" ++ range)))
     /\ (forall e, minVersion range = Throw e ->
                   renderDependencies minVersion this root l = Throw e))
  /\ (forall d,
        In d l -> type d = PEER -> resolvable minVersion d = false ->
        (exists msg, renderDependencies minVersion this root l
                     = Throw (ResolutionError msg))
        \/ (exists d' e, In d' l /\ type d' = PEER /\ rejected minVersion d' e
                         /\ renderDependencies minVersion this root l = Throw e))
  /\ ((forall range ver, minVersion range = Ok (Some ver) -> plainVersion ver = true) ->
      ledgerOfPackages l = true ->
      (forall r, renderDependencies minVersion this root l = Ok r ->
         forall d,
           In d l -> type d = PEER ->
           (forall range,
              declaredRange d = Some range ->
              exists ver,
                minVersion range = Ok (Some ver)
                /\ In {| name := name d; version := Some ver; type := BUILD |} (ledger r)
                /\ (name d <> "__proto__" ->
                    (forall d', In d' l -> name d' = name d ->
                                type d' <> TEST /\ type d' <> DEVENV) ->
                    JsObject.get (devDependencies (rendered r)) (name d) = Some ver))
           /\ (declaredRange d = None ->
               In {| name := name d; version := None; type := BUILD |} (ledger r)))
      /\ ((forall d, In d l -> type d = PEER -> resolvable minVersion d = true) ->
          (forall d, In d l -> type d = BUNDLED -> hasEntry (name d) PEER l = false) ->
          exists r, renderDependencies minVersion this root l = Ok r)).
Proof.
  intro Hoption.
  assert (Hpinned : pinned this = true)
    by (unfold pinned; destruct Hoption as [-> | ->]; reflexivity).
  split; [|split].
  - intros before d after range Hsplit Hbefore Hrange.
    assert (Hfirst : forall e, pinRequirement minVersion d = Throw e ->
                               renderDependencies minVersion this root l = Throw e).
    { intros e He. apply renderDependencies_pin_throws.
      unfold pinPhase, all. rewrite Hpinned, Hsplit.
      now apply pinPeers_first_failure. }
    destruct (pinRequirement_cases minVersion d)
      as [[Hres _]|[_ [[range' [Hrange' [Hnone Hthrow]]]|[e [[range' [Hrange' He]] Hthrow]]]]].
    + destruct (declaredRange_resolvable _ _ _ Hrange Hres) as [ver [Hver Htr]].
      split.
      * intros [H|H]; rewrite Hver in H; [discriminate|].
        injection H as ->. discriminate.
      * intros e He. congruence.
    + assert (range' = range) by congruence. subst range'. split.
      * intros _. now apply Hfirst.
      * intros e He. destruct Hnone; congruence.
    + assert (range' = range) by congruence. subst range'. split.
      * intros [H|H]; congruence.
      * intros e' He'. assert (e' = e) by congruence. subst e'. now apply Hfirst.
  - intros d Hd Hty Hres.
    assert (Hpeer : In d (filter isPeer (all l)))
      by (apply filter_In; split; [exact Hd | now apply isPeer_type]).
    destruct (pinPeers_throws minVersion _ l d Hpeer Hres)
      as [[msg H]|[d' [e [Hd' [He H]]]]].
    + left. exists msg. apply renderDependencies_pin_throws.
      unfold pinPhase. now rewrite Hpinned.
    + right. exists d', e. apply filter_In in Hd' as [Hd' Hp'].
      apply isPeer_type in Hp'. repeat split; trivial.
      apply renderDependencies_pin_throws. unfold pinPhase. now rewrite Hpinned.
  - intros Hplain Hledger.
    apply ledgerOfPackages_inv in Hledger as [Hdistinct Hnames]. split.
    + intros r Hr d Hd Hty.
      destruct (renderDependencies_Ok _ _ _ _ _ Hr) as [maps [Hpin _]].
      unfold pinPhase in Hpin. rewrite Hpinned in Hpin.
      assert (Hpeer : In d (filter isPeer (all l)))
        by (apply filter_In; split; [exact Hd | now apply isPeer_type]).
      destruct (pins_in_ledger _ _ _ Hplain Hdistinct Hnames Hpin)
        as [Hl1 [Hdist Hpins]].
      assert (Hin := Hpins d Hd Hty).
      split.
      * intros range Hrange.
        assert (Hres : resolvable minVersion d = true).
        { destruct (resolvable minVersion d) eqn:E; trivial.
          destruct (pinPeers_throws minVersion _ l d Hpeer E)
            as [[msg H]|[d' [e [_ [_ H]]]]]; congruence. }
        destruct (declaredRange_resolvable _ _ _ Hrange Hres) as [ver [Hver Htr]].
        exists ver. split; [exact Hver|].
        assert (Hentry : pinEntry minVersion d
                         = {| name := name d; version := Some ver; type := BUILD |})
          by (unfold pinEntry, minimum; now rewrite Hrange, Hver).
        rewrite Hentry in Hin. split; [exact Hin|].
        intros _ Hno.
        change (devDependencies (rendered r)) with (bucket Dev (rendered r)).
        rewrite (rendered_get minVersion this root l r Dev (name d) ver Hr).
        -- f_equal. apply reconciledVersion_explicit.
           pose proof (Hplain _ _ Hver) as Hp. unfold plainVersion in Hp.
           apply andb_true_iff in Hp as [_ Hp]. apply negb_true_iff in Hp.
           now apply String.eqb_neq.
        -- eexists. split; [exact Hin|]. split; reflexivity.
        -- intros d' Hd' Hn Hb.
           assert (Hbuild : type d' = BUILD).
           { rewrite Hl1 in Hd'. destruct (storeAll_In_inv _ _ _ Hd') as [H|H].
             - apply in_map_iff in H as [x [<- _]]. reflexivity.
             - destruct (Hno d' H Hn) as [H1 H2].
               destruct (type d'); trivial; try discriminate; congruence. }
           assert (Heq : d' = {| name := name d; version := Some ver; type := BUILD |})
             by (apply (distinctKeys_unique (ledger r)); trivial).
           now rewrite Heq.
      * intro Hrange. unfold pinEntry in Hin. now rewrite Hrange in Hin.
    + intros Hres Hnone.
      apply rendering_succeeds; [right; exact Hres | exact Hnone].
Qed.

Lemma sampleMinVersion_plain range ver :
  sampleMinVersion range = Ok (Some ver) -> plainVersion ver = true.
Proof.
  unfold sampleMinVersion.
  destruct (String.eqb range "^2.0.0"); [intros [= <-]; reflexivity|].
  destruct (String.eqb range "^16"); [intros [= <-]; reflexivity|].
  destruct (String.eqb range "^1"); [intros [= <-]; reflexivity|].
  destruct (String.eqb range "latest"); discriminate.
Qed.

Lemma peers_pinned_to_minimum_witness :
  addPeerDeps libraryPackage ["bar@^2.0.0"] [] = Ok barLedger
  /\ exists r,
       renderDependencies sampleMinVersion libraryPackage None barLedger = Ok r
       /\ In {| name := "bar"; version := Some "2.0.0"; type := BUILD |} (ledger r)
       /\ JsObject.get (devDependencies (rendered r)) "bar" = Some "2.0.0".
Proof.
  split; [reflexivity|].
  destruct (peers_pinned_to_minimum sampleMinVersion libraryPackage None barLedger
              (or_introl eq_refl)) as [_ [_ Hpin]].
  destruct (Hpin sampleMinVersion_plain eq_refl) as [Hok Htotal].
  destruct Htotal as [r Hr].
  - intros d [<-|[]] _. reflexivity.
  - intros d [<-|[]]. discriminate.
  - exists r. split; [exact Hr|].
    destruct (proj1 (Hok r Hr {| name := "bar"; version := Some "^2.0.0"; type := PEER |}
                       (or_introl eq_refl) eq_refl) "^2.0.0" eq_refl)
      as [ver [Hver [Hin Hdev]]].
    injection Hver as <-. split; [exact Hin|].
    apply Hdev; [discriminate|]. intros d' [<-|[]] _. split; discriminate.
Defined.

(** C1 as stated fails: the empty range of [bar@] has no minimum
    version, yet the rendering neither fails nor pins [bar], whose build
    dependency is left without a version; and the malformed range of
    [bar@latest] makes the rendering fail with the error of semver, not
    with the resolution error. *)
Lemma peers_pinned_to_minimum_counterexample :
  (exists l r,
     addPeerDeps libraryPackage ["bar@"] [] = Ok l
     /\ In {| name := "bar"; version := Some EmptyString; type := PEER |} l
     /\ renderDependencies sampleMinVersion libraryPackage None l = Ok r
     /\ In {| name := "bar"; version := None; type := BUILD |} (ledger r)
     /\ JsObject.get (devDependencies (rendered r)) "bar" = Some "*")
  /\ (exists l,
        addPeerDeps libraryPackage ["bar@latest"] [] = Ok l
        /\ In {| name := "bar"; version := Some "latest"; type := PEER |} l
        /\ renderDependencies sampleMinVersion libraryPackage None l
           = Throw (TypeError "Invalid comparator: latest")).
Proof.
  split.
  - eexists. eexists. split; [reflexivity|]. split; [now left|].
    split; [vm_compute; reflexivity|]. split; [right; now left|reflexivity].
  - eexists. split; [reflexivity|]. split; [now left|]. reflexivity.
Qed.

(* ------------------------------------------------------------------ *)
(** ** Repeated synthesis *)

Lemma map_filter_fst (p : string -> bool) (l : list (string * string)) :
  map fst (filter (fun e => p (fst e)) l) = filter p (map fst l).
Proof.
  induction l as [|e l IH]; simpl; [reflexivity|].
  destruct (p (fst e)); simpl; now rewrite IH.
Qed.

(** The order in which the keys of an object are enumerated depends on
    the keys only. *)
Lemma entries_keys_congr (a b : JsObject.t) :
  map fst a = map fst b ->
  map fst (JsObject.entries a) = map fst (JsObject.entries b).
Proof.
  intro H. unfold JsObject.entries, JsObject.indexed, JsObject.named.
  rewrite !map_app.
  rewrite <- !(sort_map _ _
                        (fun x y => N.compare (JsObject.indexOf x) (JsObject.indexOf y))
                        (fun x y => N.compare (keyIndex x) (keyIndex y)) fst)
    by (intros; reflexivity).
  rewrite !map_filter_fst, !(map_filter_fst (fun k => negb (JsObject.isArrayIndex k))).
  now rewrite H.
Qed.

Lemma set_fold_map (f : string * string -> string) E :
  NoDup (map fst E) ->
  fold_left (fun o e => JsObject.set o (fst e) (f e)) E JsObject.empty
  = map (fun e => (fst e, f e)) E.
Proof.
  intro Hn.
  assert (Hgen : forall acc,
             fold_left (fun o e => JsObject.set o (fst e) (f e)) E acc
             = fold_left (fun o e => JsObject.set o (fst e) (snd e))
                         (map (fun e => (fst e, f e)) E) acc).
  { induction E as [|e E IH]; intro acc; simpl; [reflexivity|].
    inversion Hn. now rewrite IH. }
  rewrite Hgen. apply ofList_NoDup. simpl.
  now rewrite map_map.
Qed.

Lemma resolved_key_list installedVersion (o : JsObject.t) :
  NoDup (map fst o) ->
  map fst (resolved installedVersion o) = map fst (JsObject.entries o).
Proof.
  intro Hn. unfold resolved. rewrite resolve_fold_fst. simpl.
  rewrite (set_fold_map
             (fun e => resolvedVersion installedVersion (fst e) (snd e)))
    by now apply entries_NoDup.
  now rewrite map_map.
Qed.

Lemma resolvedVersion_explicit installedVersion k d :
  d <> "*" -> resolvedVersion installedVersion k d = d.
Proof.
  intro H. unfold resolvedVersion. apply String.eqb_neq in H. now rewrite H.
Qed.

Lemma resolvedVersion_wildcard_cases installedVersion k :
  resolvedVersion installedVersion k "*" = "*"
  \/ (resolvedVersion installedVersion k "*" <> "*"
      /\ truthy (resolvedVersion installedVersion k "*") = true).
Proof.
  unfold resolvedVersion. simpl. destruct (installedVersion k) as [v|]; [right|left; reflexivity].
  split; [discriminate | reflexivity].
Qed.

(** Resolving what reconciliation makes of an already resolved version
    gives that version again. *)
Lemma resolve_reconcile_stable installedVersion k u c0 :
  resolvedVersion installedVersion k
    (reconciledVersion u
       (Some (resolvedVersion installedVersion k (reconciledVersion u c0))))
  = resolvedVersion installedVersion k (reconciledVersion u c0).
Proof.
  destruct (String.eqb u "*") eqn:Eu.
  - apply String.eqb_eq in Eu. subst u.
    assert (Hs : reconciledVersion "*" c0 = "*"
                 \/ (reconciledVersion "*" c0 <> "*"
                     /\ truthy (reconciledVersion "*" c0) = true)).
    { unfold reconciledVersion, keepCurrent. destruct c0 as [c|]; [|now left].
      simpl. destruct (truthy c) eqn:Et; simpl; [|now left].
      destruct (String.eqb c "*") eqn:Ec; simpl; [now left|].
      right. split; [now apply String.eqb_neq | exact Et]. }
    destruct Hs as [->|[Hne Ht]].
    + destruct (resolvedVersion_wildcard_cases installedVersion k) as [H|[Hne Ht]].
      * rewrite H. change (reconciledVersion "*" (Some "*")) with "*". exact H.
      * rewrite (reconciledVersion_kept _ Ht Hne).
        now apply resolvedVersion_explicit.
    + rewrite (resolvedVersion_explicit installedVersion k _ Hne).
      rewrite (reconciledVersion_kept _ Ht Hne).
      now apply resolvedVersion_explicit.
  - apply String.eqb_neq in Eu.
    now rewrite !(reconciledVersion_explicit u _ Eu).
Qed.

Section SynthFacts.
Variable minVersion : string -> Result (option string).
Variable installedVersion : string -> option (option string).
Variable localeCompare : string -> string -> comparison.
Variable toShellCommand : Task -> Result string.
Variable this : NpmPackage.
Variable legacyScripts : list (string * list string).
Variable tasks : list Task.
Variable frozen : bool.

(** One run, phase by phase. *)
Lemma synth_unfold st :
  synth minVersion installedVersion localeCompare toShellCommand this
        legacyScripts tasks frozen st
  = (let* r := renderDependencies minVersion this (packageJson st) (deps st) in
     let* s := renderScripts toShellCommand this legacyScripts tasks in
     let* _ := renderInstallCommand this frozen in
     Ok ({| deps := ledger r;
            _renderedDeps := Some (rendered r);
            manifest := (rendered r, bundledDependencies r);
            packageJson :=
              Some (writtenManifest installedVersion localeCompare (rendered r) s) |},
         {| snapshot := Some (rendered r);
            scripts := s;
            logged := (renderLog r
                       ++ resolutionLog installedVersion localeCompare (rendered r))%list |})).
Proof.
  unfold synth, preSynthesize, synthesize, postSynthesize.
  destruct (renderDependencies minVersion this (packageJson st) (deps st)) as [r|e];
    cbn [bind fst snd]; [|reflexivity].
  destruct (renderScripts toShellCommand this legacyScripts tasks) as [s|e];
    cbn [bind fst snd]; [|reflexivity].
  destruct (renderInstallCommand this frozen) as [c|e];
    cbn [bind fst snd]; reflexivity.
Qed.

End SynthFacts.

Section RepeatFacts.
Variable minVersion : string -> Result (option string).
Variable installedVersion : string -> option (option string).
Variable localeCompare : string -> string -> comparison.

(** Rendering again from the ledger a rendering left, with the same
    manifest on disk, gives the same result. *)
Lemma renderDependencies_again this root l r :
  renderDependencies minVersion this root l = Ok r ->
  renderDependencies minVersion this root (ledger r) = Ok r.
Proof.
  intro H. destruct (renderDependencies_Ok _ _ _ _ _ H) as [maps [Hpin _]].
  assert (Hpin2 : pinPhase minVersion this (ledger r) = Ok (ledger r)).
  { unfold pinPhase in *. destruct (pinned this).
    - now apply pinPeers_idempotent with (l := l).
    - reflexivity. }
  unfold renderDependencies in *. unfold pinPhase in Hpin, Hpin2.
  rewrite Hpin in H. rewrite Hpin2. exact H.
Qed.

(** What the post-install step writes for a map does not change when the
    map is rendered again against what was written. *)
Lemma resolve_after_reconcile root0 b fresh cur1 cur2 :
  NoDup (map fst fresh) ->
  fst (resolveDeps installedVersion localeCompare cur2
         (fst (readDeps fresh
                 (Some (fst (resolveDeps installedVersion localeCompare cur1
                               (reconcile root0 b fresh)))))))
  = fst (resolveDeps installedVersion localeCompare cur1 (reconcile root0 b fresh)).
Proof.
  intro Hn.
  assert (Hn1 : NoDup (map fst (reconcile root0 b fresh)))
    by now rewrite reconcile_keys.
  rewrite !resolveDeps_fst. f_equal.
  set (F1 := sorted localeCompare (resolved installedVersion (reconcile root0 b fresh))).
  assert (Hn2 : NoDup (map fst (fst (readDeps fresh (Some F1)))))
    by now rewrite readDeps_keys.
  apply object_ext.
  - rewrite !resolved_key_list by trivial. apply entries_keys_congr.
    now rewrite readDeps_keys, reconcile_keys.
  - apply resolved_NoDup.
  - intros k _. rewrite !resolved_get by trivial.
    rewrite readDeps_get by exact Hn. unfold currentAt, F1.
    rewrite sorted_get by apply resolved_NoDup.
    rewrite resolved_get by exact Hn1.
    rewrite reconcile_get by exact Hn.
    destruct (JsObject.get fresh k) as [u|]; simpl; [|reflexivity].
    f_equal. apply resolve_reconcile_stable.
Qed.

End RepeatFacts.

Section Repeat.
Variable minVersion : string -> Result (option string).
Variable installedVersion : string -> option (option string).
Variable localeCompare : string -> string -> comparison.
Variable toShellCommand : Task -> Result string.
Variable this : NpmPackage.
Variable legacyScripts : list (string * list string).
Variable tasks : list Task.
Variable frozen : bool.

(** The second of two renderings in a row, the manifest on disk being
    the one the first run wrote: same ledger, and maps that resolve to
    what is on disk. *)
Lemma render_after_run root0 l r1 s :
  renderDependencies minVersion this root0 l = Ok r1 ->
  exists r2,
    renderDependencies minVersion this
      (Some (writtenManifest installedVersion localeCompare (rendered r1) s))
      (ledger r1) = Ok r2
    /\ ledger r2 = ledger r1
    /\ forall b, resolvedField installedVersion localeCompare b (rendered r2)
                 = resolvedField installedVersion localeCompare b (rendered r1).
Proof.
  intro H1.
  destruct (renderDependencies_Ok _ _ _ _ _ H1) as [maps [Hpin [Hfill Hrec]]].
  assert (Hagain := renderDependencies_again minVersion this root0 l r1 H1).
  destruct (renderDependencies_Ok _ _ _ _ _ Hagain) as [_ [Hpin1 _]].
  destruct (renderDependencies_total minVersion this
              (Some (writtenManifest installedVersion localeCompare (rendered r1) s))
              (ledger r1) _ _ Hpin1 Hfill) as [r2 H2].
  exists r2. split; [exact H2|].
  destruct (renderDependencies_Ok _ _ _ _ _ H2) as [maps2 [Hpin2 [Hfill2 Hrec2]]].
  assert (Hl : ledger r2 = ledger r1) by congruence.
  split; [exact Hl|].
  rewrite Hl, Hfill in Hfill2. injection Hfill2 as <- _.
  destruct (fillBuckets_writes _ _ _ _ _ _ Hfill) as [Hw _].
  intro b. unfold resolvedField. rewrite Hrec2, Hrec.
  assert (Hprior : priorBucket b (writtenManifest installedVersion localeCompare
                                    (rendered r1) s)
                   = Some (fst (resolveDeps installedVersion localeCompare
                                  (bucket b (rendered r1)) (bucket b (rendered r1)))))
    by (destruct b; reflexivity).
  unfold reconcile at 1 2. rewrite Hprior, Hrec.
  assert (Hn : NoDup (map fst (bucket b maps))).
  { rewrite Hw. destruct b; apply ofList_keys_NoDup. }
  rewrite (resolve_after_reconcile installedVersion localeCompare root0 b
             (bucket b maps) (reconcile root0 b (bucket b maps))
             (fst (readDeps (bucket b maps)
                     (Some (fst (resolveDeps installedVersion localeCompare
                                   (reconcile root0 b (bucket b maps))
                                   (reconcile root0 b (bucket b maps))))))) Hn).
  reflexivity.
Qed.

End Repeat.

(** C4, as the code has it: rendering the dependencies again with the
    manifest on disk unchanged gives the same snapshot and leaves the
    ledger as the first rendering left it. After a successful run of the
    full synthesis a second run succeeds too, leaves the ledger unchanged
    (no entry is duplicated or moved; the first run itself keeps the
    keys of the ledger distinct), writes the same manifest and renders
    the same scripts, and every further run repeats the second one
    exactly. The snapshot of the first run itself may differ from
    the second's: where it holds the wildcard, the second holds the
    version the first run resolved and wrote to disk. *)
Theorem synthesis_repeats (minVersion : string -> Result (option string))
  (installedVersion : string -> option (option string))
  (localeCompare : string -> string -> comparison)
  (toShellCommand : Task -> Result string)
  (this : NpmPackage) (legacyScripts : list (string * list string))
  (tasks : list Task) (frozen : bool) :
  (forall root l r,
     renderDependencies minVersion this root l = Ok r ->
     renderDependencies minVersion this root (ledger r) = Ok r)
  /\ (forall st st1 o1,
        synth minVersion installedVersion localeCompare toShellCommand this
              legacyScripts tasks frozen st = Ok (st1, o1) ->
        (distinctKeys (deps st) = true -> distinctKeys (deps st1) = true)
        /\ exists st2 o2,
            synth minVersion installedVersion localeCompare toShellCommand this
                  legacyScripts tasks frozen st1 = Ok (st2, o2)
            /\ deps st2 = deps st1
            /\ packageJson st2 = packageJson st1
            /\ scripts o2 = scripts o1
            /\ synth minVersion installedVersion localeCompare toShellCommand this
                     legacyScripts tasks frozen st2 = Ok (st2, o2)).
Proof.
  split; [intros root l r; apply renderDependencies_again|].
  intros st st1 o1 H. rewrite synth_unfold in H.
  destruct (renderDependencies minVersion this (packageJson st) (deps st))
    as [r1|e] eqn:E1; cbn [bind] in H; [|discriminate].
  destruct (renderScripts toShellCommand this legacyScripts tasks)
    as [s|e] eqn:E2; cbn [bind] in H; [|discriminate].
  destruct (renderInstallCommand this frozen) as [c|e] eqn:E3; cbn [bind] in H;
    [|discriminate].
  injection H as <- <-. split.
  { cbn [deps]. intro Hd.
    destruct (renderDependencies_Ok _ _ _ _ _ E1) as [maps [Hpin _]].
    destruct (pinPhase_storeAll _ _ _ _ Hpin) as [es [_ ->]].
    now apply storeAll_distinctKeys. }
  destruct (render_after_run minVersion installedVersion localeCompare this
              (packageJson st) (deps st) r1 s E1) as [r2 [H2 [Hl Hf]]].
  assert (Hw : writtenManifest installedVersion localeCompare (rendered r2) s
               = writtenManifest installedVersion localeCompare (rendered r1) s).
  { unfold writtenManifest. now rewrite !Hf. }
  assert (Hrun : forall st',
             deps st' = ledger r1 ->
             packageJson st'
             = Some (writtenManifest installedVersion localeCompare (rendered r1) s) ->
             synth minVersion installedVersion localeCompare toShellCommand this
                   legacyScripts tasks frozen st'
             = Ok ({| deps := ledger r2;
                      _renderedDeps := Some (rendered r2);
                      manifest := (rendered r2, bundledDependencies r2);
                      packageJson :=
                        Some (writtenManifest installedVersion localeCompare
                                (rendered r2) s) |},
                   {| snapshot := Some (rendered r2);
                      scripts := s;
                      logged := (renderLog r2
                                 ++ resolutionLog installedVersion localeCompare
                                      (rendered r2))%list |})).
  { intros st' Hd Hp. rewrite synth_unfold, Hd, Hp, H2. cbn [bind].
    rewrite E2. cbn [bind]. rewrite E3. reflexivity. }
  eexists. eexists. split; [apply Hrun; reflexivity|]. cbn [deps packageJson scripts].
  split; [exact Hl|]. split; [now rewrite Hw|]. split; [reflexivity|].
  apply Hrun; cbn [deps packageJson]; [exact Hl | now rewrite Hw].
Qed.

Lemma synthesis_repeats_witness :
  exists st2 o2,
    scenarioSynth scenarioState1 = Ok (st2, o2)
    /\ deps st2 = deps scenarioState1
    /\ packageJson st2 = packageJson scenarioState1
    /\ scripts o2 = scripts scenarioOutput1
    /\ scenarioSynth st2 = Ok (st2, o2).
Proof.
  apply (proj2 (proj2 (synthesis_repeats sampleMinVersion sampleInstalled
                         codeUnitCompare sampleShellCommand libraryPackage []
                         [compileTask] false)
                  scenarioStart scenarioState1 scenarioOutput1 eq_refl)).
Defined.

(** C4 as stated fails: in a directory without [package.json] the first
    run of the scenario renders [left-pad] as the wildcard, resolves it
    to the installed 1.3.0 and writes that; the second run renders
    [left-pad] as [^1.3.0]. *)
Lemma synthesis_repeats_counterexample :
  scenarioSynth scenarioStart = Ok (scenarioState1, scenarioOutput1)
  /\ scenarioSynth scenarioState1 = Ok (scenarioState2, scenarioOutput2)
  /\ option_map dependencies (snapshot scenarioOutput1) = Some [("left-pad", "*")]
  /\ option_map dependencies (snapshot scenarioOutput2) = Some [("left-pad", "^1.3.0")]
  /\ snapshot scenarioOutput1 <> snapshot scenarioOutput2.
Proof.
  repeat split; try (vm_compute; reflexivity).
  vm_compute. discriminate.
Qed.

(* ================================================================== *)
(** * Further properties of the package and of the project *)

(* ------------------------------------------------------------------ *)
(** ** What the resolution after the install keeps *)

(** X1: [resolveDeps] returns a map with exactly the names of the
    rendered map, each once; a requirement other than the wildcard is
    written back as it was rendered; and the map does not depend on what
    the manifest on disk held, which only decides the removal report. *)
Theorem resolution_keeps_requirements
  (installedVersion : string -> option (option string))
  (localeCompare : string -> string -> comparison)
  (current user : JsObject.t) :
  NoDup (map fst user) ->
  NoDup (JsObject.keys (fst (resolveDeps installedVersion localeCompare current user)))
  /\ (forall k,
        In k (JsObject.keys (fst (resolveDeps installedVersion localeCompare current user)))
        <-> In k (JsObject.keys user))
  /\ (forall k v,
        JsObject.get user k = Some v -> v <> "*" ->
        JsObject.get (fst (resolveDeps installedVersion localeCompare current user)) k
        = Some v)
  /\ (forall current',
        fst (resolveDeps installedVersion localeCompare current' user)
        = fst (resolveDeps installedVersion localeCompare current user)).
Proof.
  intros Hnd.
  assert (Hr := resolved_NoDup installedVersion user).
  repeat split.
  - rewrite resolveDeps_fst. unfold JsObject.keys. apply entries_NoDup.
    unfold sorted. apply ofList_keys_NoDup.
  - rewrite resolveDeps_fst, !keys_In. intro H.
    apply (resolved_keys installedVersion).
    apply (Permutation_in _ (Permutation_sym
             (Permutation_map fst (sorted_perm localeCompare _ Hr)))). exact H.
  - rewrite resolveDeps_fst, !keys_In. intro H.
    apply (resolved_keys installedVersion) in H.
    apply (Permutation_in _ (Permutation_map fst (sorted_perm localeCompare _ Hr))).
    exact H.
  - intros k v Hk Hv. rewrite resolveDeps_get by exact Hnd. rewrite Hk. cbn.
    rewrite resolvedVersion_explicit by exact Hv. reflexivity.
  - intro current'. rewrite !resolveDeps_fst. reflexivity.
Qed.

Lemma resolution_keeps_requirements_witness :
  JsObject.get
    (fst (resolveDeps sampleInstalled codeUnitCompare [("gone", "^1")]
                      [("zeta", "^2"); ("left-pad", "*")])) "zeta"
  = Some "^2".
Proof.
  apply (proj1 (proj2 (proj2
           (resolution_keeps_requirements sampleInstalled codeUnitCompare
              [("gone", "^1")] [("zeta", "^2"); ("left-pad", "*")]
              ltac:(repeat constructor; cbn; intuition discriminate))))).
  - reflexivity.
  - discriminate.
Defined.

(** X2: [resolveDepsAndWritePackageJson] fails when [package.json] is
    missing, fails with "assertion failed" when no snapshot was rendered
    before (so [postSynthesize] cannot run before [preSynthesize]),
    fails when the file lacks one of the three dependency fields, and
    succeeds otherwise; what it writes keeps the [scripts] of the file,
    holds the three resolved maps, and the run logs no warning. *)
Theorem write_back_outcome
  (installedVersion : string -> option (option string))
  (localeCompare : string -> string -> comparison)
  (root : option PackageJson) (snapshot : option NpmDependencies) :
  ((exists out, resolveDepsAndWritePackageJson installedVersion localeCompare
                  root snapshot = Ok out)
   <-> exists pkg maps,
         root = Some pkg /\ snapshot = Some maps
         /\ pkg_dependencies pkg <> None
         /\ pkg_devDependencies pkg <> None
         /\ pkg_peerDependencies pkg <> None)
  /\ (root = None ->
      exists msg, resolveDepsAndWritePackageJson installedVersion localeCompare
                    root snapshot = Throw (IoError msg))
  /\ (root <> None -> snapshot = None ->
      resolveDepsAndWritePackageJson installedVersion localeCompare root snapshot
      = Throw (AssertionError "assertion failed"))
  /\ (forall pkg maps out log,
        root = Some pkg -> snapshot = Some maps ->
        resolveDepsAndWritePackageJson installedVersion localeCompare root snapshot
        = Ok (out, log) ->
        out = {| pkg_scripts := pkg_scripts pkg;
                 pkg_dependencies :=
                   Some (resolvedField installedVersion localeCompare Runtime maps);
                 pkg_devDependencies :=
                   Some (resolvedField installedVersion localeCompare Dev maps);
                 pkg_peerDependencies :=
                   Some (resolvedField installedVersion localeCompare Peer maps) |}
        /\ existsb isWarn log = false)
  /\ (forall this frozen st,
        _renderedDeps st = None ->
        throws (postSynthesize installedVersion localeCompare this frozen st)).
Proof.
  repeat split.
  - intros [out Hout]. unfold resolveDepsAndWritePackageJson in Hout.
    destruct root as [pkg|]; [|discriminate].
    destruct snapshot as [maps|]; [|discriminate].
    exists pkg, maps.
    destruct (pkg_dependencies pkg); [|discriminate].
    destruct (pkg_devDependencies pkg); [|discriminate].
    destruct (pkg_peerDependencies pkg); [|discriminate].
    repeat split; discriminate.
  - intros (pkg & maps & -> & -> & H1 & H2 & H3).
    unfold resolveDepsAndWritePackageJson.
    destruct (pkg_dependencies pkg); [|contradiction].
    destruct (pkg_devDependencies pkg); [|contradiction].
    destruct (pkg_peerDependencies pkg); [|contradiction].
    cbn. eexists. reflexivity.
  - intros ->. cbn. eexists. reflexivity.
  - intros Hroot ->. destruct root; [reflexivity|contradiction].
  - subst root snapshot. unfold resolveDepsAndWritePackageJson in H1.
    destruct (pkg_dependencies pkg); [|discriminate].
    destruct (pkg_devDependencies pkg); [|discriminate].
    destruct (pkg_peerDependencies pkg); [|discriminate].
    cbn in H1. injection H1 as <- <-.
    unfold resolvedField. cbn [bucket].
    rewrite !resolveDeps_fst. reflexivity.
  - subst root snapshot. unfold resolveDepsAndWritePackageJson in H1.
    destruct (pkg_dependencies pkg); [|discriminate].
    destruct (pkg_devDependencies pkg); [|discriminate].
    destruct (pkg_peerDependencies pkg); [|discriminate].
    cbn in H1. injection H1 as <- <-.
    rewrite !existsb_app, !resolveDeps_no_warning. reflexivity.
  - intros this frozen st Hst. unfold postSynthesize, throws. rewrite Hst.
    destruct (renderInstallCommand this frozen); [|eexists; reflexivity].
    cbn [bind]. destruct (packageJson st); cbn; eexists; reflexivity.
Qed.

Lemma write_back_outcome_witness :
  throws (postSynthesize sampleInstalled codeUnitCompare libraryPackage false
            (initialState scenarioLedger (Some fooManifest))).
Proof.
  apply (proj2 (proj2 (proj2 (proj2
           (write_back_outcome sampleInstalled codeUnitCompare None None))))).
  reflexivity.
Defined.

(* ------------------------------------------------------------------ *)
(** ** What the reconciliation with the manifest on disk reports *)

Lemma reconciledVersion_truthy u c : truthy (reconciledVersion u c) = truthy u.
Proof.
  unfold reconciledVersion, keepCurrent. destruct c as [c|]; [|reflexivity].
  destruct (String.eqb u "*") eqn:E; cbn; [|reflexivity].
  apply String.eqb_eq in E. subst u.
  destruct (truthy c) eqn:Ec; cbn; [|reflexivity].
  destruct (String.eqb c "*"); [reflexivity|exact Ec].
Qed.

Lemma truthy_false s : truthy s = false <-> s = EmptyString.
Proof. destruct s; cbn; split; intro H; trivial; discriminate. Qed.

Lemma readDeps_snd user current :
  snd (readDeps user current)
  = flat_map (fun n => if JsObject.falsyAt (fst (readDeps user current)) n
                       then [Verbose (n ++ ": removed")] else [])
             (JsObject.keys (match current with
                             | Some c => c
                             | None => JsObject.empty
                             end)).
Proof. reflexivity. Qed.

(** X3: [readDeps] keeps the names of the rendered map and their order,
    so a name that only the manifest on disk records is never taken
    over; it reports as removed exactly the names recorded on disk that
    the rendered map holds with an empty version, or lacks without
    Object.prototype answering for them (a recorded [constructor] that
    is no longer a dependency is not reported); without a manifest field
    it reports nothing. *)
Theorem reconciliation_report (user : JsObject.t) (current : option JsObject.t) :
  NoDup (map fst user) ->
  map fst (fst (readDeps user current)) = map fst user
  /\ (forall entry,
        In entry (snd (readDeps user current))
        <-> exists n,
              entry = Verbose (n ++ ": removed")
              /\ In n (match current with
                       | Some c => JsObject.keys c
                       | None => []
                       end)
              /\ (JsObject.get user n = Some EmptyString
                  \/ (JsObject.get user n = None
                      /\ JsObject.inherited n = false)))
  /\ (current = None -> snd (readDeps user current) = []).
Proof.
  intro Hnd. split; [apply readDeps_keys|]. split.
  - intro entry. rewrite readDeps_snd, in_flat_map.
    assert (Hfalsy : forall n,
              JsObject.falsyAt (fst (readDeps user current)) n = true
              <-> JsObject.get user n = Some EmptyString
                  \/ (JsObject.get user n = None /\ JsObject.inherited n = false)).
    { intro n. unfold JsObject.falsyAt. rewrite readDeps_get by exact Hnd.
      destruct (JsObject.get user n) as [u|]; cbn [option_map].
      - rewrite reconciledVersion_truthy, negb_true_iff, truthy_false.
        split; [intros ->; now left|].
        intros [H|[H _]]; [now injection H|discriminate].
      - rewrite negb_true_iff. split; [now right|]. intros [H|[_ H]]; [discriminate|exact H]. }
    assert (Hkeys : JsObject.keys (match current with
                                   | Some c => c
                                   | None => JsObject.empty
                                   end)
                    = match current with
                      | Some c => JsObject.keys c
                      | None => []
                      end) by (destruct current; reflexivity).
    rewrite Hkeys. split.
    + intros [n [Hn Hin]].
      destruct (JsObject.falsyAt (fst (readDeps user current)) n) eqn:E;
        [|contradiction].
      destruct Hin as [<-|[]]. exists n. repeat split; trivial. now apply Hfalsy.
    + intros [n [-> [Hn Hu]]]. exists n. split; [exact Hn|].
      apply Hfalsy in Hu. rewrite Hu. now left.
  - intros ->. reflexivity.
Qed.

Lemma reconciliation_report_witness :
  In (Verbose "gone: removed")
     (snd (readDeps [("foo", "*"); ("bar", "^2")]
                    (Some [("gone", "^1"); ("constructor", "^3"); ("foo", "^1.2.0")]))).
Proof.
  apply (proj1 (proj2 (reconciliation_report [("foo", "*"); ("bar", "^2")]
                         (Some [("gone", "^1"); ("constructor", "^3");
                                ("foo", "^1.2.0")])
                         ltac:(repeat constructor; cbn; intuition discriminate)))).
  exists "gone". split; [reflexivity|]. split; [now left|].
  right. split; reflexivity.
Defined.

(* ------------------------------------------------------------------ *)
(** ** What rendering does to the ledger *)

(** X4: rendering the dependencies adds or replaces build entries only:
    an entry of any other role is in the ledger afterwards exactly when
    it was before; and with pinning switched off, or without any peer,
    the ledger is left as it was. *)
Theorem rendering_changes_build_entries_only (minVersion : string -> Result (option string))
  (this : NpmPackage) (root : option PackageJson) (l : Ledger) (r : Rendered) :
  renderDependencies minVersion this root l = Ok r ->
  (forall d, type d <> BUILD -> (In d (ledger r) <-> In d l))
  /\ (pinned this = false \/ (forall d, In d l -> type d <> PEER) -> ledger r = l).
Proof.
  intro Hr.
  destruct (renderDependencies_Ok _ _ _ _ _ Hr) as [maps [Hpin _]].
  split.
  - intros d Hd.
    destruct (pinPhase_storeAll _ _ _ _ Hpin) as [es [Hes ->]].
    rewrite Forall_forall in Hes. split.
    + intro Hin. destruct (storeAll_In_inv _ _ _ Hin) as [H|H]; trivial.
      now apply Hes in H.
    + intro Hin. apply storeAll_In_kept; trivial.
      intros e' He' Hk. apply sameKey_true in Hk as [_ Hk].
      apply Hes in He'. congruence.
  - unfold pinPhase in Hpin. intros [Hoff|Hnone].
    + rewrite Hoff in Hpin. now injection Hpin.
    + destruct (pinned this); [|now injection Hpin].
      rewrite (filter_none _ isPeer (all l)) in Hpin.
      * cbn in Hpin. now injection Hpin.
      * intros x Hx. destruct (isPeer x) eqn:E; trivial.
        apply isPeer_type in E. now apply Hnone in Hx.
Qed.

Lemma rendering_changes_build_entries_only_witness :
  In {| name := "react"; version := Some "^16"; type := PEER |}
     (ledger scenarioRendered)
  <-> In {| name := "react"; version := Some "^16"; type := PEER |} scenarioLedger.
Proof.
  apply (proj1 (rendering_changes_build_entries_only sampleMinVersion libraryPackage
                  None scenarioLedger scenarioRendered eq_refl)).
  discriminate.
Defined.

(** X5: a peer declared without a range gets a build entry without a
    version when peers are pinned; that entry replaces a build entry of
    the same name, so a range declared for it with [addDevDeps] is lost
    and the development map shows the wildcard (or what the manifest on
    disk recorded), for a name that is none Object.prototype answers. *)
Theorem versionless_peer_unpins (minVersion : string -> Result (option string))
  (this : NpmPackage) (root : option PackageJson) (l : Ledger) (r : Rendered)
  (d : Dependency) :
  (forall range ver, minVersion range = Ok (Some ver) -> plainVersion ver = true) ->
  ledgerOfPackages l = true ->
  pinned this = true ->
  renderDependencies minVersion this root l = Ok r ->
  In d l -> type d = PEER -> declaredRange d = None ->
  In {| name := name d; version := None; type := BUILD |} (ledger r)
  /\ (forall e, In e (ledger r) -> name e = name d -> type e = BUILD ->
                version e = None)
  /\ (JsObject.inherited (name d) = false ->
      (forall d', In d' l -> name d' = name d ->
                  type d' <> TEST /\ type d' <> DEVENV) ->
      JsObject.get (devDependencies (rendered r)) (name d)
      = Some (reconciledVersion "*" (recorded root Dev (name d)))).
Proof.
  intros Hplain Hledger Hpinned Hr Hd Hty Hrange.
  apply ledgerOfPackages_inv in Hledger as [Hdistinct Hnames].
  destruct (renderDependencies_Ok _ _ _ _ _ Hr) as [maps [Hpin _]].
  unfold pinPhase in Hpin. rewrite Hpinned in Hpin.
  apply (pinPeers_pins minVersion Hplain) in Hpin;
    [|intros x Hx; apply filter_In in Hx as [Hx _]; now apply Hnames].
  assert (Hentry : pinEntry minVersion d
                   = {| name := name d; version := None; type := BUILD |})
    by (unfold pinEntry; now rewrite Hrange).
  assert (Hin : In (pinEntry minVersion d) (ledger r)).
  { rewrite Hpin. apply storeAll_In_stored.
    - apply in_map. apply filter_In. split; [exact Hd | now apply isPeer_type].
    - intros e' He' Hk. apply in_map_iff in He' as [d' [<- Hd']].
      apply filter_In in Hd' as [Hd' Hp']. apply isPeer_type in Hp'.
      apply sameKey_true in Hk as [Hk _]. simpl in Hk.
      now rewrite (distinctKeys_unique l d' d Hdistinct Hd' Hd Hk) by congruence. }
  rewrite Hentry in Hin.
  assert (Hdist : distinctKeys (ledger r) = true)
    by (rewrite Hpin; now apply storeAll_distinctKeys).
  assert (Hone : forall e, In e (ledger r) -> name e = name d -> type e = BUILD ->
                           version e = None).
  { intros e He Hn Ht.
    now rewrite (distinctKeys_unique (ledger r) e _ Hdist He Hin Hn Ht). }
  split; [exact Hin|]. split; [exact Hone|].
  intros _ Hno.
  change (devDependencies (rendered r)) with (bucket Dev (rendered r)).
  rewrite (rendered_get minVersion this root l r Dev (name d) "*" Hr).
  - destruct root; reflexivity.
  - eexists. split; [exact Hin|]. split; reflexivity.
  - intros d' Hd' Hn Hb.
    assert (Hbuild : type d' = BUILD).
    { rewrite Hpin in Hd'. destruct (storeAll_In_inv _ _ _ Hd') as [H|H].
      - apply in_map_iff in H as [x [<- _]]. reflexivity.
      - destruct (Hno d' H Hn) as [H1 H2].
        destruct (type d'); trivial; try discriminate; congruence. }
    unfold versionOrWildcard. now rewrite (Hone d' Hd' Hn Hbuild).
Qed.

Lemma versionless_peer_unpins_witness :
  exists r,
    renderDependencies sampleMinVersion libraryPackage None
      [ {| name := "foo"; version := Some "^3"; type := BUILD |};
        {| name := "foo"; version := None; type := PEER |} ] = Ok r
    /\ JsObject.get (devDependencies (rendered r)) "foo" = Some "*".
Proof.
  eexists. split; [reflexivity|].
  apply (proj2 (proj2
           (versionless_peer_unpins sampleMinVersion libraryPackage None
              [ {| name := "foo"; version := Some "^3"; type := BUILD |};
                {| name := "foo"; version := None; type := PEER |} ]
              _ {| name := "foo"; version := None; type := PEER |}
              sampleMinVersion_plain eq_refl eq_refl eq_refl
              (or_intror (or_introl eq_refl)) eq_refl eq_refl)) eq_refl).
  intros d' [<-|[<-|[]]] _; split; discriminate.
Defined.

(* ------------------------------------------------------------------ *)
(** ** The dependency options of the constructor *)

Lemma deprecate_cases given key alt :
  (orEmpty given = [] /\ deprecate given key alt = Ok tt)
  \/ (orEmpty given <> []
      /\ exists msg, deprecate given key alt = Throw (ConfigurationError msg)).
Proof.
  unfold deprecate. destruct (orEmpty given); cbn.
  - left. split; reflexivity.
  - right. split; [discriminate|]. eexists. reflexivity.
Qed.

Lemma addAll_keeps ty deps l n ty' :
  hasEntry n ty' l = true ->
  hasEntry n ty' (fold_left (fun l dep => addDependency dep ty l) deps l) = true.
Proof.
  revert l. induction deps as [|dep deps IH]; intros l H; cbn; [exact H|].
  apply IH. rewrite addDependency_hasEntry, H. reflexivity.
Qed.

Lemma addPeerDeps_cases this deps l :
  ((allowLibraryDependencies this = true \/ deps = [])
   /\ addPeerDeps this deps l
      = Ok (fold_left (fun l dep => addDependency dep PEER l) deps l))
  \/ (allowLibraryDependencies this = false /\ deps <> []
      /\ exists msg, addPeerDeps this deps l = Throw (LibraryDependencyError msg)).
Proof.
  unfold addPeerDeps. rewrite arrayKeys_length.
  destruct deps as [|dep deps]; cbn [List.length Nat.eqb negb andb].
  - left. split; [now right|reflexivity].
  - destruct (allowLibraryDependencies this); cbn [negb].
    + left. split; [now left|reflexivity].
    + right. repeat split; [discriminate|]. eexists. reflexivity.
Qed.

Lemma addBundledDeps_cases this deps l :
  ((allowLibraryDependencies this = true \/ deps = [])
   /\ addBundledDeps this deps l
      = Ok (fold_left (fun l dep => addDependency dep BUNDLED l) deps l))
  \/ (allowLibraryDependencies this = false /\ deps <> []
      /\ exists msg, addBundledDeps this deps l = Throw (LibraryDependencyError msg)).
Proof.
  unfold addBundledDeps.
  destruct deps as [|dep deps]; cbn [List.length Nat.eqb negb andb].
  - left. split; [now right|reflexivity].
  - destruct (allowLibraryDependencies this); cbn [negb].
    + left. split; [now left|reflexivity].
    + right. repeat split; [discriminate|]. eexists. reflexivity.
Qed.

(** What a successful [processDeps] leaves in the ledger. *)
Lemma processDeps_Ok this options l l' :
  processDeps this options l = Ok l' ->
  l' = fold_left (fun l dep => addDependency dep BUNDLED l)
         (orEmpty (opt_bundledDeps options))
         (fold_left (fun l dep => addDependency dep PEER l)
            (orEmpty (opt_peerDeps options))
            (addDevDeps (orEmpty (opt_devDeps options))
               (addDeps (orEmpty (opt_deps options)) l)))
  /\ orEmpty (opt_dependencies options) = []
  /\ orEmpty (opt_peerDependencies options) = []
  /\ orEmpty (opt_devDependencies options) = []
  /\ orEmpty (opt_bundledDependencies options) = []
  /\ (allowLibraryDependencies this = true
      \/ (orEmpty (opt_peerDeps options) = []
          /\ orEmpty (opt_bundledDeps options) = [])).
Proof.
  unfold processDeps.
  destruct (deprecate_cases (opt_dependencies options) "dependencies" "deps")
    as [[H1 ->]|[_ [m ->]]]; [|discriminate].
  destruct (deprecate_cases (opt_peerDependencies options) "peerDependencies" "peerDeps")
    as [[H2 ->]|[_ [m ->]]]; [|discriminate].
  destruct (deprecate_cases (opt_devDependencies options) "devDependencies" "devDeps")
    as [[H3 ->]|[_ [m ->]]]; [|discriminate].
  destruct (deprecate_cases (opt_bundledDependencies options)
              "bundledDependencies" "bundledDeps")
    as [[H4 ->]|[_ [m ->]]]; [|discriminate].
  cbn [bind].
  destruct (addPeerDeps_cases this (orEmpty (opt_peerDeps options))
              (addDevDeps (orEmpty (opt_devDeps options))
                 (addDeps (orEmpty (opt_deps options)) l)))
    as [[Hp ->]|[_ [_ [m ->]]]]; [|discriminate].
  cbn [bind].
  match goal with
  | |- addBundledDeps this ?ds ?l0 = _ -> _ =>
      destruct (addBundledDeps_cases this ds l0) as [[Hb ->]|[_ [_ [m ->]]]];
        [|discriminate]
  end.
  intros [= <-]. repeat split; trivial.
  destruct Hp as [Hp|Hp]; [now left|].
  destruct Hb as [Hb|Hb]; [now left|]. right. now split.
Qed.

(** X6: [processDeps] rejects a non-empty value under each of the four
    option names that are no longer supported, and peer or bundled
    dependencies of a package that allows no library dependencies;
    anything else it accepts, and the ledger then holds an entry for
    every given dependency under the role of its option, next to the
    entries it held before. *)
Theorem processDeps_outcome (this : NpmPackage) (options : DependencyOptions)
  (l : Ledger) :
  ((exists l', processDeps this options l = Ok l')
   <-> orEmpty (opt_dependencies options) = []
       /\ orEmpty (opt_peerDependencies options) = []
       /\ orEmpty (opt_devDependencies options) = []
       /\ orEmpty (opt_bundledDependencies options) = []
       /\ (allowLibraryDependencies this = true
           \/ (orEmpty (opt_peerDeps options) = []
               /\ orEmpty (opt_bundledDeps options) = [])))
  /\ (forall l', processDeps this options l = Ok l' ->
        (forall dep, In dep (orEmpty (opt_deps options)) ->
           hasEntry (fst (parseDependency dep)) RUNTIME l' = true)
        /\ (forall dep, In dep (orEmpty (opt_devDeps options)) ->
              hasEntry (fst (parseDependency dep)) BUILD l' = true)
        /\ (forall dep, In dep (orEmpty (opt_peerDeps options)) ->
              hasEntry (fst (parseDependency dep)) PEER l' = true)
        /\ (forall dep, In dep (orEmpty (opt_bundledDeps options)) ->
              hasEntry (fst (parseDependency dep)) BUNDLED l' = true)
        /\ (forall n ty, hasEntry n ty l = true -> hasEntry n ty l' = true)).
Proof.
  split; [split|].
  - intros [l' Hl']. apply processDeps_Ok in Hl'. tauto.
  - intros (H1 & H2 & H3 & H4 & Hlib). unfold processDeps, deprecate.
    rewrite H1, H2, H3, H4. cbn [List.length Nat.eqb negb bind].
    match goal with
    | |- exists l', bind (addPeerDeps this ?ds ?l0) _ = _ =>
        destruct (addPeerDeps_cases this ds l0) as [[_ ->]|[Ha [Hne _]]]
    end.
    + cbn [bind].
      match goal with
      | |- exists l', addBundledDeps this ?ds ?l0 = _ =>
          destruct (addBundledDeps_cases this ds l0) as [[_ ->]|[Ha [Hne _]]]
      end.
      * eexists. reflexivity.
      * destruct Hlib as [Hlib|[_ Hlib]]; [congruence|contradiction].
    + destruct Hlib as [Hlib|[Hlib _]]; [congruence|contradiction].
  - intros l' Hl'. apply processDeps_Ok in Hl' as [-> _].
    unfold addDevDeps, addDeps. repeat split.
    + intros dep Hd. do 3 apply addAll_keeps. now apply addAll_hasEntry.
    + intros dep Hd. do 2 apply addAll_keeps. now apply addAll_hasEntry.
    + intros dep Hd. apply addAll_keeps. now apply addAll_hasEntry.
    + intros dep Hd. now apply addAll_hasEntry.
    + intros n ty H. now do 4 apply addAll_keeps.
Qed.

Lemma processDeps_outcome_witness :
  exists l',
    processDeps libraryPackage
      {| opt_deps := Some ["left-pad"]; opt_devDeps := None;
         opt_peerDeps := Some ["react@^16"]; opt_bundledDeps := None;
         opt_dependencies := None; opt_peerDependencies := Some [];
         opt_devDependencies := None; opt_bundledDependencies := None |} [] = Ok l'.
Proof.
  apply (proj2 (proj1
           (processDeps_outcome libraryPackage
              {| opt_deps := Some ["left-pad"]; opt_devDeps := None;
                 opt_peerDeps := Some ["react@^16"]; opt_bundledDeps := None;
                 opt_dependencies := None; opt_peerDependencies := Some [];
                 opt_devDependencies := None; opt_bundledDependencies := None |} []))).
  repeat split. now left.
Defined.

(** X7: the constructor does not notice a package that is given both as
    a peer and as a bundled dependency: [processDeps] accepts the
    options, and it is the rendering of the resulting ledger that
    fails. *)
Theorem peer_and_bundled_rejected_at_rendering
  (minVersion : string -> Result (option string)) (this : NpmPackage)
  (options : DependencyOptions) (root : option PackageJson)
  (l l' : Ledger) (p b : string) :
  processDeps this options l = Ok l' ->
  In p (orEmpty (opt_peerDeps options)) ->
  In b (orEmpty (opt_bundledDeps options)) ->
  fst (parseDependency p) = fst (parseDependency b) ->
  throws (renderDependencies minVersion this root l').
Proof.
  intros Hl' Hp Hb Hname.
  apply processDeps_Ok in Hl' as [-> _].
  set (l' := fold_left _ (orEmpty (opt_bundledDeps options)) _).
  assert (Hbundled : hasEntry (fst (parseDependency b)) BUNDLED l' = true)
    by now apply addAll_hasEntry.
  assert (Hpeer : hasEntry (fst (parseDependency b)) PEER l' = true)
    by (rewrite <- Hname; apply addAll_keeps; now apply addAll_hasEntry).
  destruct (pinPhase_cases minVersion this l')
    as [[l1 Hpin]|[[msg Hpin]|[d [e [_ [_ [_ Hpin]]]]]]].
  - destruct (pinPhase_storeAll _ _ _ _ Hpin) as [es [_ Hl1]].
    apply (storeAll_hasEntry es) in Hbundled, Hpeer. rewrite <- Hl1 in Hbundled, Hpeer.
    apply hasEntry_In in Hbundled as [d [Hd [Hn Ht]]].
    destruct (fillBuckets_conflict l1 (all l1) (emptyDependencies, []) d Hd Ht)
      as [msg Hmsg]; [now rewrite Hn|].
    exists (ConflictError msg).
    now apply (renderDependencies_fill_throws _ _ _ _ l1).
  - exists (ResolutionError msg). now apply renderDependencies_pin_throws.
  - exists e. now apply renderDependencies_pin_throws.
Qed.

Lemma peer_and_bundled_rejected_at_rendering_witness :
  throws (renderDependencies sampleMinVersion libraryPackage None
            [ {| name := "baz"; version := Some "^1"; type := PEER |};
              {| name := "baz"; version := None; type := BUNDLED |} ]).
Proof.
  apply (peer_and_bundled_rejected_at_rendering sampleMinVersion libraryPackage
           {| opt_deps := None; opt_devDeps := None;
              opt_peerDeps := Some ["baz@^1"]; opt_bundledDeps := Some ["baz"];
              opt_dependencies := None; opt_peerDependencies := None;
              opt_devDependencies := None; opt_bundledDependencies := None |}
           None [] _ "baz@^1" "baz" eq_refl).
  - now left.
  - now left.
  - reflexivity.
Defined.

(* ------------------------------------------------------------------ *)
(** ** The author and the engines of the manifest *)

(** X8: [renderAuthor] fails exactly when no author name is given but an
    e-mail address, a URL or the organization flag is, and for the flag
    it is enough that it is given, even as [false]; with a name it
    returns the author, whose organization flag defaults to [false];
    with nothing given there is no author. *)
Theorem author_requires_name (options : AuthorOptions) :
  (throws (renderAuthor options)
   <-> optTruthy (authorName options) = false
       /\ (optTruthy (authorEmail options) = true
           \/ optTruthy (authorUrl options) = true
           \/ authorOrganization options <> None))
  /\ (optTruthy (authorName options) = true ->
      renderAuthor options
      = Ok (Some {| author_name := optText (authorName options);
                    author_email := authorEmail options;
                    author_url := authorUrl options;
                    author_organization :=
                      match authorOrganization options with
                      | Some b => b
                      | None => false
                      end |}))
  /\ (renderAuthor options = Ok None
      <-> optTruthy (authorName options) = false
          /\ optTruthy (authorEmail options) = false
          /\ optTruthy (authorUrl options) = false
          /\ authorOrganization options = None).
Proof.
  unfold renderAuthor, throws.
  destruct (optTruthy (authorName options));
    destruct (optTruthy (authorEmail options));
    destruct (optTruthy (authorUrl options));
    destruct (authorOrganization options) as [org|]; cbn;
    (split; [split|split; [|split]]);
    try (intros [e He]; discriminate);
    try (intros [H _]; discriminate);
    try (intros [_ [H|[H|H]]]; solve [discriminate | contradiction]);
    try (intros _; eexists; reflexivity);
    try (intros _; split; [reflexivity|]; solve [now left | right; now left
                                                 | right; right; discriminate]);
    try reflexivity; try discriminate;
    try (intros [_ [H1 [H2 H3]]]; discriminate);
    try (intros _; repeat split; reflexivity).
Qed.

Lemma author_requires_name_witness :
  throws (renderAuthor {| authorName := None; authorEmail := None;
                          authorUrl := None; authorOrganization := Some false |}).
Proof.
  apply (proj2 (proj1 (author_requires_name
                         {| authorName := None; authorEmail := None;
                            authorUrl := None; authorOrganization := Some false |}))).
  split; [reflexivity|]. right. right. discriminate.
Defined.






(* ------------------------------------------------------------------ *)
(** ** The script table and the scripts of the manifest *)

Section DictFacts.
Variable V : Type.
Implicit Types (o : JsDict.t V) (k : string) (v : V).

Lemma dict_get_set o k v k' :
  JsDict.get (JsDict.set o k v) k' = if String.eqb k k' then Some v else JsDict.get o k'.
Proof.
  induction o as [|[a b] o IH]; simpl.
  - destruct (String.eqb k k'); reflexivity.
  - destruct (String.eqb a k) eqn:E; simpl.
    + apply String.eqb_eq in E. subst a.
      destruct (String.eqb k k'); reflexivity.
    + rewrite IH. destruct (String.eqb a k') eqn:E'; trivial.
      apply String.eqb_eq in E'. subst a. now rewrite String.eqb_sym, E.
Qed.

Lemma dict_get_None o k : JsDict.get o k = None <-> ~ In k (map fst o).
Proof.
  induction o as [|[a b] o IH]; simpl; [intuition|].
  destruct (String.eqb a k) eqn:E.
  - apply String.eqb_eq in E. subst. split; [discriminate|]. intros H. exfalso. auto.
  - apply String.eqb_neq in E. rewrite IH. intuition.
Qed.



Lemma dict_set_keys_In o k v x :
  In x (map fst (JsDict.set o k v)) <-> In x (map fst o) \/ x = k.
Proof.
  induction o as [|[a b] o IH]; simpl; [intuition|].
  destruct (String.eqb a k) eqn:E; simpl.
  - apply String.eqb_eq in E. subst. intuition.
  - rewrite IH. intuition.
Qed.

Lemma dict_set_NoDup o k v :
  NoDup (map fst o) -> NoDup (map fst (JsDict.set o k v)).
Proof.
  induction o as [|[a b] o IH]; simpl; intro H.
  - repeat constructor. intros [].
  - inversion H as [|? ? Hnotin Hn]. subst.
    destruct (String.eqb a k) eqn:E; simpl.
    + now constructor.
    + constructor; [|auto]. rewrite dict_set_keys_In. intros [H1|H1]; [auto|].
      subst. now rewrite String.eqb_refl in E.
Qed.

Lemma dict_delete_keys_In o k x :
  In x (map fst (JsDict.delete o k)) -> In x (map fst o).
Proof.
  induction o as [|[a b] o IH]; simpl; [tauto|].
  destruct (String.eqb a k); simpl; intuition.
Qed.

Lemma dict_delete_NoDup o k :
  NoDup (map fst o) -> NoDup (map fst (JsDict.delete o k)).
Proof.
  induction o as [|[a b] o IH]; simpl; intro H; [exact H|].
  inversion H as [|? ? Hnotin Hn]. subst.
  destruct (String.eqb a k); simpl; [exact Hn|].
  constructor; [|auto]. intro Hin. apply Hnotin.
  now apply dict_delete_keys_In in Hin.
Qed.

Lemma dict_get_delete o k k' :
  NoDup (map fst o) ->
  JsDict.get (JsDict.delete o k) k' = if String.eqb k k' then None else JsDict.get o k'.
Proof.
  induction o as [|[a b] o IH]; simpl; intro H.
  - destruct (String.eqb k k'); reflexivity.
  - inversion H as [|? ? Hnotin Hn]. subst.
    destruct (String.eqb a k) eqn:E; simpl.
    + apply String.eqb_eq in E. subst a.
      destruct (String.eqb k k') eqn:E'; [|reflexivity].
      apply String.eqb_eq in E'. subst k'. now apply dict_get_None.
    + rewrite IH by exact Hn. destruct (String.eqb a k') eqn:E'; trivial.
      apply String.eqb_eq in E'. subst a. now rewrite String.eqb_sym, E.
Qed.

Lemma dict_delete_set o k v :
  JsDict.delete (JsDict.set o k v) k = JsDict.delete o k.
Proof.
  induction o as [|[a b] o IH]; simpl.
  - now rewrite String.eqb_refl.
  - destruct (String.eqb a k) eqn:E; simpl; rewrite E; [reflexivity|].
    now rewrite IH.
Qed.





End DictFacts.

(** X10: the script table is keyed by name: [setScript] replaces the
    commands of a script by the one given and makes [hasScript] answer
    true; after [removeScript] it answers true only for the names every
    object inherits from Object.prototype ([toString], [constructor]
    and the like), for which it answers true whatever was set or
    removed; neither call changes what it answers for another name, and
    removing a script after setting it leaves the table as removing it
    alone. The name [__proto__] is left out: assigning to it replaces
    the prototype of the table instead of adding a script. *)
Theorem script_table_by_name (scripts : JsDict.t (list string)) (n command : string) :
  NoDup (map fst scripts) ->
  n <> "__proto__" ->
  JsDict.get (setScript n command scripts) n = Some [command]
  /\ hasScript n (setScript n command scripts) = true
  /\ hasScript n (removeScript n scripts) = JsObject.inherited n
  /\ (forall m, m <> n ->
        JsDict.get (setScript n command scripts) m = JsDict.get scripts m
        /\ JsDict.get (removeScript n scripts) m = JsDict.get scripts m
        /\ hasScript m (setScript n command scripts) = hasScript m scripts
        /\ hasScript m (removeScript n scripts) = hasScript m scripts)
  /\ removeScript n (setScript n command scripts) = removeScript n scripts
  /\ NoDup (map fst (setScript n command scripts))
  /\ NoDup (map fst (removeScript n scripts)).
Proof.
  intros Hn _. unfold setScript, removeScript, hasScript, JsDict.has.
  rewrite dict_get_set, dict_get_delete, String.eqb_refl by exact Hn.
  split; [reflexivity|]. split; [reflexivity|]. split; [reflexivity|].
  split; [|split; [apply dict_delete_set|split]].
  - intros m Hm. apply String.eqb_neq in Hm.
    rewrite dict_get_set, dict_get_delete by exact Hn.
    rewrite String.eqb_sym, Hm. repeat split.
  - now apply dict_set_NoDup.
  - now apply dict_delete_NoDup.
Qed.

Lemma script_table_by_name_witness :
  hasScript "toString" (removeScript "toString" [("build", ["tsc"])]) = true
  /\ hasScript "build" (removeScript "build" [("build", ["tsc"])]) = false.
Proof.
  split.
  - apply (proj1 (proj2 (proj2
             (script_table_by_name [("build", ["tsc"])] "toString" "ls"
                ltac:(repeat constructor; cbn; intuition)
                ltac:(discriminate))))).
  - apply (proj1 (proj2 (proj2
             (script_table_by_name [("build", ["tsc"])] "build" "tsc"
                ltac:(repeat constructor; cbn; intuition)
                ltac:(discriminate))))).
Defined.

Section ScriptFacts.
Variable toShellCommand : Task -> Result string.
Variable this : NpmPackage.


Lemma assign_fold_other (E : list (string * string)) (o : JsObject.t) k :
  ~ In k (map fst E) -> JsObject.get (fold_left assign E o) k = JsObject.get o k.
Proof.
  revert o. induction E as [|[n u] E IH]; intros o H; simpl; [reflexivity|].
  rewrite IH by (intro Hin; apply H; now right).
  unfold assign. simpl. rewrite get_set.
  destruct (String.eqb n k) eqn:E1; [|reflexivity].
  apply String.eqb_eq in E1. exfalso. apply H. now left.
Qed.




End ScriptFacts.


(* ------------------------------------------------------------------ *)
(** ** The binaries of the manifest *)

Section BinFacts.
Variable pathJoin : string -> string -> string.
Variable files : list string.
Variable executable : string -> bool.




End BinFacts.


(* ------------------------------------------------------------------ *)
(** ** The package manager and the build workflows *)

Lemma packageManager_cases (this : NpmPackage) :
  (packageManager this = YARN
   /\ initRunScriptCommand this = Ok "yarn run"
   /\ forall frozen, exists c, renderInstallCommand this frozen = Ok c)
  \/ (packageManager this = NPM
      /\ initRunScriptCommand this = Ok "npm run"
      /\ forall frozen, exists c, renderInstallCommand this frozen = Ok c)
  \/ (packageManager this <> YARN /\ packageManager this <> NPM
      /\ initRunScriptCommand this
         = Throw (ConfigurationError
                    ("unexpected package manager " ++ packageManager this))
      /\ forall frozen,
           renderInstallCommand this frozen
           = Throw (ConfigurationError
                      ("unexpected package manager " ++ packageManager this))).
Proof.
  unfold initRunScriptCommand, renderInstallCommand.
  destruct (String.eqb (packageManager this) YARN) eqn:Ey.
  - left. apply String.eqb_eq in Ey. rewrite Ey. cbn.
    repeat split. intro frozen. eexists. reflexivity.
  - destruct (String.eqb (packageManager this) NPM) eqn:En.
    + right. left. apply String.eqb_eq in En. repeat split; trivial.
      intro frozen. eexists. reflexivity.
    + right. right. apply String.eqb_neq in Ey, En. repeat split; trivial.
Qed.

(** X13: the constructor of [NodeProject] and the install command of
    [NpmPackage] accept the same package managers: the run-script
    command can be initialised exactly when the install command can be
    rendered, frozen or not; otherwise both fail with the same error,
    and so does [postSynthesize], whatever state it is called in. *)
Theorem package_manager_commands_agree
  (installedVersion : string -> option (option string))
  (localeCompare : string -> string -> comparison) (this : NpmPackage) :
  ((exists c, initRunScriptCommand this = Ok c)
   <-> forall frozen, exists c, renderInstallCommand this frozen = Ok c)
  /\ (forall e, initRunScriptCommand this = Throw e ->
        forall frozen,
          renderInstallCommand this frozen = Throw e
          /\ forall st, postSynthesize installedVersion localeCompare this frozen st
                        = Throw e)
  /\ (forall c, installCommand this = Ok c ->
        (packageManager this = YARN
         /\ c = "yarn install --check-files --frozen-lockfile")
        \/ (packageManager this = NPM /\ c = "npm ci"))
  /\ (packageManager this = YARN ->
      initRunScriptCommand this = Ok "yarn run"
      /\ renderInstallCommand this true
         = Ok "yarn install --check-files --frozen-lockfile"
      /\ renderInstallCommand this false = Ok "yarn install --check-files")
  /\ (packageManager this = NPM ->
      initRunScriptCommand this = Ok "npm run"
      /\ renderInstallCommand this true = Ok "npm ci"
      /\ renderInstallCommand this false = Ok "npm install").
Proof.
  assert (Hyarn : packageManager this = YARN ->
            initRunScriptCommand this = Ok "yarn run"
            /\ renderInstallCommand this true
               = Ok "yarn install --check-files --frozen-lockfile"
            /\ renderInstallCommand this false = Ok "yarn install --check-files")
    by (intro H; unfold initRunScriptCommand, renderInstallCommand; rewrite H;
        repeat split).
  assert (Hnpm : packageManager this = NPM ->
            initRunScriptCommand this = Ok "npm run"
            /\ renderInstallCommand this true = Ok "npm ci"
            /\ renderInstallCommand this false = Ok "npm install")
    by (intro H; unfold initRunScriptCommand, renderInstallCommand; rewrite H;
        repeat split).
  cut (((exists c, initRunScriptCommand this = Ok c)
        <-> forall frozen, exists c, renderInstallCommand this frozen = Ok c)
       /\ (forall e, initRunScriptCommand this = Throw e ->
             forall frozen,
               renderInstallCommand this frozen = Throw e
               /\ forall st, postSynthesize installedVersion localeCompare this frozen st
                             = Throw e)
       /\ (forall c, installCommand this = Ok c ->
             (packageManager this = YARN
              /\ c = "yarn install --check-files --frozen-lockfile")
             \/ (packageManager this = NPM /\ c = "npm ci")));
    [intros [H1 [H2 H3]]; repeat split; auto; try apply H1; try apply H2;
     try apply Hyarn; try apply Hnpm; trivial|].
  destruct (packageManager_cases this)
    as [[Hpm [Hrun Hinst]]|[[Hpm [Hrun Hinst]]|[Hy [Hn [Hrun Hinst]]]]].
  - split; [split|split].
    + intros _. exact Hinst.
    + intros _. eexists. exact Hrun.
    + intros e He. congruence.
    + intros c Hc. left. split; trivial.
      unfold installCommand, renderInstallCommand in Hc. rewrite Hpm in Hc.
      cbn in Hc. congruence.
  - split; [split|split].
    + intros _. exact Hinst.
    + intros _. eexists. exact Hrun.
    + intros e He. congruence.
    + intros c Hc. right. split; trivial.
      unfold installCommand, renderInstallCommand in Hc. rewrite Hpm in Hc.
      cbn in Hc. congruence.
  - split; [split|split].
    + intros [c Hc]. congruence.
    + intro H. destruct (H true) as [c Hc]. rewrite Hinst in Hc. discriminate.
    + intros e He frozen. rewrite Hrun in He. injection He as <-.
      split; [apply Hinst|].
      intro st. unfold postSynthesize. now rewrite Hinst.
    + intros c Hc. unfold installCommand in Hc. rewrite Hinst in Hc. discriminate.
Qed.

Lemma package_manager_commands_agree_witness :
  renderInstallCommand
    {| npmTaskExecution := PROJEN; projenCommand := "npx projen";
       allowLibraryDependencies := true; packageManager := "pnpm";
       peerDependencyOptions := {| pinnedDevDependency := None |} |} false
  = Throw (ConfigurationError "unexpected package manager pnpm").
Proof.
  apply (proj1 (proj2 (package_manager_commands_agree sampleInstalled codeUnitCompare
           {| npmTaskExecution := PROJEN; projenCommand := "npx projen";
              allowLibraryDependencies := true; packageManager := "pnpm";
              peerDependencyOptions := {| pinnedDevDependency := None |} |}))
           _ eq_refl false).
Defined.

Lemma runTaskCommand_cases (this : NodeProject) (task : Task) :
  ((npmTaskExecution (npmPackage this) = PROJEN
    \/ npmTaskExecution (npmPackage this) = SHELL)
   /\ exists c, runTaskCommand this task = Ok c)
  \/ (npmTaskExecution (npmPackage this) <> PROJEN
      /\ npmTaskExecution (npmPackage this) <> SHELL
      /\ runTaskCommand this task
         = Throw (ConfigurationError
                    ("invalid npmTaskExecution mode: "
                     ++ npmTaskExecution (npmPackage this)))).
Proof.
  unfold runTaskCommand.
  destruct (String.eqb (npmTaskExecution (npmPackage this)) PROJEN) eqn:Ep.
  - left. apply String.eqb_eq in Ep. split; [now left|]. eexists. reflexivity.
  - destruct (String.eqb (npmTaskExecution (npmPackage this)) SHELL) eqn:Es.
    + left. apply String.eqb_eq in Es. split; [now right|]. eexists. reflexivity.
    + right. apply String.eqb_neq in Ep, Es. repeat split; trivial.
Qed.

Lemma installWorkflowSteps_cases (this : Workflows) :
  (exists c,
     installCommand (npmPackage (project this)) = Ok c
     /\ exists setup,
          installWorkflowSteps this
          = Ok (setup
                ++ [ {| step_name := "Install dependencies";
                        step_id := None; step_uses := None;
                        step_run := Some c;
                        step_with := None; step_env := None |};
                     {| step_name := "Synthesize project files";
                        step_id := None; step_uses := None;
                        step_run := Some (projenCommand (npmPackage (project this)));
                        step_with := None; step_env := None |} ])%list
          /\ antitamperChecks setup = 0)
  \/ (exists e,
        installCommand (npmPackage (project this)) = Throw e
        /\ installWorkflowSteps this = Throw e).
Proof.
  unfold installWorkflowSteps.
  destruct (installCommand (npmPackage (project this))) as [c|e].
  - left. exists c. split; [reflexivity|]. cbn [bind].
    eexists. split; [reflexivity|]. now destruct (optTruthy (nodeVersion this)).
  - right. exists e. split; reflexivity.
Qed.

Lemma antitamperChecks_app a b :
  antitamperChecks (a ++ b) = antitamperChecks a + antitamperChecks b.
Proof. unfold antitamperChecks. now rewrite filter_app, length_app. Qed.

(** X14: [createBuildWorkflow] fails without github support, before
    anything else is looked at; with it, it fails for a package manager
    other than yarn and npm, and then for a task execution mode other
    than projen and shell; in every other case it returns a job, which
    runs on ubuntu-latest with [CI=true]. *)
Theorem build_workflow_outcome (this : Workflows) (options : NodeBuildWorkflowOptions) :
  (github this = false ->
   createBuildWorkflow this options = Throw (ConfigurationError "no github support"))
  /\ (github this = true ->
      packageManager (npmPackage (project this)) <> YARN ->
      packageManager (npmPackage (project this)) <> NPM ->
      createBuildWorkflow this options
      = Throw (ConfigurationError
                 ("unexpected package manager "
                  ++ packageManager (npmPackage (project this)))))
  /\ (github this = true ->
      packageManager (npmPackage (project this)) = YARN
      \/ packageManager (npmPackage (project this)) = NPM ->
      npmTaskExecution (npmPackage (project this)) <> PROJEN ->
      npmTaskExecution (npmPackage (project this)) <> SHELL ->
      createBuildWorkflow this options
      = Throw (ConfigurationError
                 ("invalid npmTaskExecution mode: "
                  ++ npmTaskExecution (npmPackage (project this)))))
  /\ (github this = true ->
      packageManager (npmPackage (project this)) = YARN
      \/ packageManager (npmPackage (project this)) = NPM ->
      npmTaskExecution (npmPackage (project this)) = PROJEN
      \/ npmTaskExecution (npmPackage (project this)) = SHELL ->
      exists job,
        createBuildWorkflow this options = Ok job
        /\ runs_on job = "ubuntu-latest"
        /\ job_env job = [("CI", "true")]).
Proof.
  unfold createBuildWorkflow. repeat split.
  - intros ->. reflexivity.
  - intros -> Hy Hn. cbn [negb].
    destruct (installWorkflowSteps_cases this)
      as [[c [Hc _]]|[e [He ->]]].
    + destruct (packageManager_cases (npmPackage (project this)))
        as [[H _]|[[H _]|[_ [_ [_ H]]]]]; try contradiction.
      unfold installCommand in Hc. rewrite H in Hc. discriminate.
    + destruct (packageManager_cases (npmPackage (project this)))
        as [[H _]|[[H _]|[_ [_ [_ H]]]]]; try contradiction.
      unfold installCommand in He. rewrite H in He. cbn [bind]. congruence.
  - intros -> Hpm Hp Hs. cbn [negb].
    destruct (installWorkflowSteps_cases this)
      as [[c [Hc [setup [-> _]]]]|[e [He _]]].
    + cbn [bind].
      destruct (runTaskCommand_cases (project this) (buildTask this))
        as [[[H|H] _]|[_ [_ ->]]]; try contradiction. reflexivity.
    + destruct (packageManager_cases (npmPackage (project this)))
        as [[_ [_ H]]|[[_ [_ H]]|[Hy [Hn _]]]].
      * destruct (H true) as [c Hc]. unfold installCommand in He. congruence.
      * destruct (H true) as [c Hc]. unfold installCommand in He. congruence.
      * destruct Hpm; contradiction.
  - intros -> Hpm Hmode. cbn [negb].
    destruct (installWorkflowSteps_cases this)
      as [[c [Hc [setup [-> _]]]]|[e [He _]]].
    + cbn [bind].
      destruct (runTaskCommand_cases (project this) (buildTask this))
        as [[_ [b ->]]|[Hp [Hs _]]].
      * cbn [bind]. eexists. split; [reflexivity|]. split; reflexivity.
      * destruct Hmode; contradiction.
    + destruct (packageManager_cases (npmPackage (project this)))
        as [[_ [_ H]]|[[_ [_ H]]|[Hy [Hn _]]]].
      * destruct (H true) as [c Hc]. unfold installCommand in He. congruence.
      * destruct (H true) as [c Hc]. unfold installCommand in He. congruence.
      * destruct Hpm; contradiction.
Qed.

Lemma build_workflow_outcome_witness :
  exists job,
    createBuildWorkflow sampleWorkflows sampleBuildOptions = Ok job
    /\ runs_on job = "ubuntu-latest"
    /\ job_env job = [("CI", "true")].
Proof.
  apply (proj2 (proj2 (proj2
           (build_workflow_outcome sampleWorkflows sampleBuildOptions)))).
  - reflexivity.
  - now left.
  - now right.
Defined.

(** What [createBuildWorkflow] returns when it returns a job. *)
Lemma createBuildWorkflow_Ok (this : Workflows) (options : NodeBuildWorkflowOptions)
  (job : Job) :
  createBuildWorkflow this options = Ok job ->
  exists setup c build,
    antitamperChecks setup = 0
    /\ installCommand (npmPackage (project this)) = Ok c
    /\ runTaskCommand (project this) (buildTask this) = Ok build
    /\ job_if job = (if optTruthy (condition options) then condition options else None)
    /\ job_container job = (if optTruthy (image options) then image options else None)
    /\ job_steps job
       = (orNoSteps (preCheckoutSteps options)
          ++ [checkoutStep options]
          ++ (setup
              ++ [ {| step_name := "Install dependencies";
                      step_id := None; step_uses := None;
                      step_run := Some c;
                      step_with := None; step_env := None |};
                   {| step_name := "Synthesize project files";
                      step_id := None; step_uses := None;
                      step_run := Some (projenCommand (npmPackage (project this)));
                      step_with := None; step_env := None |} ])
          ++ (if optTrue (antitamperDisabled options) || negb (antitamper this)
              then [] else [antitamperStep])
          ++ [gitIdentityStep]
          ++ orNoSteps (preBuildSteps options)
          ++ [buildStep build]
          ++ match jest this with
             | Some coverageDirectory =>
                 if optTrue (codeCov options) || optTruthy (codeCovTokenSecret options)
                 then [codecovStep (codeCovTokenSecret options) coverageDirectory]
                 else []
             | None => []
             end
          ++ (if optTrue (antitamperDisabled options) || negb (antitamper this)
              then [] else [antitamperStep])
          ++ (if negb (optTruthy (commit options)) then []
              else [commitStep (optText (commit options))])
          ++ (if negb (optTruthy (pushBranch options)) then []
              else [pushStep (optText (pushBranch options))])
          ++ orNoSteps (postSteps options)
          ++ (if optTrue (uploadArtifact options) then [uploadArtifactStep] else []))%list.
Proof.
  unfold createBuildWorkflow.
  destruct (github this); [|discriminate]. cbn [negb].
  destruct (installWorkflowSteps_cases this)
    as [[c [Hc [setup [-> Hsetup]]]]|[e [_ ->]]]; [|discriminate].
  cbn [bind].
  destruct (runTaskCommand (project this) (buildTask this)) as [build|]; [|discriminate].
  cbn [bind]. intros [= <-]. exists setup, c, build. repeat split; trivial.
Qed.

(** X15: when anti-tamper checks are on for the project and not
    disabled for the workflow, the job checks twice: directly after the
    project files were synthesized, and after the build, before anything
    is committed or pushed; otherwise it does not check at all. (The
    steps handed in with the options are assumed not to be named like
    the check.) *)
Theorem antitamper_checks_frame_the_build (this : Workflows)
  (options : NodeBuildWorkflowOptions) (job : Job) :
  createBuildWorkflow this options = Ok job ->
  antitamperChecks (orNoSteps (preCheckoutSteps options)) = 0 ->
  antitamperChecks (orNoSteps (preBuildSteps options)) = 0 ->
  antitamperChecks (orNoSteps (postSteps options)) = 0 ->
  (optTrue (antitamperDisabled options) = true \/ antitamper this = false ->
   antitamperChecks (job_steps job) = 0)
  /\ (optTrue (antitamperDisabled options) = false -> antitamper this = true ->
      antitamperChecks (job_steps job) = 2
      /\ exists before between after build,
           job_steps job
           = (before ++ antitamperStep :: between ++ antitamperStep :: after)%list
           /\ option_map step_name (last (map Some before) None)
              = Some "Synthesize project files"
           /\ runTaskCommand (project this) (buildTask this) = Ok build
           /\ In (buildStep build) between
           /\ (optTruthy (commit options) = true ->
               In (commitStep (optText (commit options))) after)
           /\ (optTruthy (pushBranch options) = true ->
               In (pushStep (optText (pushBranch options))) after)).
Proof.
  intros Hjob Hpre Hbuild Hpost.
  destruct (createBuildWorkflow_Ok _ _ _ Hjob)
    as (setup & c & build & Hsetup & _ & Hrun & _ & _ & Hsteps).
  assert (Hrest :
    antitamperChecks
      (match jest this with
       | Some coverageDirectory =>
           if optTrue (codeCov options) || optTruthy (codeCovTokenSecret options)
           then [codecovStep (codeCovTokenSecret options) coverageDirectory]
           else []
       | None => []
       end) = 0
    /\ antitamperChecks (if negb (optTruthy (commit options)) then []
                         else [commitStep (optText (commit options))]) = 0
    /\ antitamperChecks (if negb (optTruthy (pushBranch options)) then []
                         else [pushStep (optText (pushBranch options))]) = 0
    /\ antitamperChecks (if optTrue (uploadArtifact options)
                         then [uploadArtifactStep] else []) = 0).
  { repeat split.
    - destruct (jest this); [|reflexivity].
      now destruct (optTrue (codeCov options) || optTruthy (codeCovTokenSecret options)).
    - now destruct (optTruthy (commit options)).
    - now destruct (optTruthy (pushBranch options)).
    - now destruct (optTrue (uploadArtifact options)). }
  destruct Hrest as (Hcov & Hcommit & Hpush & Hupload).
  split.
  - intro Hoff.
    assert (Hif : optTrue (antitamperDisabled options) || negb (antitamper this) = true)
      by (destruct Hoff as [-> | ->]; [reflexivity | apply orb_true_r]).
    rewrite Hsteps, Hif. rewrite !antitamperChecks_app.
    rewrite Hpre, Hbuild, Hpost, Hsetup, Hcov, Hcommit, Hpush, Hupload. reflexivity.
  - intros Hd Ha. rewrite Hd, Ha in Hsteps. cbn [negb orb] in Hsteps. split.
    + rewrite Hsteps. rewrite !antitamperChecks_app.
      rewrite Hpre, Hbuild, Hpost, Hsetup, Hcov, Hcommit, Hpush, Hupload. reflexivity.
    + exists (orNoSteps (preCheckoutSteps options) ++ [checkoutStep options]
              ++ setup
              ++ [ {| step_name := "Install dependencies";
                      step_id := None; step_uses := None;
                      step_run := Some c;
                      step_with := None; step_env := None |};
                   {| step_name := "Synthesize project files";
                      step_id := None; step_uses := None;
                      step_run := Some (projenCommand (npmPackage (project this)));
                      step_with := None; step_env := None |} ])%list,
             ([gitIdentityStep] ++ orNoSteps (preBuildSteps options)
              ++ [buildStep build]
              ++ match jest this with
                 | Some coverageDirectory =>
                     if optTrue (codeCov options)
                        || optTruthy (codeCovTokenSecret options)
                     then [codecovStep (codeCovTokenSecret options) coverageDirectory]
                     else []
                 | None => []
                 end)%list,
             ((if negb (optTruthy (commit options)) then []
               else [commitStep (optText (commit options))])
              ++ (if negb (optTruthy (pushBranch options)) then []
                  else [pushStep (optText (pushBranch options))])
              ++ orNoSteps (postSteps options)
              ++ (if optTrue (uploadArtifact options)
                  then [uploadArtifactStep] else []))%list,
             build.
      split; [|split; [|split; [exact Hrun|split; [|split]]]].
      * rewrite Hsteps. repeat rewrite <- app_assoc. reflexivity.
      * rewrite !map_app. cbn [map].
        change [Some {| step_name := "Install dependencies";
                        step_id := None; step_uses := None;
                        step_run := Some c;
                        step_with := None; step_env := None |};
                Some {| step_name := "Synthesize project files";
                        step_id := None; step_uses := None;
                        step_run := Some (projenCommand (npmPackage (project this)));
                        step_with := None; step_env := None |}]
          with ([Some {| step_name := "Install dependencies";
                         step_id := None; step_uses := None;
                         step_run := Some c;
                         step_with := None; step_env := None |}]
                ++ [Some {| step_name := "Synthesize project files";
                            step_id := None; step_uses := None;
                            step_run := Some (projenCommand (npmPackage (project this)));
                            step_with := None; step_env := None |}])%list.
        rewrite !app_assoc, last_last. reflexivity.
      * apply in_or_app. right. apply in_or_app. right. apply in_or_app. left.
        now left.
      * intro H. rewrite H. cbn [negb]. apply in_or_app. left. now left.
      * intro H. rewrite H. cbn [negb]. apply in_or_app. right.
        apply in_or_app. left. now left.
Qed.

Lemma antitamper_checks_frame_the_build_witness :
  antitamperChecks
    (job_steps (match createBuildWorkflow sampleWorkflows sampleBuildOptions with
                | Ok job => job
                | Throw _ => {| runs_on := EmptyString; job_env := []; job_if := None;
                                job_steps := []; job_container := None |}
                end)) = 2.
Proof.
  apply (proj2 (antitamper_checks_frame_the_build sampleWorkflows sampleBuildOptions
                  _ eq_refl eq_refl eq_refl eq_refl) eq_refl eq_refl).
Defined.

Lemma ends_with_app (A : Type) (a b tail : list A) :
  (exists e, b = (e ++ tail)%list) -> exists e, (a ++ b)%list = (e ++ tail)%list.
Proof. intros [e ->]. exists (a ++ e)%list. now rewrite app_assoc. Qed.

(** X16: the job of the rebuild bot never checks for tampering, also in
    a project that has the checks on; it starts by posting a comment,
    ends by committing the generated files, pushing them to the branch
    of the pull request and posting a second comment, and runs only on a
    comment that holds the command. *)
Theorem rebuild_bot_commits_unchecked (this : Workflows) (command : string) (job : Job) :
  addRebuildBot this command = Ok job ->
  antitamperChecks (job_steps job) = 0
  /\ hd_error (job_steps job) = Some (postComment "Rebuild started")
  /\ (exists earlier,
        job_steps job
        = (earlier
           ++ [ commitStep "chore: update generated files";
                pushStep "${{ steps.query_pull_request.outputs.branch }}";
                postComment "Rebuild complete. Updates pushed to pull request branch." ])%list)
  /\ job_if job
     = Some ("${{ github.event.issue.pull_request && contains(github.event.comment.body, '@projen "
             ++ command ++ "') }}")
  /\ job_container job = None.
Proof.
  intro Hjob. unfold addRebuildBot in Hjob.
  destruct (createBuildWorkflow_Ok _ _ _ Hjob)
    as (setup & c & build & Hsetup & _ & _ & Hif & Himage & Hsteps).
  cbn in Hif, Himage. cbn -[app antitamperChecks] in Hsteps.
  rewrite Hsteps. split; [|split; [|split; [|split]]].
  - rewrite !antitamperChecks_app, Hsetup. now destruct (jest this).
  - reflexivity.
  - do 9 apply ends_with_app. exists []. reflexivity.
  - exact Hif.
  - exact Himage.
Qed.

Lemma rebuild_bot_commits_unchecked_witness :
  antitamperChecks
    (job_steps (match addRebuildBot sampleWorkflows "rebuild" with
                | Ok job => job
                | Throw _ => {| runs_on := EmptyString; job_env := []; job_if := None;
                                job_steps := []; job_container := None |}
                end)) = 0.
Proof.
  apply (proj1 (rebuild_bot_commits_unchecked sampleWorkflows "rebuild" _ eq_refl)).
Defined.

(* ------------------------------------------------------------------ *)
(** ** Which entry decides a rendered version *)

Lemma writes_split b l1 d l2 :
  bucketOf (type d) = b ->
  writes b (l1 ++ d :: l2)
  = (writes b l1 ++ (name d, versionOrWildcard d) :: writes b l2)%list.
Proof.
  intro Hb. unfold writes. rewrite filter_app, map_app. cbn [filter].
  rewrite Hb. now destruct b.
Qed.

Lemma assign_fold_last (A B : list (string * string)) (o : JsObject.t) n v :
  ~ In n (map fst B) ->
  JsObject.get (fold_left assign (A ++ (n, v) :: B) o) n = Some v.
Proof.
  intro H. rewrite fold_left_app. cbn [fold_left].
  rewrite assign_fold_other by exact H.
  unfold assign. cbn [fst snd]. now rewrite get_set, String.eqb_refl.
Qed.

(** X17: when several entries of the ledger are written to the same map
    under the same name (a runtime and a bundled entry, or build, test
    and devenv entries), the last one in ledger order decides the
    rendered version, for a name that is none Object.prototype
    answers. *)
Theorem last_entry_decides_version (minVersion : string -> Result (option string))
  (this : NpmPackage) (root : option PackageJson) (l : Ledger) (r : Rendered)
  (l1 l2 : Ledger) (d : Dependency) :
  renderDependencies minVersion this root l = Ok r ->
  ledger r = (l1 ++ d :: l2)%list ->
  JsObject.inherited (name d) = false ->
  (forall e, In e l2 -> name e = name d -> bucketOf (type e) <> bucketOf (type d)) ->
  JsObject.get (bucket (bucketOf (type d)) (rendered r)) (name d)
  = Some (reconciledVersion (versionOrWildcard d)
            (recorded root (bucketOf (type d)) (name d))).
Proof.
  intros Hr Hl _ Hlast.
  destruct (rendered_bucket _ _ _ _ _ Hr) as [Hb _].
  rewrite Hb, reconcile_get by apply ofList_keys_NoDup.
  rewrite Hl, (writes_split _ l1 d l2 eq_refl).
  unfold JsObject.ofList.
  change (fold_left (fun o e => JsObject.set o (fst e) (snd e)) ?E JsObject.empty)
    with (fold_left assign E JsObject.empty).
  rewrite assign_fold_last.
  - cbn [option_map]. now destruct root.
  - intro Hin. apply writes_keys in Hin as [e [He [Hn Hbe]]].
    exact (Hlast e He Hn Hbe).
Qed.

Lemma last_entry_decides_version_witness :
  exists r,
    renderDependencies sampleMinVersion libraryPackage None
      [ {| name := "foo"; version := Some "^1"; type := RUNTIME |};
        {| name := "foo"; version := Some "^2"; type := BUNDLED |} ] = Ok r
    /\ JsObject.get (dependencies (rendered r)) "foo" = Some "^2".
Proof.
  eexists. split; [reflexivity|].
  apply (last_entry_decides_version sampleMinVersion libraryPackage None
           [ {| name := "foo"; version := Some "^1"; type := RUNTIME |};
             {| name := "foo"; version := Some "^2"; type := BUNDLED |} ]
           _ [ {| name := "foo"; version := Some "^1"; type := RUNTIME |} ]
           [] {| name := "foo"; version := Some "^2"; type := BUNDLED |}
           eq_refl eq_refl eq_refl).
  intros e [].
Defined.

(* ------------------------------------------------------------------ *)
(** ** What the resolution after the install reports *)

Section ResolveReport.
Variable installedVersion : string -> option (option string).
Variable localeCompare : string -> string -> comparison.

Lemma resolve_fold_snd E acc :
  snd (fold_left (resolveEntry installedVersion) E acc)
  = (snd acc
     ++ flat_map
          (fun e =>
             if String.eqb (snd e) (resolvedVersion installedVersion (fst e) (snd e))
             then []
             else [Verbose (fst e ++ ": " ++ snd e ++ " => "
                            ++ resolvedVersion installedVersion (fst e) (snd e))])
          E)%list.
Proof.
  revert acc. induction E as [|[n d] E IH]; intros [result log]; cbn [fold_left flat_map].
  - now rewrite app_nil_r.
  - rewrite resolveEntry_stores, IH. cbn [snd fst]. now rewrite app_assoc.
Qed.

Lemma resolveDeps_snd current user :
  snd (resolveDeps installedVersion localeCompare current user)
  = (snd (fold_left (resolveEntry installedVersion) (JsObject.entries user)
                    (JsObject.empty, []))
     ++ flat_map (fun n => if JsObject.falsyAt (resolved installedVersion user) n
                           then [Verbose (n ++ " removed")] else [])
                 (JsObject.keys current))%list.
Proof.
  unfold resolveDeps, resolved.
  now destruct (fold_left (resolveEntry installedVersion) (JsObject.entries user)
                          (JsObject.empty, [])).
Qed.

Lemma resolvedVersion_same n d :
  String.eqb d (resolvedVersion installedVersion n d) = false
  <-> d = "*" /\ exists v, installedVersion n = Some v.
Proof.
  unfold resolvedVersion. destruct (String.eqb d "*") eqn:E.
  - apply String.eqb_eq in E. subst d.
    destruct (installedVersion n) as [v|]; cbn.
    + split; [intros _; split; [reflexivity|now exists v]|reflexivity].
    + split; [discriminate|]. intros [_ [v Hv]]. discriminate.
  - rewrite String.eqb_refl. apply String.eqb_neq in E.
    split; [discriminate|]. intros [H _]. contradiction.
Qed.

Lemma resolvedVersion_falsy n d :
  truthy (resolvedVersion installedVersion n d) = false <-> d = EmptyString.
Proof.
  unfold resolvedVersion. destruct (String.eqb d "*") eqn:E.
  - apply String.eqb_eq in E. subst d.
    destruct (installedVersion n); cbn; split; discriminate.
  - apply truthy_false.
Qed.

(** X18: [resolveDeps] logs one line [name: * => ^version] for every
    wildcard requirement whose module is installed, and nothing for any
    other requirement; it reports [name removed] exactly for the names
    recorded in the manifest on disk that the rendered map holds with an
    empty version, or lacks without Object.prototype answering for them;
    and a module installed without a version turns the wildcard into
    [^undefined]. *)
Theorem resolution_report (current user : JsObject.t) :
  NoDup (map fst user) ->
  (forall entry,
     In entry (snd (resolveDeps installedVersion localeCompare current user))
     <-> (exists n v,
            entry = Verbose (n ++ ": * => ^" ++ versionText v)
            /\ JsObject.get user n = Some "*"
            /\ installedVersion n = Some v)
         \/ (exists n,
               entry = Verbose (n ++ " removed")
               /\ In n (JsObject.keys current)
               /\ (JsObject.get user n = Some EmptyString
                   \/ (JsObject.get user n = None
                       /\ JsObject.inherited n = false))))
  /\ (forall n,
        JsObject.get user n = Some "*" -> installedVersion n = Some None ->
        JsObject.get (fst (resolveDeps installedVersion localeCompare current user)) n
        = Some "^undefined").
Proof.
  intro Hnd. split.
  - intro entry. rewrite resolveDeps_snd, resolve_fold_snd. cbn [snd app].
    rewrite in_app_iff, !in_flat_map.
    assert (Hentries : forall n d,
              In (n, d) (JsObject.entries user) <-> JsObject.get user n = Some d).
    { intros n d. split.
      - intro H. apply In_get; [exact Hnd|].
        apply (Permutation_in _ (Permutation_sym (entries_perm user))). exact H.
      - intro H. apply (Permutation_in _ (entries_perm user)).
        now apply get_Some_In. }
    assert (Hfalsy : forall n,
              JsObject.falsyAt (resolved installedVersion user) n = true
              <-> JsObject.get user n = Some EmptyString
                  \/ (JsObject.get user n = None /\ JsObject.inherited n = false)).
    { intro n. unfold JsObject.falsyAt. rewrite resolved_get by exact Hnd.
      destruct (JsObject.get user n) as [u|]; cbn [option_map].
      - rewrite negb_true_iff, resolvedVersion_falsy.
        split; [intros ->; now left|].
        intros [H|[H _]]; [now injection H|discriminate].
      - rewrite negb_true_iff. split; [now right|].
        intros [H|[_ H]]; [discriminate|exact H]. }
    split.
    + intros [[[n d] [Hin Hentry]]|[n [Hn Hentry]]].
      * left. cbn [fst snd] in Hentry.
        destruct (String.eqb d (resolvedVersion installedVersion n d)) eqn:E;
          [contradiction|].
        apply resolvedVersion_same in E as [-> [v Hv]].
        destruct Hentry as [<-|[]]. exists n, v.
        split; [|split; [now apply Hentries|exact Hv]].
        unfold resolvedVersion. cbn. rewrite Hv. reflexivity.
      * right.
        destruct (JsObject.falsyAt (resolved installedVersion user) n) eqn:E;
          [|contradiction].
        destruct Hentry as [<-|[]]. exists n. repeat split; trivial.
        now apply Hfalsy.
    + intros [[n [v [-> [Hget Hv]]]]|[n [-> [Hn Hu]]]].
      * left. exists (n, "*"). split; [now apply Hentries|]. cbn [fst snd].
        unfold resolvedVersion. cbn. rewrite Hv. cbn. now left.
      * right. exists n. split; [exact Hn|].
        apply Hfalsy in Hu. rewrite Hu. now left.
  - intros n Hget Hv. rewrite resolveDeps_get by exact Hnd. rewrite Hget. cbn.
    unfold resolvedVersion. cbn. now rewrite Hv.
Qed.

End ResolveReport.

Lemma resolution_report_witness :
  In (Verbose "left-pad: * => ^1.3.0")
     (snd (resolveDeps sampleInstalled codeUnitCompare []
                       [("zeta", "^2"); ("left-pad", "*")])).
Proof.
  apply (proj1 (resolution_report sampleInstalled codeUnitCompare []
                  [("zeta", "^2"); ("left-pad", "*")]
                  ltac:(repeat constructor; cbn; intuition discriminate))).
  left. exists "left-pad", (Some "1.3.0"). repeat split.
Defined.

(* ------------------------------------------------------------------ *)
(** ** The build and the release workflow of the constructor *)

Ltac workflow_cases this options :=
  unfold createBuildWorkflow, installWorkflowSteps, installCommand;
  destruct (github this); cbn [negb]; [|discriminate];
  destruct (renderInstallCommand (npmPackage (project this)) true);
    cbn [bind]; [|discriminate];
  destruct (runTaskCommand (project this) (buildTask this));
    cbn [bind]; [|discriminate];
  intros [= <-]; cbn [job_steps];
  destruct (optTruthy (nodeVersion this));
  destruct (jest this);
  destruct (opt_codeCov options) as [[|]|];
  destruct (optTruthy (opt_codeCovTokenSecret options));
  destruct (antitamper this).

(** X19: the job of the workflow Release bumps the version directly
    before the build, pushes to the branch that triggered it without a
    commit step of its own and uploads the artifact as its last step;
    the job of the workflow Build does none of the three. Both check
    for tampering twice when the project has anti-tamper on and not at
    all otherwise, so a project constructed with [buildWorkflow: false]
    releases unchecked whatever its [antitamper] option says. An invalid
    task execution mode makes the release job fail before github
    support is looked at. *)
Theorem release_and_build_jobs (this : Workflows) (bumpTask : Task)
  (options : WorkflowOptions) :
  (npmTaskExecution (npmPackage (project this)) <> PROJEN ->
   npmTaskExecution (npmPackage (project this)) <> SHELL ->
   releaseWorkflowJob this bumpTask options
   = Throw (ConfigurationError
              ("invalid npmTaskExecution mode: "
               ++ npmTaskExecution (npmPackage (project this)))))
  /\ (forall job,
        releaseWorkflowJob this bumpTask options = Ok job ->
        antitamperChecks (job_steps job) = (if antitamper this then 2 else 0)
        /\ (exists i bump,
              runTaskCommand (project this) bumpTask = Ok bump
              /\ nth_error (job_steps job) i = Some (bumpStep bump)
              /\ stepIndex "Build" (job_steps job) = Some (S i))
        /\ In (pushStep "${{ github.ref }}") (job_steps job)
        /\ stepIndex "Commit changes" (job_steps job) = None
        /\ hd_error (rev (job_steps job)) = Some uploadArtifactStep
        /\ forall hasParent antitamperOption,
             antitamper this = initAntitamper (Some false) hasParent antitamperOption ->
             antitamperChecks (job_steps job) = 0)
  /\ (forall job,
        buildWorkflowJob this options = Ok job ->
        antitamperChecks (job_steps job) = (if antitamper this then 2 else 0)
        /\ stepIndex "Bump to next version" (job_steps job) = None
        /\ stepIndex "Push changes" (job_steps job) = None
        /\ stepIndex "Commit changes" (job_steps job) = None
        /\ stepIndex "Upload artifact" (job_steps job) = None).
Proof.
  split; [|split].
  - intros Hp Hs. unfold releaseWorkflowJob.
    destruct (runTaskCommand_cases (project this) bumpTask)
      as [[[H|H] _]|[_ [_ ->]]]; try contradiction. reflexivity.
  - intro job. unfold releaseWorkflowJob.
    destruct (runTaskCommand (project this) bumpTask) as [bump|]; cbn [bind];
      [|discriminate].
    workflow_cases this options;
      (split; [reflexivity|]);
      (split; [first [ exists 5; exists bump; repeat split; reflexivity
                     | exists 6; exists bump; repeat split; reflexivity
                     | exists 4; exists bump; repeat split; reflexivity
                     | exists 7; exists bump; repeat split; reflexivity ]|]);
      (split; [cbn; tauto|]);
      (split; [reflexivity|]);
      (split; [reflexivity|]);
      intros hasParent antitamperOption Ha; cbn in Ha; try discriminate Ha;
      reflexivity.
  - intro job. unfold buildWorkflowJob.
    workflow_cases this options; repeat split; reflexivity.
Qed.

Lemma release_and_build_jobs_witness :
  runTaskCommand
    {| npmPackage :=
         {| npmTaskExecution := "make"; projenCommand := "npx projen";
            allowLibraryDependencies := true; packageManager := YARN;
            peerDependencyOptions := {| pinnedDevDependency := None |} |};
       runScriptCommand := "yarn run" |} compileTask
  = Throw (ConfigurationError "invalid npmTaskExecution mode: make")
  /\ releaseWorkflowJob
       {| project :=
            {| npmPackage :=
                 {| npmTaskExecution := "make"; projenCommand := "npx projen";
                    allowLibraryDependencies := true; packageManager := YARN;
                    peerDependencyOptions := {| pinnedDevDependency := None |} |};
               runScriptCommand := "yarn run" |};
          github := false;
          antitamper := true;
          nodeVersion := None;
          jest := None;
          buildTask := compileTask |}
       compileTask
       {| workflowContainerImage := None; opt_codeCov := None;
          opt_codeCovTokenSecret := None |}
     = Throw (ConfigurationError "invalid npmTaskExecution mode: make").
Proof.
  split; [reflexivity|].
  apply (proj1 (release_and_build_jobs
                  {| project :=
                       {| npmPackage :=
                            {| npmTaskExecution := "make"; projenCommand := "npx projen";
                               allowLibraryDependencies := true; packageManager := YARN;
                               peerDependencyOptions := {| pinnedDevDependency := None |} |};
                          runScriptCommand := "yarn run" |};
                     github := false;
                     antitamper := true;
                     nodeVersion := None;
                     jest := None;
                     buildTask := compileTask |}
                  compileTask
                  {| workflowContainerImage := None; opt_codeCov := None;
                     opt_codeCovTokenSecret := None |})); discriminate.
Defined.
